(** * Cryptocurrency-Analysis: strategies, backtest and optimizer objective

    A shallow embedding of [main.py]: the three signal generators
    ([moving_average_strategy], [momentum_strategy],
    [mean_reversion_strategy]), the accounting of [backtest_strategy] and
    the [objective] closure of [optimize_parameters].

    Numbers.  A float64 cell is modelled by the value it denotes: [NaN],
    one of the two infinities, or an exact rational.  Rounding, overflow
    and the sign of zero are not modelled; NaN propagation, division by
    zero and comparisons against NaN are.  A statement that would not
    survive rounding or overflow is made under [in_range] (no operation of
    the objective leaves the float64 range) or [exact_closes] (every
    operation of the backtest is exact in float64).  The square root used
    by the rolling standard deviation is a parameter of the development.

    Tables.  A pandas Series is the list of its cells in index order; two
    Series of frames built over the same index are combined position by
    position.  A DataFrame is a record of the columns the program reads
    or writes.

    Objects.  The functions are given twice: as functions on values, and
    (module [Heap]) as the statements of the source running on a store of
    DataFrame objects.  [objective_run] relates the two. *)

From Stdlib Require Import QArith Qcanon ZArith Lia Lqa String Sorted.
From stdpp Require Import base numbers list.

Local Open Scope Qc_scope.

(** ** Float cells *)

Inductive float : Type :=
  | NaN
  | PInf
  | NInf
  | Fin (q : Qc).

Global Instance float_eq_dec : EqDecision float.
Proof. solve_decision. Defined.

Global Instance Qc_inhabited : Inhabited Qc := populate 0.

Definition of_Z (z : Z) : float := Fin (Qc_of_Z z).

Definition Qc_ltb (a b : Qc) : bool :=
  match a ?= b with Lt => true | _ => false end.

Definition Qc_leb (a b : Qc) : bool :=
  match a ?= b with Gt => false | _ => true end.

Definition Qc_eqb (a b : Qc) : bool :=
  match a ?= b with Eq => true | _ => false end.

Definition fneg (x : float) : float :=
  match x with
  | NaN => NaN
  | PInf => NInf
  | NInf => PInf
  | Fin a => Fin (- a)
  end.

Definition fadd (x y : float) : float :=
  match x, y with
  | NaN, _ | _, NaN => NaN
  | PInf, NInf | NInf, PInf => NaN
  | PInf, _ | _, PInf => PInf
  | NInf, _ | _, NInf => NInf
  | Fin a, Fin b => Fin (a + b)
  end.

Definition fsub (x y : float) : float := fadd x (fneg y).

(** Infinity carrying the sign of the rational [a]; [inf * 0] is NaN. *)
Definition inf_signed (a : Qc) (pos : float) : float :=
  match a ?= 0 with
  | Eq => NaN
  | Gt => pos
  | Lt => fneg pos
  end.

Definition fmul (x y : float) : float :=
  match x, y with
  | NaN, _ | _, NaN => NaN
  | Fin a, Fin b => Fin (a * b)
  | Fin a, PInf | PInf, Fin a => inf_signed a PInf
  | Fin a, NInf | NInf, Fin a => inf_signed a NInf
  | PInf, PInf | NInf, NInf => PInf
  | PInf, NInf | NInf, PInf => NInf
  end.

(** Division as numpy performs it on float64: no exception, [0/0] and
    [inf/inf] are NaN, [a/0] is an infinity with the sign of [a] (every
    divisor of the program is a count, the literal 3 or a square root, so a
    zero divisor is the positive zero). *)
Definition fdiv (x y : float) : float :=
  match x, y with
  | NaN, _ | _, NaN => NaN
  | Fin a, Fin b =>
      if Qc_eqb b 0 then inf_signed a PInf else Fin (a / b)
  | Fin _, (PInf | NInf) => Fin 0
  | PInf, Fin b => if Qc_ltb b 0 then NInf else PInf
  | NInf, Fin b => if Qc_ltb b 0 then PInf else NInf
  | (PInf | NInf), (PInf | NInf) => NaN
  end.

(** Comparisons: any comparison with NaN is false. *)
Definition flt (x y : float) : bool :=
  match x, y with
  | NaN, _ | _, NaN => false
  | Fin a, Fin b => Qc_ltb a b
  | NInf, (Fin _ | PInf) => true
  | Fin _, PInf => true
  | _, _ => false
  end.

Definition fle (x y : float) : bool :=
  match x, y with
  | NaN, _ | _, NaN => false
  | Fin a, Fin b => Qc_leb a b
  | NInf, _ => true
  | _, PInf => true
  | _, _ => false
  end.

Definition fgt (x y : float) : bool := flt y x.

Definition isna (x : float) : bool :=
  match x with NaN => true | _ => false end.

Definition isinf (x : float) : bool :=
  match x with PInf | NInf => true | _ => false end.

Definition isfinite (x : float) : bool :=
  match x with Fin _ => true | _ => false end.

(** ** Exceptions *)

Inductive exn : Type :=
  | ValueError
  | OverflowError
  | IndexError
  | KeyError.

Inductive result (A : Type) : Type :=
  | Ok (a : A)
  | Raise (e : exn).
Arguments Ok {A} a.
Arguments Raise {A} e.

Global Instance exn_eq_dec : EqDecision exn.
Proof. solve_decision. Defined.

Global Instance result_eq_dec {A} `{EqDecision A} : EqDecision (result A).
Proof. solve_decision. Defined.

Global Instance result_ret : MRet result := λ A a, Ok a.

Global Instance result_bind : MBind result := λ A B k m,
  match m with
  | Ok a => k a
  | Raise e => Raise e
  end.

(** Python's [int(x)] on a float: truncation toward zero; NaN and the
    infinities raise. *)
Definition int (x : float) : result Z :=
  match x with
  | NaN => Raise ValueError
  | PInf | NInf => Raise OverflowError
  | Fin q => Ok (Z.quot (Qnum q) (Zpos (Qden q)))
  end.

(** ** Series *)

Abbreviation Series := (list float).

Definition full (n : nat) (v : float) : Series := replicate n v.

Definition s_add (a b : Series) : Series := zip_with fadd a b.
Definition s_sub (a b : Series) : Series := zip_with fsub a b.
Definition s_mul (a b : Series) : Series := zip_with fmul a b.
Definition s_div (a b : Series) : Series := zip_with fdiv a b.

Definition s_scale (a : Series) (k : float) : Series := (λ x, fmul x k) <$> a.
Definition s_rsub (k : float) (a : Series) : Series := (λ x, fsub k x) <$> a.
Definition s_divk (a : Series) (k : float) : Series := (λ x, fdiv x k) <$> a.

Definition s_gt (a b : Series) : list bool := zip_with fgt a b.
Definition s_le (a b : Series) : list bool := zip_with fle a b.
Definition s_gtk (a : Series) (k : float) : list bool := (λ x, fgt x k) <$> a.
Definition s_ltk (a : Series) (k : float) : list bool := (λ x, flt x k) <$> a.

Definition fillna (v : float) (a : Series) : Series :=
  (λ x, if isna x then v else x) <$> a.

(** One cell of [fillna(0.0)]. *)
Definition fill0 (x : float) : float := if isna x then Fin 0 else x.

(** [Series.shift(periods)]: cells move [periods] places down (up when
    negative); vacated cells are NaN and the length is kept. *)
Definition shift (periods : Z) (a : Series) : Series :=
  let n := length a in
  if (0 <=? periods)%Z then
    let k := Z.to_nat periods `min` n in
    replicate k NaN ++ take (n - k) a
  else
    let k := Z.to_nat (- periods) `min` n in
    drop k a ++ replicate k NaN.

(** [Series.diff()] is [s - s.shift(1)]. *)
Definition diff (a : Series) : Series := s_sub a (shift 1 a).

(** [Series.cumsum()] with the default [skipna=True]: NaN cells are
    counted as 0 in the running sum and stay NaN in the output. *)
Fixpoint cumsum_from (acc : float) (a : Series) : Series :=
  match a with
  | [] => []
  | x :: a' =>
      let acc' := fadd acc (if isna x then Fin 0 else x) in
      (if isna x then NaN else acc') :: cumsum_from acc' a'
  end.

Definition cumsum (a : Series) : Series := cumsum_from (Fin 0) a.

(** [np.where(cond, x, y)] on arrays of equal length. *)
Definition np_where (cond : list bool) (x y : Series) : Series :=
  zip_with (λ (c : bool) (xy : float * float), if c then xy.1 else xy.2)
           cond (zip x y).

(** [frame.loc[mask, col] = v]. *)
Definition loc_set (mask : list bool) (v : float) (col : Series) : Series :=
  zip_with (λ (m : bool) x, if m then v else x) mask col.

(** [s.iloc[-1]]. *)
Definition iloc_last (a : Series) : result float :=
  match last a with
  | Some x => Ok x
  | None => Raise IndexError
  end.

(** ** Rolling windows *)

Record Rolling : Type := mkRolling {
  roll_obj : Series;
  roll_window : nat;
  roll_min_periods : nat
}.

(** [Series.rolling(window, min_periods)]: the arguments are validated when
    the window object is built; [min_periods] defaults to the window. *)
Definition rolling (a : Series) (window : Z) (min_periods : option Z)
  : result Rolling :=
  if (window <? 0)%Z then Raise ValueError
  else match min_periods with
       | None => Ok (mkRolling a (Z.to_nat window) (Z.to_nat window))
       | Some m =>
           if (m <? 0)%Z then Raise ValueError
           else if (window <? m)%Z then Raise ValueError
           else Ok (mkRolling a (Z.to_nat window) (Z.to_nat m))
       end.

(** The observations of the window that ends at row [t]: the last
    [window] cells up to [t], without NaN; infinities are turned into NaN
    before the aggregation and so are dropped as well. *)
Definition observations (r : Rolling) (t : nat) : list Qc :=
  omap (λ x, match x with Fin q => Some q | _ => None end)
       (drop (S t - roll_window r) (take (S t) (roll_obj r))).

Definition Qc_sum (l : list Qc) : Qc := foldr Qcplus 0 l.

Definition Qc_of_nat (n : nat) : Qc := Qc_of_Z (Z.of_nat n).

Definition Qc_mean (l : list Qc) : Qc := Qc_sum l / Qc_of_nat (length l).

Definition roll_mean (r : Rolling) : Series :=
  (λ t, let obs := observations r t in
        if bool_decide (roll_min_periods r ≤ length obs ∧ 0 < length obs)%nat
        then Fin (Qc_mean obs) else NaN)
  <$> seq 0 (length (roll_obj r)).

(** Sample variance ([ddof = 1]) of the observations. *)
Definition Qc_var (l : list Qc) : Qc :=
  let m := Qc_mean l in
  Qc_sum ((λ x, (x - m) * (x - m)) <$> l) / Qc_of_nat (length l - 1).

Section Sqrt.

(** The square root of a non-negative rational, as far as the cell type can
    hold it. *)
Variable sqrt : Qc → Qc.

(** pandas clips a negative variance to 0 before taking the root. *)
Definition zsqrt (v : Qc) : Qc :=
  if Qc_ltb v 0 then 0 else sqrt v.

Definition roll_std (r : Rolling) : Series :=
  (λ t, let obs := observations r t in
        if bool_decide (roll_min_periods r ≤ length obs ∧ 1 < length obs)%nat
        then Fin (zsqrt (Qc_var obs)) else NaN)
  <$> seq 0 (length (roll_obj r)).

(** ** Frames *)

(** The downloaded price table; only its [Close] column is read. *)
Record PriceFrame : Type := mkPriceFrame {
  Close : Series
}.

(** The frame a strategy returns: [price], the strategy's own indicator
    columns by name, [signal] and [positions]. *)
Record SignalFrame : Type := mkSignalFrame {
  price : Series;
  indicators : list (string * Series);
  signal : Series;
  positions : Series
}.

Record Portfolio : Type := mkPortfolio {
  holdings : Series;
  cash : Series;
  total : Series
}.

Record ParameterVector : Type := mkParams {
  short_window : float;
  long_window : float;
  momentum_window : float;
  mean_window : float
}.

(** ** Strategies *)

Definition moving_average_strategy (data : PriceFrame)
    (short_window long_window : Z) : result SignalFrame :=
  let n := length (Close data) in
  let price := Close data in
  rs ← rolling (Close data) short_window (Some 1%Z);
  let short_mavg := roll_mean rs in
  rl ← rolling (Close data) long_window (Some 1%Z);
  let long_mavg := roll_mean rl in
  let signal := full n (Fin 0) in
  let signal := loc_set (s_gt short_mavg long_mavg) (Fin 1) signal in
  let signal := loc_set (s_le short_mavg long_mavg) (Fin 0) signal in
  let positions := fillna (Fin 0) (diff signal) in
  mret {| price := price;
          indicators := [("short_mavg", short_mavg); ("long_mavg", long_mavg)]%string;
          signal := signal;
          positions := positions |}.

Definition momentum_strategy (data : PriceFrame) (window : Z) : SignalFrame :=
  let n := length (Close data) in
  let price := Close data in
  let momentum := s_sub (Close data) (shift window (Close data)) in
  let signal := np_where (s_gtk momentum (Fin 0)) (full n (Fin 1)) (full n (Fin 0)) in
  let positions := fillna (Fin 0) (diff signal) in
  {| price := price;
     indicators := [("momentum", momentum)]%string;
     signal := signal;
     positions := positions |}.

Definition mean_reversion_strategy (data : PriceFrame) (window : Z)
  : result SignalFrame :=
  let n := length (Close data) in
  let price := Close data in
  rm ← rolling (Close data) window None;
  let mean := roll_mean rm in
  rd ← rolling (Close data) window None;
  let std := roll_std rd in
  let z_score := s_div (s_sub price mean) std in
  let signal :=
    np_where (s_ltk z_score (Fin (-1))) (full n (Fin 1))
             (np_where (s_gtk z_score (Fin 1)) (full n (Fin (-1))) (full n (Fin 0))) in
  let positions := fillna (Fin 0) (diff signal) in
  mret {| price := price;
          indicators := [("mean", mean); ("std", std); ("z_score", z_score)]%string;
          signal := signal;
          positions := positions |}.

(** ** Backtest *)

Definition initial_capital : float := of_Z 10000.

Definition backtest_strategy (data : PriceFrame) (signals : SignalFrame)
  : Portfolio :=
  let crypto := s_scale (signal signals) (of_Z 1000) in
  let holdings := fillna (Fin 0) (s_mul crypto (Close data)) in
  let cash :=
    s_rsub initial_capital
      (fillna (Fin 0) (cumsum (s_mul (fillna (Fin 0) (diff crypto)) (Close data)))) in
  let total := s_add cash holdings in
  {| holdings := holdings; cash := cash; total := total |}.

(** ** Optimizer objective *)

Definition objective (data : PriceFrame) (params : ParameterVector)
  : result float :=
  sw ← int (short_window params);
  lw ← int (long_window params);
  signals_ma ← moving_average_strategy data sw lw;
  mw ← int (momentum_window params);
  let signals_mo := momentum_strategy data mw in
  rw ← int (mean_window params);
  signals_mr ← mean_reversion_strategy data rw;
  let portfolio_ma := backtest_strategy data signals_ma in
  let portfolio_mo := backtest_strategy data signals_mo in
  let portfolio_mr := backtest_strategy data signals_mr in
  let combined_portfolio :=
    s_divk (s_add (s_add (total portfolio_ma) (total portfolio_mo))
                  (total portfolio_mr)) (of_Z 3) in
  x ← iloc_last combined_portfolio;
  mret (fneg x).

(** The average equity column of the three portfolios, as the objective
    forms it from the three returned frames. *)
Definition combined (data : PriceFrame) (signals_ma signals_mo signals_mr : SignalFrame)
  : Series :=
  s_divk (s_add (s_add (total (backtest_strategy data signals_ma))
                       (total (backtest_strategy data signals_mo)))
                (total (backtest_strategy data signals_mr))) (of_Z 3).

End Sqrt.

(** A computable root for running the model: [sqrt (n/d)] as
    [floor (sqrt (n*d)) / d], exact on squares of rationals. *)
Definition Qc_sqrt_floor (q : Qc) : Qc :=
  Q2Qc (Z.sqrt (Qnum q * Zpos (Qden q)) # Qden q).

Definition series_of_Z (l : list Z) : Series := of_Z <$> l.

(** The truncated windows of a parameter vector, in the order the objective
    converts them. *)
Definition windows (params : ParameterVector) : result (Z * Z * Z * Z) :=
  sw ← int (short_window params);
  lw ← int (long_window params);
  mw ← int (momentum_window params);
  rw ← int (mean_window params);
  mret (sw, lw, mw, rw).

(** The starting point handed to [minimize]. *)
Definition x0 : ParameterVector :=
  mkParams (of_Z 30) (of_Z 90) (of_Z 20) (of_Z 30).

(** ** Vocabulary of the specification *)

(** A cell that holds a number. *)
Definition is_number (x : float) : Prop := ∃ q, x = Fin q.

(** A close is a number or missing, never an infinity. *)
Definition quoted (x : float) : Prop := isinf x = false.

(** Position in units of the asset at bar [k], for a numeric signal
    column [s]. *)
Definition position_at (s : list Qc) (k : nat) : Qc :=
  (s !!! k) * Qc_of_Z 1000.

(** Change of position at bar [k], where [before] stands for the position
    held before the first bar. *)
Definition position_change (before : Qc) (s : list Qc) (k : nat) : Qc :=
  position_at s k - match k with O => before | S j => position_at s j end.

(** The closed form of the cash column: initial capital minus the cost of
    every position change up to bar [t], each at the price of its bar. *)
Definition closed_form_cash (before : Qc) (s p : list Qc) (t : nat) : Qc :=
  Qc_of_Z 10000
  - Qc_sum ((λ k, position_change before s k * (p !!! k)) <$> seq 0 (S t)).

(** Some truncated window is at least as long as the series. *)
Definition window_exceeds (data : PriceFrame) (params : ParameterVector)
  : Prop :=
  ∃ sw lw mw rw, windows params = Ok (sw, lw, mw, rw) ∧
    let n := Z.of_nat (length (Close data)) in
    (n ≤ sw ∨ n ≤ lw ∨ n ≤ mw ∨ n ≤ rw)%Z.

(** The four components convert to integers and [rolling] accepts the
    windows it is given: at least [min_periods = 1] for the two moving
    averages, not negative for the mean reversion; [shift] takes any
    integer. *)
Definition windows_accepted (params : ParameterVector) : Prop :=
  ∃ sw lw mw rw, windows params = Ok (sw, lw, mw, rw) ∧
    (1 ≤ sw ∧ 1 ≤ lw ∧ 0 ≤ rw)%Z.

(** An evaluation is penalised when its value is a number and is not a
    minimum of the objective: some other trial point scores strictly
    lower. *)
Definition penalised (obj : ParameterVector → result float)
    (params : ParameterVector) : Prop :=
  ∃ v, obj params = Ok (Fin v) ∧
       ∃ params' v', obj params' = Ok (Fin v') ∧ v' < v.

(** The largest finite float64, [(2^53 - 1) * 2^971]. *)
Definition float64_max : Qc := Qc_of_Z ((2 ^ 53 - 1) * 2 ^ 971).

(** A cell that holds a number of magnitude at most [B]. *)
Definition within (B : Qc) (x : float) : Prop :=
  ∃ q, x = Fin q ∧ - B ≤ q ∧ q ≤ B.

(** A cell that holds a number of the float64 range. *)
Definition finite64 (x : float) : Prop := within float64_max x.

(** What an equity cell can reach on [n] bars whose closes have magnitude
    at most [M]: the initial capital, one position change of at most 2000
    units per bar, and a holding of at most 1000 units. *)
Definition equity_bound (M : Qc) (n : nat) : Qc :=
  Qc_of_Z 10000 + Qc_of_Z 2000 * M * Qc_of_nat n + Qc_of_Z 1000 * M.

(** Closes on which no operation of the objective leaves the float64
    range: each close is missing or a number of magnitude at most [M], and
    four times the equity bound fits below the largest float64.  The
    largest value the objective forms is the sum of three equity cells; the
    fourth share is room for the rounding of the running sums. *)
Definition in_range (M : Qc) (data : PriceFrame) : Prop :=
  0 ≤ M ∧
  Forall (λ x, within M x ∨ x = NaN) (Close data) ∧
  Qc_of_Z 4 * equity_bound M (length (Close data)) ≤ float64_max.

(** A cell that holds an integer. *)
Definition integer (x : float) : Prop := ∃ z, x = of_Z z.

(** Integer closes on which the float64 arithmetic of the backtest is
    exact: every close has magnitude at most [K], and the equity bound for
    [K] is at most [2^53], so that every product, difference and running
    sum the backtest forms is an integer that float64 holds exactly. *)
Definition exact_closes (K : Z) (p : list Z) : Prop :=
  Forall (λ z, - K ≤ z ≤ K)%Z p ∧
  (10000 + 2000 * K * Z.of_nat (length p) + 1000 * K ≤ 2 ^ 53)%Z.

(** A strategy frame starts flat: no signal and no trade at the first bar,
    and the backtest opens at the initial capital. *)
Definition starts_flat (data : PriceFrame) (sf : SignalFrame) : Prop :=
  signal sf !! 0%nat = Some (Fin 0) ∧
  positions sf !! 0%nat = Some (Fin 0) ∧
  total (backtest_strategy data sf) !! 0%nat = Some initial_capital.

(** ** Sample inputs *)

Definition rising10 : PriceFrame :=
  mkPriceFrame (series_of_Z [100;101;102;103;104;105;106;107;108;109]%Z).

Definition flat (n : nat) : PriceFrame :=
  mkPriceFrame (replicate n (of_Z 100)).

Definition up_down3 : PriceFrame :=
  mkPriceFrame (series_of_Z [100;101;90]%Z).

Definition one_bar : PriceFrame := mkPriceFrame [of_Z 100].

(** A price table with its [Close] column and no row. *)
Definition no_bars : PriceFrame := mkPriceFrame [].

(** A trial point whose short window truncates to 0. *)
Definition half_window : ParameterVector :=
  mkParams (Fin (Q2Qc (1 # 2))) (of_Z 90) (of_Z 20) (of_Z 30).

(** A frame that is long from the first bar on. *)
Definition long_from_start : SignalFrame :=
  {| price := [of_Z 100]; indicators := [];
     signal := [Fin 1]; positions := [Fin 0] |}.

(** ** Columns of the frames the strategies return

    The [signal] column of each strategy as a function of the close column
    and the window, for windows the rolling constructor accepts. *)

Definition ma_signal (close : Series) (sw lw : Z) : Series :=
  let short_mavg := roll_mean (mkRolling close (Z.to_nat sw) 1) in
  let long_mavg := roll_mean (mkRolling close (Z.to_nat lw) 1) in
  loc_set (s_le short_mavg long_mavg) (Fin 0)
    (loc_set (s_gt short_mavg long_mavg) (Fin 1) (full (length close) (Fin 0))).

Definition mr_std (sqrt : Qc → Qc) (close : Series) (w : Z) : Series :=
  roll_std sqrt (mkRolling close (Z.to_nat w) (Z.to_nat w)).

Definition mr_z_score (sqrt : Qc → Qc) (close : Series) (w : Z) : Series :=
  s_div (s_sub close (roll_mean (mkRolling close (Z.to_nat w) (Z.to_nat w))))
        (mr_std sqrt close w).

Definition mr_signal (sqrt : Qc → Qc) (close : Series) (w : Z) : Series :=
  let n := length close in
  let z_score := mr_z_score sqrt close w in
  np_where (s_ltk z_score (Fin (-1))) (full n (Fin 1))
    (np_where (s_gtk z_score (Fin 1)) (full n (Fin (-1))) (full n (Fin 0))).

(** ** The search box *)

(** The [bounds] handed to [minimize], one interval per parameter. *)
Definition bounds : list (float * float) :=
  [(of_Z 20, of_Z 50); (of_Z 50, of_Z 200); (of_Z 10, of_Z 30);
   (of_Z 20, of_Z 60)].

Definition components (x : ParameterVector) : list float :=
  [short_window x; long_window x; momentum_window x; mean_window x].

(** A point of the box: every component lies in its interval. *)
Definition in_bounds (x : ParameterVector) : bool :=
  forallb (λ vb : float * (float * float),
             fle vb.2.1 vb.1 && fle vb.1 vb.2.2)
          (zip (components x) bounds).

(** ** Fetching, optimizing and the entry point

    [yf.download], [scipy.optimize.minimize] and matplotlib are outside the
    program; the first two are parameters, the plot is recorded as the call
    it receives. *)

(** What [yf.download] does with a request: it returns a frame, or raises
    an [Exception] whose text is [msg] (an interrupt or [SystemExit], which
    [except Exception] lets through, is not modelled). *)
Inductive download_outcome : Type :=
  | Downloaded (data : PriceFrame)
  | DownloadError (msg : string).

Definition Downloader : Type :=
  string → string → string → string → download_outcome.

(** [minimize(fun, x0, bounds=...)]: the point it returns ([result.x]), or
    the exception that escapes from it. *)
Definition Minimizer : Type :=
  (ParameterVector → result float) → ParameterVector →
  list (float * float) → result ParameterVector.

(** [DataFrame.empty]: no rows. *)
Definition empty (data : PriceFrame) : bool :=
  match Close data with
  | [] => true
  | _ :: _ => false
  end.

(** [pd.DataFrame()], the frame [get_crypto_data] returns after an error.
    The object has no column at all; it is stood for by a frame without
    rows because the program reads nothing but [.empty] from it: [main]
    hands no empty frame to the strategies. *)
Definition pd_DataFrame : PriceFrame := mkPriceFrame [].

(** What the program writes to standard output; the line with the optimal
    parameters is kept as the vector it formats. *)
Inductive printed : Type :=
  | Text (line : string)
  | OptimalParameters (x : ParameterVector).

Definition get_crypto_data (yf_download : Downloader)
    (ticker start_date end_date interval : string)
  : PriceFrame * list printed :=
  let attempt : string + PriceFrame :=
    match yf_download ticker start_date end_date interval with
    | Downloaded data =>
        if empty data then inl "No data returned from Yahoo Finance."%string
        else inr data
    | DownloadError msg => inl msg
    end in
  match attempt with
  | inr data => (data, [])
  | inl e => (pd_DataFrame, [Text ("Error fetching data: " ++ e)%string])
  end.

Definition optimize_parameters (sqrt : Qc → Qc) (minimize : Minimizer)
    (data : PriceFrame) : result ParameterVector :=
  minimize (objective sqrt data) x0 bounds.

(** The arguments of the call to [plot_results]. *)
Record PlotCall : Type := mkPlotCall {
  plot_data : PriceFrame;
  plot_signals_ma : SignalFrame;
  plot_signals_mo : SignalFrame;
  plot_signals_mr : SignalFrame;
  plot_portfolio_ma : Portfolio;
  plot_portfolio_mo : Portfolio;
  plot_portfolio_mr : Portfolio
}.

(** The entry point: what was printed, and how the run ended: with the call
    to [plot_results], without one, or with an uncaught exception. *)
Definition main (sqrt : Qc → Qc) (yf_download : Downloader)
    (minimize : Minimizer) : list printed * result (option PlotCall) :=
  let ticker := "BTC-USD"%string in
  let start_date := "2023-01-01"%string in
  let end_date := "2024-01-01"%string in
  let '(data, out) :=
    get_crypto_data yf_download ticker start_date end_date "1h" in
  if empty data then
    (out ++ [Text ("No data available for " ++ ticker ++ " between "
                   ++ start_date ++ " and " ++ end_date ++ ".")%string],
     Ok None)
  else
    match optimize_parameters sqrt minimize data with
    | Raise e => (out, Raise e)
    | Ok optimal_params =>
        let out := out ++ [OptimalParameters optimal_params] in
        (out,
         sw ← int (short_window optimal_params);
         lw ← int (long_window optimal_params);
         signals_ma ← moving_average_strategy data sw lw;
         mw ← int (momentum_window optimal_params);
         let signals_mo := momentum_strategy data mw in
         rw ← int (mean_window optimal_params);
         signals_mr ← mean_reversion_strategy sqrt data rw;
         let portfolio_ma := backtest_strategy data signals_ma in
         let portfolio_mo := backtest_strategy data signals_mo in
         let portfolio_mr := backtest_strategy data signals_mr in
         let combined_portfolio :=
           combined data signals_ma signals_mo signals_mr in
         mret (Some (mkPlotCall data signals_ma signals_mo signals_mr
                       portfolio_ma portfolio_mo portfolio_mr)))
    end.

(** A component whose integer part is [z]: a number in [[z, z+1)]. *)
Definition in_cell (v : float) (z : Z) : Prop :=
  ∃ q, v = Fin q ∧ Qc_of_Z z ≤ q ∧ q < Qc_of_Z (z + 1).

(** ** Further sample inputs *)

(** A downloader that fails, one that finds nothing, one that returns the
    three bars 100, 101, 90. *)
Definition download_fails : Downloader :=
  λ _ _ _ _, DownloadError "timeout".

Definition download_nothing : Downloader :=
  λ _ _ _ _, Downloaded no_bars.

Definition download_up_down3 : Downloader :=
  λ _ _ _ _, Downloaded up_down3.

(** A minimizer that evaluates the start point once and returns it. *)
Definition minimize_stays : Minimizer :=
  λ f x _, _ ← f x; mret x.

Definition numeric_bars : list Qc := [Qc_of_Z 100; Qc_of_Z 101; Qc_of_Z 90].

Definition falling_bars : list Qc := [Qc_of_Z 90; Qc_of_Z 90; Qc_of_Z 80].

Definition falling3 : PriceFrame := mkPriceFrame (Fin <$> falling_bars).

(** ** The program on a store of objects

    The functions above give what each function of [main.py] returns as a
    function of the values it reads.  Below, the same functions are written
    as the statements they are: a DataFrame is an object in a store, a
    variable holds a reference, [frame[name] = value] and
    [frame.loc[mask, name] = value] update the object in place, and every
    [pd.DataFrame(...)] allocates.  A Series that is read from a frame or
    computed from other Series is a value: the program never writes into
    one.  An object is modelled by its index and its columns, which is all
    the program observes of it. *)

Record DataFrame : Type := mkDataFrame {
  index : nat;
  columns : list (string * Series)
}.

Fixpoint column (name : string) (cols : list (string * Series))
  : option Series :=
  match cols with
  | [] => None
  | (k, v) :: cols' => if String.eqb k name then Some v else column name cols'
  end.

Fixpoint set_column (name : string) (v : Series) (cols : list (string * Series))
  : list (string * Series) :=
  match cols with
  | [] => [(name, v)]
  | (k, w) :: cols' =>
      if String.eqb k name then (k, v) :: cols'
      else (k, w) :: set_column name v cols'
  end.

(** A reference is the address of an object in the store; objects are
    never freed. *)
Definition ref : Type := nat.
Definition store : Type := list DataFrame.

(** A statement or expression: it runs on a store, ends with a value or an
    exception, and leaves a store. *)
Definition prog (A : Type) : Type := store → result A * store.

Global Instance prog_ret : MRet prog := λ A a σ, (Ok a, σ).

Global Instance prog_bind : MBind prog := λ A B k m σ,
  match m σ with
  | (Ok a, σ') => k a σ'
  | (Raise e, σ') => (Raise e, σ')
  end.

(** A computation on values, which leaves the store alone. *)
Definition lift {A} (r : result A) : prog A := λ σ, (r, σ).

Global Instance DataFrame_inhabited : Inhabited DataFrame :=
  populate (mkDataFrame 0 []).

Module Heap.

(** The object a reference names (a reference always names one). *)
Definition deref (r : ref) : prog DataFrame := λ σ, (Ok (σ !!! r), σ).

Definition new (fr : DataFrame) : prog ref := λ σ, (Ok (length σ), σ ++ [fr]).

Definition assign (r : ref) (fr : DataFrame) : prog () := λ σ,
  (Ok (), <[r := fr]> σ).

(** [pd.DataFrame(index=frame.index)] *)
Definition DataFrame_on_index (frame : ref) : prog ref :=
  fr ← deref frame;
  new (mkDataFrame (index fr) []).

(** [frame[name]] *)
Definition getitem (frame : ref) (name : string) : prog Series :=
  fr ← deref frame;
  match column name (columns fr) with
  | Some c => mret c
  | None => lift (Raise KeyError)
  end.

(** [frame[name] = value] *)
Definition setitem (frame : ref) (name : string) (value : Series) : prog () :=
  fr ← deref frame;
  assign frame (mkDataFrame (index fr) (set_column name value (columns fr))).

(** [frame[name] = scalar] *)
Definition setitem_scalar (frame : ref) (name : string) (value : float)
  : prog () :=
  fr ← deref frame;
  assign frame
    (mkDataFrame (index fr) (set_column name (full (index fr) value) (columns fr))).

(** [frame.loc[mask, name] = value] *)
Definition loc_setitem (frame : ref) (mask : list bool) (name : string)
    (value : float) : prog () :=
  fr ← deref frame;
  let col := default (full (index fr) NaN) (column name (columns fr)) in
  assign frame
    (mkDataFrame (index fr) (set_column name (loc_set mask value col) (columns fr))).

(** [frame.fillna(value)] *)
Definition frame_fillna (frame : ref) (value : float) : prog ref :=
  fr ← deref frame;
  new (mkDataFrame (index fr)
         (prod_map id (fillna value) <$> columns fr)).

(** [np.where(cond, x, y)] with a scalar [x]. *)
Definition np_where_scalar (cond : list bool) (x : float) (y : Series) : Series :=
  np_where cond (full (length cond) x) y.

Section Sqrt.

Variable sqrt : Qc → Qc.

Definition moving_average_strategy (data : ref) (short_window long_window : Z)
  : prog ref :=
  signals ← DataFrame_on_index data;
  close ← getitem data "Close";
  setitem signals "price" close;;
  close ← getitem data "Close";
  rs ← lift (rolling close short_window (Some 1%Z));
  setitem signals "short_mavg" (roll_mean rs);;
  close ← getitem data "Close";
  rl ← lift (rolling close long_window (Some 1%Z));
  setitem signals "long_mavg" (roll_mean rl);;
  setitem_scalar signals "signal" (Fin 0);;
  short_mavg ← getitem signals "short_mavg";
  long_mavg ← getitem signals "long_mavg";
  loc_setitem signals (s_gt short_mavg long_mavg) "signal" (Fin 1);;
  short_mavg ← getitem signals "short_mavg";
  long_mavg ← getitem signals "long_mavg";
  loc_setitem signals (s_le short_mavg long_mavg) "signal" (Fin 0);;
  signal ← getitem signals "signal";
  setitem signals "positions" (fillna (Fin 0) (diff signal));;
  mret signals.

Definition momentum_strategy (data : ref) (window : Z) : prog ref :=
  signals ← DataFrame_on_index data;
  close ← getitem data "Close";
  setitem signals "price" close;;
  close ← getitem data "Close";
  close' ← getitem data "Close";
  setitem signals "momentum" (s_sub close (shift window close'));;
  momentum ← getitem signals "momentum";
  let cond := s_gtk momentum (Fin 0) in
  setitem signals "signal"
    (np_where_scalar cond (Fin 1) (full (length cond) (Fin 0)));;
  signal ← getitem signals "signal";
  setitem signals "positions" (fillna (Fin 0) (diff signal));;
  mret signals.

Definition mean_reversion_strategy (data : ref) (window : Z) : prog ref :=
  signals ← DataFrame_on_index data;
  close ← getitem data "Close";
  setitem signals "price" close;;
  close ← getitem data "Close";
  rm ← lift (rolling close window None);
  setitem signals "mean" (roll_mean rm);;
  close ← getitem data "Close";
  rd ← lift (rolling close window None);
  setitem signals "std" (roll_std sqrt rd);;
  price ← getitem signals "price";
  mean ← getitem signals "mean";
  std ← getitem signals "std";
  setitem signals "z_score" (s_div (s_sub price mean) std);;
  z_score ← getitem signals "z_score";
  let below := s_ltk z_score (Fin (-1)) in
  z_score' ← getitem signals "z_score";
  let above := s_gtk z_score' (Fin 1) in
  setitem signals "signal"
    (np_where_scalar below (Fin 1)
       (np_where_scalar above (Fin (-1)) (full (length above) (Fin 0))));;
  signal ← getitem signals "signal";
  setitem signals "positions" (fillna (Fin 0) (diff signal));;
  mret signals.

Definition backtest_strategy (data signals : ref) : prog ref :=
  blank ← DataFrame_on_index signals;
  positions ← frame_fillna blank (Fin 0);
  signal ← getitem signals "signal";
  setitem positions "crypto" (s_scale signal (of_Z 1000));;
  portfolio ← DataFrame_on_index signals;
  crypto ← getitem positions "crypto";
  close ← getitem data "Close";
  setitem portfolio "holdings" (fillna (Fin 0) (s_mul crypto close));;
  crypto ← getitem positions "crypto";
  close ← getitem data "Close";
  setitem portfolio "cash"
    (s_rsub initial_capital
       (fillna (Fin 0) (cumsum (s_mul (fillna (Fin 0) (diff crypto)) close))));;
  cash ← getitem portfolio "cash";
  holdings ← getitem portfolio "holdings";
  setitem portfolio "total" (s_add cash holdings);;
  mret portfolio.

Definition objective (data : ref) (params : ParameterVector) : prog float :=
  sw ← lift (int (short_window params));
  lw ← lift (int (long_window params));
  signals_ma ← moving_average_strategy data sw lw;
  mw ← lift (int (momentum_window params));
  signals_mo ← momentum_strategy data mw;
  rw ← lift (int (mean_window params));
  signals_mr ← mean_reversion_strategy data rw;
  portfolio_ma ← backtest_strategy data signals_ma;
  portfolio_mo ← backtest_strategy data signals_mo;
  portfolio_mr ← backtest_strategy data signals_mr;
  total_ma ← getitem portfolio_ma "total";
  total_mo ← getitem portfolio_mo "total";
  total_mr ← getitem portfolio_mr "total";
  let combined_portfolio :=
    s_divk (s_add (s_add total_ma total_mo) total_mr) (of_Z 3) in
  x ← lift (iloc_last combined_portfolio);
  mret (fneg x).

(** The minimizer calls the closure once per trial point, each call on the
    store the previous call left. *)
Fixpoint evaluations (data : ref) (trial : list ParameterVector) (σ : store)
  : list (result float) * store :=
  match trial with
  | [] => ([], σ)
  | p :: trial' =>
      let '(r, σ') := objective data p σ in
      let '(rs, σ'') := evaluations data trial' σ' in
      (r :: rs, σ'')
  end.

End Sqrt.

End Heap.

(** The object named [data] is a price table whose [Close] column is [c],
    with one cell per row of its index. *)
Definition holds_prices (σ : store) (data : ref) (c : Series) : Prop :=
  ∃ fr, σ !! data = Some fr ∧ column "Close" (columns fr) = Some c ∧
        index fr = length c.

(** The object a strategy builds for the frame [sf] over [n] rows. *)
Definition signals_object (n : nat) (sf : SignalFrame) : DataFrame :=
  mkDataFrame n
    (("price"%string, price sf) :: indicators sf
     ++ [("signal"%string, signal sf); ("positions"%string, positions sf)]).

(** The object [backtest_strategy] builds for the portfolio [pf]. *)
Definition portfolio_object (n : nat) (pf : Portfolio) : DataFrame :=
  mkDataFrame n
    [("holdings"%string, holdings pf); ("cash"%string, cash pf);
     ("total"%string, total pf)].

(** A store that holds the three bars 100, 101, 90 at address 0. *)
Definition up_down3_store : store :=
  [mkDataFrame 3 [("Close"%string, Close up_down3)]].

(** * Properties *)

(** ** Rationals *)

Lemma Qc_compare_refl (a : Qc) : (a ?= a) = Eq.
Proof. by apply Qceq_alt. Qed.

Lemma Qc_ltb_irrefl a : Qc_ltb a a = false.
Proof. unfold Qc_ltb. by rewrite Qc_compare_refl. Qed.

Lemma Qc_leb_refl a : Qc_leb a a = true.
Proof. unfold Qc_leb. by rewrite Qc_compare_refl. Qed.

Lemma Qc_eqb_eq a b : Qc_eqb a b = true ↔ a = b.
Proof.
  unfold Qc_eqb. rewrite Qceq_alt. destruct (a ?= b); split; congruence.
Qed.

Lemma Qc_ltb_lt a b : Qc_ltb a b = true ↔ a < b.
Proof.
  unfold Qc_ltb. rewrite Qclt_alt. destruct (a ?= b); split; congruence.
Qed.

Lemma Qc_of_nat_S_ne_0 k : Qc_of_nat (S k) ≠ 0.
Proof.
  unfold Qc_of_nat. rewrite <- Z2Qc_inj_0. intros H%Z2Qc_inj. lia.
Qed.

Lemma Qc_of_nat_S k : Qc_of_nat (S k) = Qc_of_nat k + 1.
Proof.
  unfold Qc_of_nat. rewrite Nat2Z.inj_succ, <- Z.add_1_r, Z2Qc_inj_add.
  by rewrite Z2Qc_inj_1.
Qed.

Lemma Qc_sum_replicate k c : Qc_sum (replicate k c) = Qc_of_nat k * c.
Proof.
  induction k as [|k IH].
  - change (Qc_of_nat 0) with (Qc_of_Z 0). rewrite Z2Qc_inj_0. simpl. ring.
  - rewrite Qc_of_nat_S. simpl. rewrite IH. ring.
Qed.

Lemma Qc_mean_replicate k c : Qc_mean (replicate (S k) c) = c.
Proof.
  unfold Qc_mean. rewrite Qc_sum_replicate, length_replicate.
  field. apply Qc_of_nat_S_ne_0.
Qed.

Lemma Qc_sum_zero l : Forall (λ x, x = 0) l → Qc_sum l = 0.
Proof.
  induction 1 as [|x l -> _ IH]; simpl; [done|]. rewrite IH. ring.
Qed.

Lemma Qc_var_replicate k c : Qc_var (replicate (S k) c) = 0.
Proof.
  unfold Qc_var. rewrite Qc_mean_replicate, Qc_sum_zero.
  - unfold Qcdiv. ring.
  - apply Forall_fmap, Forall_replicate. simpl. ring.
Qed.

(** Inequalities between canonical rationals, decided on the underlying
    fractions. *)
Ltac qc_to_q :=
  unfold Qclt, Qcle, Qcminus, Qcdiv, Qcplus, Qcmult, Qcopp in *;
  cbn [this Q2Qc] in *; rewrite ?Qred_correct in *;
  change (this (Q2Qc 0)) with 0%Q in *;
  change (this (Q2Qc 1)) with 1%Q in *.

Ltac qc_arith :=
  unfold Qc_of_nat in *; qc_to_q; cbn [this Qc_of_Z] in *; first [lra | nra].

Lemma Qc_of_nat_nonneg k : 0 ≤ Qc_of_nat k.
Proof.
  unfold Qc_of_nat. rewrite <- Z2Qc_inj_0.
  apply (proj1 (Z2Qc_inj_le 0 (Z.of_nat k))). lia.
Qed.

Lemma Qc_of_nat_le (m n : nat) : (m ≤ n)%nat → Qc_of_nat m ≤ Qc_of_nat n.
Proof. intros H. unfold Qc_of_nat. apply (proj1 (Z2Qc_inj_le _ _)). lia. Qed.

Lemma Qc_mul_nonneg (a b : Qc) : 0 ≤ a → 0 ≤ b → 0 ≤ a * b.
Proof. intros Ha Hb. qc_arith. Qed.

Lemma Qc_mul_le_mono_nonneg (a b c : Qc) : 0 ≤ a → b ≤ c → a * b ≤ a * c.
Proof. intros Ha Hb. qc_arith. Qed.

(** ** Cells *)

Lemma flt_irrefl x : flt x x = false.
Proof. destruct x; simpl; auto using Qc_ltb_irrefl. Qed.

Lemma fsub_nan_r x : fsub x NaN = NaN.
Proof. by destruct x. Qed.

Lemma fdiv_nan_r x : fdiv x NaN = NaN.
Proof. by destruct x. Qed.

Lemma fill_fmul_0_l x :
  (if isna (fmul (Fin 0) x) then Fin 0 else fmul (Fin 0) x) = Fin 0.
Proof.
  destruct x; simpl; try done. f_equal. ring.
Qed.

Lemma fmul_0_l_cases x : fmul (Fin 0) x = Fin 0 ∨ fmul (Fin 0) x = NaN.
Proof.
  destruct x; simpl; auto. left. f_equal. ring.
Qed.

Lemma is_number_Fin q : is_number (Fin q).
Proof. by exists q. Qed.

Lemma is_number_quoted x : is_number x → quoted x.
Proof. by intros [q ->]. Qed.

Lemma fmul_number_quoted x y :
  is_number x → quoted y → is_number (fmul x y) ∨ fmul x y = NaN.
Proof.
  intros [a ->] Hy. destruct y; simpl; try done; eauto using is_number_Fin.
Qed.

(** ** Series: lengths *)

Lemma length_shift k a : length (shift k a) = length a.
Proof.
  unfold shift. destruct (0 <=? k)%Z;
    rewrite length_app, length_replicate, ?length_take, ?length_drop; lia.
Qed.

Lemma length_fillna v a : length (fillna v a) = length a.
Proof. apply length_fmap. Qed.

Lemma length_diff a : length (diff a) = length a.
Proof. unfold diff, s_sub. rewrite length_zip_with, length_shift. lia. Qed.

Lemma length_cumsum_from acc a : length (cumsum_from acc a) = length a.
Proof. revert acc. induction a as [|x a IH]; intros acc; simpl; auto. Qed.

Lemma length_cumsum a : length (cumsum a) = length a.
Proof. apply length_cumsum_from. Qed.

Lemma length_loc_set mask v col :
  length (loc_set mask v col) = length mask `min` length col.
Proof. apply length_zip_with. Qed.

Lemma length_np_where c x y :
  length (np_where c x y) = length c `min` (length x `min` length y).
Proof. unfold np_where. by rewrite length_zip_with, length_zip. Qed.

Lemma length_roll_mean r : length (roll_mean r) = length (roll_obj r).
Proof. unfold roll_mean. by rewrite length_fmap, length_seq. Qed.

Lemma length_roll_std sqrt r : length (roll_std sqrt r) = length (roll_obj r).
Proof. unfold roll_std. by rewrite length_fmap, length_seq. Qed.

Create Rewrite HintDb series.
Hint Rewrite length_shift length_fillna length_diff length_cumsum
  length_loc_set length_np_where length_roll_mean length_roll_std
  @length_zip_with @length_fmap @length_replicate @length_seq : series.

Ltac series_length :=
  unfold s_add, s_sub, s_mul, s_div, s_scale, s_rsub, s_divk,
         s_gt, s_le, s_gtk, s_ltk, full in *;
  autorewrite with series in *; cbn [roll_obj] in *;
  autorewrite with series in *; simpl in *; lia.

(** ** Series: cell-wise invariants *)

Lemma Forall_loc_set (P : float → Prop) mask v col :
  P v → Forall P col → Forall P (loc_set mask v col).
Proof.
  intros Hv Hcol. revert mask.
  induction Hcol as [|x col Hx _ IH]; intros [|m mask]; simpl;
    try constructor; auto.
  by destruct m.
Qed.

Lemma Forall_np_where (P : float → Prop) c x y :
  Forall P x → Forall P y → Forall P (np_where c x y).
Proof.
  revert x y. unfold np_where.
  induction c as [|b c IH]; intros x y Hx Hy; [constructor|].
  destruct Hx as [|a x Ha Hx]; [constructor|].
  destruct Hy as [|d y Hd Hy]; simpl; constructor.
  - by destruct b.
  - by apply IH.
Qed.

Lemma Forall_fillna (P : float → Prop) v a :
  P v → Forall (λ x, P x ∨ x = NaN) a → Forall P (fillna v a).
Proof.
  intros Hv Ha. apply Forall_fmap. eapply Forall_impl; [exact Ha|].
  intros x [Hx| ->]; simpl; [|done]. by destruct x.
Qed.

(** ** Rolling windows *)

Lemma rolling_min_periods_1 a w :
  rolling a w (Some 1%Z) =
  if (1 <=? w)%Z then Ok (mkRolling a (Z.to_nat w) 1) else Raise ValueError.
Proof.
  unfold rolling. destruct (Z.ltb_spec w 0), (Z.ltb_spec w 1), (Z.leb_spec 1 w);
    simpl; try lia; done.
Qed.

Lemma rolling_default a w :
  rolling a w None =
  if (0 <=? w)%Z then Ok (mkRolling a (Z.to_nat w) (Z.to_nat w))
  else Raise ValueError.
Proof.
  unfold rolling. destruct (Z.ltb_spec w 0), (Z.leb_spec 0 w); try lia; done.
Qed.

(** ** Strategies: the frames they return *)

Lemma moving_average_strategy_cases data sw lw :
  match moving_average_strategy data sw lw with
  | Ok sf => (1 ≤ sw ∧ 1 ≤ lw)%Z ∧ signal sf = ma_signal (Close data) sw lw
             ∧ positions sf = fillna (Fin 0) (diff (signal sf))
  | Raise e => e = ValueError ∧ (sw < 1 ∨ lw < 1)%Z
  end.
Proof.
  unfold moving_average_strategy. rewrite !rolling_min_periods_1.
  destruct (Z.leb_spec 1 sw); simpl; [|split; [done|lia]].
  destruct (Z.leb_spec 1 lw); simpl; [|split; [done|lia]].
  done.
Qed.

Lemma mean_reversion_strategy_cases sqrt data w :
  match mean_reversion_strategy sqrt data w with
  | Ok sf => (0 ≤ w)%Z ∧ signal sf = mr_signal sqrt (Close data) w
             ∧ positions sf = fillna (Fin 0) (diff (signal sf))
             ∧ indicators sf !! 1%nat = Some ("std"%string, mr_std sqrt (Close data) w)
             ∧ indicators sf !! 2%nat
               = Some ("z_score"%string, mr_z_score sqrt (Close data) w)
  | Raise e => e = ValueError ∧ (w < 0)%Z
  end.
Proof.
  unfold mean_reversion_strategy. rewrite !rolling_default.
  destruct (Z.leb_spec 0 w); simpl; [|split; [done|lia]].
  done.
Qed.

Lemma length_ma_signal close sw lw : length (ma_signal close sw lw) = length close.
Proof. unfold ma_signal. series_length. Qed.

Lemma length_mr_signal sqrt close w :
  length (mr_signal sqrt close w) = length close.
Proof. unfold mr_signal, mr_z_score, mr_std. series_length. Qed.

Lemma length_momentum_signal data w :
  length (signal (momentum_strategy data w)) = length (Close data).
Proof. unfold momentum_strategy. simpl. series_length. Qed.

Ltac in_list := rewrite ?elem_of_cons; auto 6.

Lemma ma_signal_range close sw lw :
  Forall (λ x, x ∈ [Fin 0; Fin 1]) (ma_signal close sw lw).
Proof.
  unfold ma_signal. apply Forall_loc_set; [in_list|].
  apply Forall_loc_set; [in_list|].
  apply Forall_replicate. in_list.
Qed.

Lemma momentum_signal_range data w :
  Forall (λ x, x ∈ [Fin 0; Fin 1]) (signal (momentum_strategy data w)).
Proof.
  unfold momentum_strategy. simpl.
  apply Forall_np_where; apply Forall_replicate; in_list.
Qed.

Lemma mr_signal_range sqrt close w :
  Forall (λ x, x ∈ [Fin (-1); Fin 0; Fin 1]) (mr_signal sqrt close w).
Proof.
  unfold mr_signal.
  repeat apply Forall_np_where; apply Forall_replicate; in_list.
Qed.

(** ** Series: transfer of cell-wise invariants *)

Lemma Forall_zip_with_l {A B C} (P : A → Prop) (R : C → Prop)
    (f : A → B → C) a b :
  (∀ x y, P x → R (f x y)) → Forall P a → Forall R (zip_with f a b).
Proof.
  intros Hf Ha. revert b.
  induction Ha as [|x a Hx _ IH]; intros [|y b]; simpl; constructor; auto.
Qed.

Lemma Forall_zip_with_lr {A B C} (P : A → Prop) (Q : B → Prop) (R : C → Prop)
    (f : A → B → C) a b :
  (∀ x y, P x → Q y → R (f x y)) →
  Forall P a → Forall Q b → Forall R (zip_with f a b).
Proof.
  intros Hf Ha. revert b.
  induction Ha as [|x a Hx _ IH]; intros b Hb; destruct Hb; simpl;
    constructor; auto.
Qed.

Lemma Forall_shift (P : float → Prop) k a :
  Forall P a → Forall (λ x, P x ∨ x = NaN) (shift k a).
Proof.
  intros Ha. unfold shift.
  assert (Forall (λ x, P x ∨ x = NaN) a) as Ha'
    by (eapply Forall_impl; [exact Ha|]; auto).
  destruct (0 <=? k)%Z; apply Forall_app; split;
    auto using Forall_take, Forall_drop; apply Forall_replicate; auto.
Qed.

Lemma Forall_cumsum_from (P : float → Prop) acc a :
  P (Fin 0) → (∀ u v, P u → P v → P (fadd u v)) →
  P acc → Forall (λ x, P x ∨ x = NaN) a →
  Forall (λ x, P x ∨ x = NaN) (cumsum_from acc a).
Proof.
  intros H0 Hadd Hacc Ha. revert acc Hacc.
  induction Ha as [|x a Hx _ IH]; intros acc Hacc; simpl; constructor.
  - destruct Hx as [Hx| ->]; simpl; auto.
    destruct (isna x); auto.
  - apply IH. destruct Hx as [Hx| ->]; simpl; auto.
    destruct (isna x); auto.
Qed.

(** ** Backtest *)

Section BacktestInvariant.

(** A class [P] of cells closed under the arithmetic of the backtest, and
    a class [Q] of closes whose product with a [P] cell is in [P] or NaN. *)
Variables P Q : float → Prop.
Hypothesis P_zero : P (Fin 0).
Hypothesis P_add : ∀ u v, P u → P v → P (fadd u v).
Hypothesis P_sub : ∀ u v, P u → P v → P (fsub u v).
Hypothesis P_size : ∀ u, P u → P (fmul u (of_Z 1000)).
Hypothesis P_value : ∀ u c, P u → Q c → P (fmul u c) ∨ fmul u c = NaN.

Lemma fsub_keeps u v : P u → P v ∨ v = NaN → P (fsub u v) ∨ fsub u v = NaN.
Proof. intros Hu [Hv| ->]; auto using fsub_nan_r. Qed.

Lemma backtest_columns data signals :
  Forall P (signal signals) → Forall Q (Close data) →
  Forall P (holdings (backtest_strategy data signals)) ∧
  ∃ spent, cash (backtest_strategy data signals) = s_rsub initial_capital spent
           ∧ Forall P spent
           ∧ length spent = length (signal signals) `min` length (Close data).
Proof.
  intros Hs Hc. unfold backtest_strategy; simpl.
  assert (Forall P (s_scale (signal signals) (of_Z 1000))) as Hk
    by (apply Forall_fmap; eapply Forall_impl; [exact Hs|]; auto).
  split.
  - apply Forall_fillna; [done|].
    eapply Forall_zip_with_lr; [|exact Hk|exact Hc]. auto.
  - eexists; split; [reflexivity|]. split; [|series_length].
    apply Forall_fillna; [done|].
    apply Forall_cumsum_from; auto.
    eapply Forall_zip_with_lr; [|apply Forall_fillna; [exact P_zero|]|exact Hc].
    { auto. }
    unfold diff. eapply Forall_zip_with_lr; [|exact Hk|apply Forall_shift, Hk].
    intros; by apply fsub_keeps.
Qed.

End BacktestInvariant.

Lemma is_number_fadd u v : is_number u → is_number v → is_number (fadd u v).
Proof. intros [a ->] [b ->]. apply is_number_Fin. Qed.

Lemma is_number_fsub u v : is_number u → is_number v → is_number (fsub u v).
Proof. intros [a ->] [b ->]. apply is_number_Fin. Qed.

Lemma is_number_fmul u v : is_number u → is_number v → is_number (fmul u v).
Proof. intros [a ->] [b ->]. apply is_number_Fin. Qed.

Lemma length_backtest_total data signals :
  length (signal signals) = length (Close data) →
  length (total (backtest_strategy data signals)) = length (Close data).
Proof. intros Hlen. unfold backtest_strategy; simpl. series_length. Qed.

(** With numeric signals and quoted closes every cell of the equity column
    is a number. *)
Lemma backtest_total_numbers data signals :
  Forall is_number (signal signals) → Forall quoted (Close data) →
  Forall is_number (total (backtest_strategy data signals)).
Proof.
  intros Hs Hc.
  destruct (backtest_columns is_number quoted) with (data := data)
    (signals := signals) as (Hh & spent & Hcash & Hspent & _);
    auto using is_number_Fin, is_number_fadd, is_number_fsub,
               is_number_fmul, fmul_number_quoted.
  { intros u Hu. apply is_number_fmul; [done|apply is_number_Fin]. }
  change (total (backtest_strategy data signals))
    with (s_add (cash (backtest_strategy data signals))
                (holdings (backtest_strategy data signals))).
  rewrite Hcash. eapply Forall_zip_with_lr; [|apply Forall_fmap|exact Hh].
  - apply is_number_fadd.
  - eapply Forall_impl; [exact Hspent|]. intros x Hx.
    apply (is_number_fsub initial_capital x); [apply is_number_Fin|done].
Qed.

(** A frame that never takes a position keeps the initial capital at
    every bar, whatever the closes are. *)
Lemma backtest_flat_signal data signals :
  signal signals = replicate (length (Close data)) (Fin 0) →
  total (backtest_strategy data signals)
  = replicate (length (Close data)) initial_capital.
Proof.
  intros Hs.
  assert (length (signal signals) = length (Close data)) as Hlen
    by (by rewrite Hs, length_replicate).
  destruct (backtest_columns (λ x, x = Fin 0) (λ _, True)) with (data := data)
    (signals := signals) as (Hh & spent & Hcash & Hspent & _).
  { done. }
  { intros u v -> ->. simpl. f_equal; try ring. }
  { intros u v -> ->. simpl. f_equal; try ring. }
  { intros u ->. simpl. f_equal; try ring. }
  { intros u c -> _. apply fmul_0_l_cases. }
  { rewrite Hs. by apply Forall_replicate. }
  { by apply Forall_true. }
  symmetry. apply replicate_as_Forall. split.
  { by apply length_backtest_total. }
  change (total (backtest_strategy data signals))
    with (s_add (cash (backtest_strategy data signals))
                (holdings (backtest_strategy data signals))).
  rewrite Hcash.
  eapply (Forall_zip_with_lr (λ x, x = initial_capital) (λ x, x = Fin 0));
    [|apply Forall_fmap|exact Hh].
  - intros x y -> ->. unfold initial_capital, of_Z. simpl. f_equal; try ring.
  - eapply Forall_impl; [exact Hspent|]. intros x ->.
    unfold initial_capital, of_Z. simpl. f_equal; try ring.
Qed.

Lemma shift_1_cons x a : shift 1 (x :: a) = NaN :: take (length a) (x :: a).
Proof.
  unfold shift. simpl length. change (0 <=? 1)%Z with true. cbv iota.
  change (Z.to_nat 1) with 1%nat.
  replace (1 `min` S (length a))%nat with 1%nat by lia.
  replace (S (length a) - 1)%nat with (length a) by lia. done.
Qed.

Lemma diff_cons x a : diff (x :: a) = NaN :: zip_with fsub a (take (length a) (x :: a)).
Proof. unfold diff, s_sub. rewrite shift_1_cons. simpl. by rewrite fsub_nan_r. Qed.

Lemma backtest_first_bar data signals s0 p0 :
  signal signals !! 0%nat = Some s0 → Close data !! 0%nat = Some p0 →
  cash (backtest_strategy data signals) !! 0%nat = Some initial_capital ∧
  holdings (backtest_strategy data signals) !! 0%nat
    = Some (fill0 (fmul (fmul s0 (of_Z 1000)) p0)).
Proof.
  unfold backtest_strategy.
  destruct (signal signals) as [|s ss], (Close data) as [|p ps]; try done.
  intros [= ->] [= ->]. cbn [cash holdings].
  unfold s_scale. rewrite fmap_cons, diff_cons.
  cbn [fillna fmap list_fmap s_mul zip_with isna cumsum cumsum_from s_rsub lookup list_lookup].
  split; [|done].
  destruct (fmul_0_l_cases p0) as [-> | ->]; simpl;
    unfold initial_capital, of_Z; do 2 f_equal; ring.
Qed.

Lemma backtest_total_first_bar data signals s0 p0 :
  signal signals !! 0%nat = Some s0 → Close data !! 0%nat = Some p0 →
  total (backtest_strategy data signals) !! 0%nat
  = Some (fadd initial_capital (fill0 (fmul (fmul s0 (of_Z 1000)) p0))).
Proof.
  intros Hs Hp. destruct (backtest_first_bar data signals s0 p0) as [Hc Hh];
    [done..|].
  change (total (backtest_strategy data signals))
    with (s_add (cash (backtest_strategy data signals))
                (holdings (backtest_strategy data signals))).
  unfold s_add. by rewrite lookup_zip_with, Hc, Hh.
Qed.

Lemma backtest_total_flat_first_bar data signals p0 :
  signal signals !! 0%nat = Some (Fin 0) → Close data !! 0%nat = Some p0 →
  total (backtest_strategy data signals) !! 0%nat = Some initial_capital.
Proof.
  intros Hs Hp. rewrite (backtest_total_first_bar _ _ _ _ Hs Hp).
  replace (fmul (Fin 0) (of_Z 1000)) with (Fin 0)
    by (unfold of_Z; simpl; f_equal; ring).
  unfold fill0. rewrite fill_fmul_0_l.
  unfold initial_capital, of_Z. simpl. do 2 f_equal. ring.
Qed.

(** ** Cash as a running sum *)

Lemma diff_lookup_0 x a : diff (x :: a) !! 0%nat = Some NaN.
Proof. by rewrite diff_cons. Qed.

Lemma diff_lookup_S a j u v :
  a !! j = Some u → a !! S j = Some v → diff a !! S j = Some (fsub v u).
Proof.
  destruct a as [|x a]; [done|]. intros Hu Hv. rewrite diff_cons.
  simpl in Hv |- *. rewrite lookup_zip_with, Hv. simpl.
  rewrite lookup_take_lt by (by apply lookup_lt_Some in Hv).
  by rewrite Hu.
Qed.

Lemma Qc_sum_seq_S (f : nat → Qc) m :
  Qc_sum (f <$> seq 0 (S m)) = f 0%nat + Qc_sum ((λ k, f (S k)) <$> seq 0 m).
Proof.
  simpl. f_equal. rewrite <- fmap_S_seq, <- list_fmap_compose. done.
Qed.

Lemma cumsum_from_lookup (f : nat → Qc) acc a t :
  (∀ k, (k ≤ t)%nat → a !! k = Some (Fin (f k))) →
  cumsum_from (Fin acc) a !! t = Some (Fin (acc + Qc_sum (f <$> seq 0 (S t)))).
Proof.
  revert f acc t. induction a as [|x a IH]; intros f acc t Hf.
  { specialize (Hf 0%nat). simpl in Hf. discriminate Hf. lia. }
  assert (x = Fin (f 0%nat)) as ->
    by (specialize (Hf 0%nat ltac:(lia)); by injection Hf).
  rewrite Qc_sum_seq_S. destruct t as [|t].
  - simpl. do 2 f_equal. ring.
  - change (cumsum_from (Fin acc) (Fin (f 0%nat) :: a) !! S t)
      with (cumsum_from (Fin (acc + f 0%nat)) a !! t).
    rewrite (IH (λ k, f (S k))).
    + do 2 f_equal. ring.
    + intros k Hk. apply (Hf (S k)). lia.
Qed.

Lemma lookup_fillna v a t :
  fillna v a !! t = (λ x, if isna x then v else x) <$> a !! t.
Proof. apply list_lookup_fmap. Qed.

Lemma lookup_s_rsub k a t : s_rsub k a !! t = fsub k <$> a !! t.
Proof. apply list_lookup_fmap. Qed.

Lemma cash_closed_form_numbers data signals (s p : list Qc) t :
  signal signals = Fin <$> s → Close data = Fin <$> p →
  length s = length p → (t < length p)%nat →
  cash (backtest_strategy data signals) !! t
  = Some (Fin (closed_form_cash (position_at s 0) s p t)).
Proof.
  intros Hs Hp Hlen Ht. unfold backtest_strategy; cbn [cash]. rewrite Hs, Hp.
  set (crypto := s_scale (Fin <$> s) (of_Z 1000)).
  set (f := λ k, position_change (position_at s 0) s k * (p !!! k)).
  assert (∀ k, (k < length p)%nat → crypto !! k = Some (Fin (position_at s k)))
    as Hcr.
  { intros k Hk. unfold crypto, s_scale.
    rewrite !list_lookup_fmap, list_lookup_lookup_total_lt by lia. done. }
  assert (∀ k, (k < length p)%nat →
            fillna (Fin 0) (diff crypto) !! k
            = Some (Fin (position_change (position_at s 0) s k))) as Hd.
  { intros [|j] Hj; unfold fillna; rewrite list_lookup_fmap.
    - pose proof (Hcr 0%nat Hj) as H0. destruct crypto as [|x a]; [done|].
      rewrite diff_lookup_0. simpl. do 2 f_equal. unfold position_change. ring.
    - rewrite (diff_lookup_S _ _ _ _ (Hcr j ltac:(lia)) (Hcr (S j) Hj)). done. }
  assert (∀ k, (k ≤ t)%nat →
            s_mul (fillna (Fin 0) (diff crypto)) (Fin <$> p) !! k
            = Some (Fin (f k))) as Hprod.
  { intros k Hk. unfold s_mul.
    rewrite lookup_zip_with, Hd, list_lookup_fmap by lia.
    rewrite list_lookup_lookup_total_lt by lia. done. }
  rewrite lookup_s_rsub, lookup_fillna. unfold cumsum.
  rewrite (cumsum_from_lookup f 0 _ t Hprod). simpl.
  unfold initial_capital, of_Z, closed_form_cash. simpl.
  apply (f_equal Some), (f_equal Fin). subst f. simpl. ring.
Qed.

(** ** Columns, cell by cell *)

Lemma roll_mean_lookup r t :
  (t < length (roll_obj r))%nat →
  roll_mean r !! t
  = Some (if bool_decide (roll_min_periods r ≤ length (observations r t)
                          ∧ 0 < length (observations r t))%nat
          then Fin (Qc_mean (observations r t)) else NaN).
Proof.
  intros Ht. unfold roll_mean. by rewrite list_lookup_fmap, lookup_seq_lt.
Qed.

Lemma roll_std_lookup sqrt r t :
  (t < length (roll_obj r))%nat →
  roll_std sqrt r !! t
  = Some (if bool_decide (roll_min_periods r ≤ length (observations r t)
                          ∧ 1 < length (observations r t))%nat
          then Fin (zsqrt sqrt (Qc_var (observations r t))) else NaN).
Proof.
  intros Ht. unfold roll_std. by rewrite list_lookup_fmap, lookup_seq_lt.
Qed.

Lemma length_omap_le {A B} (f : A → option B) l :
  (length (omap f l) ≤ length l)%nat.
Proof. induction l as [|x l IH]; csimpl; [done|]. destruct (f x); simpl; lia. Qed.

Lemma omap_replicate {A B} (f : A → option B) n x y :
  f x = Some y → omap f (replicate n x) = replicate n y.
Proof. intros Hf. induction n as [|n IH]; csimpl; [done|]. by rewrite Hf, IH. Qed.

Lemma length_observations r t :
  (length (observations r t) ≤ S t `min` roll_window r)%nat.
Proof.
  unfold observations.
  etrans; [apply length_omap_le|]. rewrite length_drop, length_take. lia.
Qed.

Lemma lookup_np_where (c : list bool) (x y : Series) (t : nat)
    (b : bool) u v :
  c !! t = Some b → x !! t = Some u → y !! t = Some v →
  np_where c x y !! t = Some (if b then u else v).
Proof.
  intros Hc Hx Hy. unfold np_where.
  rewrite lookup_zip_with, Hc. simpl.
  by rewrite lookup_zip_with, Hx, Hy.
Qed.

Lemma lookup_loc_set (mask : list bool) v (col : Series) (t : nat)
    (m : bool) x :
  mask !! t = Some m → col !! t = Some x →
  loc_set mask v col !! t = Some (if m then v else x).
Proof.
  intros Hm Hx. unfold loc_set. by rewrite lookup_zip_with, Hm, Hx.
Qed.

Lemma ma_signal_lookup close sw lw t a b :
  roll_mean (mkRolling close (Z.to_nat sw) 1) !! t = Some a →
  roll_mean (mkRolling close (Z.to_nat lw) 1) !! t = Some b →
  ma_signal close sw lw !! t
  = Some (if fle a b then Fin 0 else if fgt a b then Fin 1 else Fin 0).
Proof.
  intros Ha Hb. unfold ma_signal.
  assert (t < length close)%nat as Ht
    by (apply lookup_lt_Some in Ha; by rewrite length_roll_mean in Ha).
  erewrite lookup_loc_set; [reflexivity| |].
  - unfold s_le. by rewrite lookup_zip_with, Ha, Hb.
  - erewrite lookup_loc_set; [reflexivity| |].
    + unfold s_gt. by rewrite lookup_zip_with, Ha, Hb.
    + by apply lookup_replicate_2.
Qed.

Lemma momentum_signal_lookup data w t p q :
  Close data !! t = Some p → shift w (Close data) !! t = Some q →
  signal (momentum_strategy data w) !! t
  = Some (if fgt (fsub p q) (Fin 0) then Fin 1 else Fin 0).
Proof.
  intros Hp Hq. unfold momentum_strategy; cbn [signal].
  assert (t < length (Close data))%nat as Ht by (by apply lookup_lt_Some in Hp).
  erewrite lookup_np_where; [reflexivity| | |].
  - unfold s_gtk, s_sub. by rewrite list_lookup_fmap, lookup_zip_with, Hp, Hq.
  - by apply lookup_replicate_2.
  - by apply lookup_replicate_2.
Qed.

Lemma mr_signal_lookup sqrt close w t z :
  mr_z_score sqrt close w !! t = Some z →
  mr_signal sqrt close w !! t
  = Some (if flt z (Fin (-1)) then Fin 1
          else if fgt z (Fin 1) then Fin (-1) else Fin 0).
Proof.
  intros Hz. unfold mr_signal.
  assert (t < length close)%nat as Ht.
  { apply lookup_lt_Some in Hz. unfold mr_z_score, mr_std in Hz.
    series_length. }
  erewrite lookup_np_where; [reflexivity| | |].
  - unfold s_ltk. by rewrite list_lookup_fmap, Hz.
  - by apply lookup_replicate_2.
  - erewrite lookup_np_where; [reflexivity| | |].
    + unfold s_gtk. by rewrite list_lookup_fmap, Hz.
    + by apply lookup_replicate_2.
    + by apply lookup_replicate_2.
Qed.

Lemma mr_z_score_lookup sqrt (close : Series) w (t : nat) p m d :
  close !! t = Some p →
  roll_mean (mkRolling close (Z.to_nat w) (Z.to_nat w)) !! t = Some m →
  mr_std sqrt close w !! t = Some d →
  mr_z_score sqrt close w !! t = Some (fdiv (fsub p m) d).
Proof.
  intros Hp Hm Hd. unfold mr_z_score, s_div, s_sub.
  by rewrite !lookup_zip_with, Hp, Hm, Hd.
Qed.

Lemma all_cells (l : Series) n v :
  length l = n → (∀ t, (t < n)%nat → l !! t = Some v) → l = replicate n v.
Proof.
  intros Hlen Hl. symmetry. apply replicate_as_Forall_2; [done|].
  apply Forall_lookup_2. intros i x Hx.
  pose proof (lookup_lt_Some _ _ _ Hx) as Hi. rewrite Hl in Hx by lia.
  congruence.
Qed.

(** ** The first bar and windows longer than the series *)

Lemma observations_first a w m :
  (1 ≤ w)%nat → observations (mkRolling a w m) 0 = observations (mkRolling a 1 m) 0.
Proof.
  intros Hw. unfold observations; simpl.
  by replace (1 - w)%nat with 0%nat by lia.
Qed.

Lemma ma_signal_first close sw lw :
  (1 ≤ sw)%Z → (1 ≤ lw)%Z → close ≠ [] →
  ma_signal close sw lw !! 0%nat = Some (Fin 0).
Proof.
  intros Hsw Hlw Hne.
  assert (0 < length close)%nat as Hlen by (destruct close; simpl; [done|lia]).
  erewrite ma_signal_lookup; [|by apply roll_mean_lookup..].
  cbn [roll_min_periods].
  rewrite (observations_first _ (Z.to_nat sw)), (observations_first _ (Z.to_nat lw))
    by lia.
  unfold fgt. rewrite flt_irrefl. by destruct (fle _ _).
Qed.

Lemma shift_first w (a : Series) :
  (1 ≤ w)%Z → a ≠ [] → shift w a !! 0%nat = Some NaN.
Proof.
  intros Hw Ha. unfold shift.
  destruct (Z.leb_spec 0 w); [|lia].
  destruct a as [|x a]; [done|]. simpl length.
  destruct (Z.to_nat w `min` S (length a))%nat as [|k] eqn:Hk; [lia|]. done.
Qed.

Lemma shift_exceeds w (a : Series) :
  (Z.of_nat (length a) ≤ w)%Z → shift w a = replicate (length a) NaN.
Proof.
  intros Hw. unfold shift. destruct (Z.leb_spec 0 w); [|lia].
  replace (Z.to_nat w `min` length a)%nat with (length a) by lia.
  by rewrite Nat.sub_diag, take_0, app_nil_r.
Qed.

Lemma momentum_signal_first data w :
  (1 ≤ w)%Z → Close data ≠ [] →
  signal (momentum_strategy data w) !! 0%nat = Some (Fin 0).
Proof.
  intros Hw Hne. destruct (Close data) as [|p a] eqn:Hc; [done|].
  erewrite momentum_signal_lookup;
    [|by rewrite Hc|rewrite Hc; by apply shift_first].
  by rewrite fsub_nan_r.
Qed.

Lemma momentum_signal_exceeds data w :
  (Z.of_nat (length (Close data)) ≤ w)%Z →
  signal (momentum_strategy data w) = replicate (length (Close data)) (Fin 0).
Proof.
  intros Hw. apply all_cells; [apply length_momentum_signal|].
  intros t Ht. destruct (lookup_lt_is_Some_2 (Close data) t Ht) as [p Hp].
  erewrite momentum_signal_lookup; [|exact Hp|].
  - by rewrite fsub_nan_r.
  - rewrite shift_exceeds by done. by apply lookup_replicate_2.
Qed.

Lemma mr_std_undefined sqrt (close : Series) w t :
  (t < length close)%nat → (S t < Z.to_nat w ∨ t = 0)%nat →
  mr_std sqrt close w !! t = Some NaN.
Proof.
  intros Ht Hw. unfold mr_std. rewrite roll_std_lookup by done.
  pose proof (length_observations (mkRolling close (Z.to_nat w) (Z.to_nat w)) t)
    as Hobs.
  cbn [roll_min_periods roll_window] in *.
  rewrite bool_decide_eq_false_2; [done|lia].
Qed.

Lemma mr_signal_undefined sqrt (close : Series) w t :
  (t < length close)%nat → (S t < Z.to_nat w ∨ t = 0)%nat →
  mr_signal sqrt close w !! t = Some (Fin 0).
Proof.
  intros Ht Hw.
  destruct (lookup_lt_is_Some_2 close t Ht) as [p Hp].
  destruct (lookup_lt_is_Some_2
              (roll_mean (mkRolling close (Z.to_nat w) (Z.to_nat w))) t)
    as [m Hm]; [by rewrite length_roll_mean|].
  erewrite mr_signal_lookup;
    [|eapply mr_z_score_lookup; [exact Hp|exact Hm|by apply mr_std_undefined]].
  by rewrite fdiv_nan_r.
Qed.

Lemma mr_signal_exceeds sqrt (close : Series) w :
  (Z.of_nat (length close) < w)%Z →
  mr_signal sqrt close w = replicate (length close) (Fin 0).
Proof.
  intros Hw. apply all_cells; [apply length_mr_signal|].
  intros t Ht. apply mr_signal_undefined; [done|lia].
Qed.

Lemma positions_first (s : Series) :
  s ≠ [] → fillna (Fin 0) (diff s) !! 0%nat = Some (Fin 0).
Proof.
  destruct s as [|x s]; [done|]. intros _.
  by rewrite lookup_fillna, diff_lookup_0.
Qed.

(** ** A flat series *)

Lemma observations_flat n c w m t :
  (t < n)%nat →
  observations (mkRolling (replicate n (Fin c)) w m) t
  = replicate (S t `min` w) c.
Proof.
  intros Ht. unfold observations; cbn [roll_obj roll_window].
  rewrite take_replicate, drop_replicate, (omap_replicate _ _ _ c) by done.
  f_equal. lia.
Qed.

Lemma roll_mean_flat n c w m :
  Forall (λ x, x = Fin c ∨ x = NaN)
         (roll_mean (mkRolling (replicate n (Fin c)) w m)).
Proof.
  apply Forall_lookup_2. intros t x Hx.
  pose proof (lookup_lt_Some _ _ _ Hx) as Ht.
  rewrite length_roll_mean in Ht. cbn [roll_obj] in Ht.
  rewrite length_replicate in Ht.
  rewrite roll_mean_lookup in Hx by (cbn [roll_obj]; by rewrite length_replicate).
  rewrite observations_flat in Hx by done. injection Hx as <-.
  case_bool_decide as Hobs; [|by right]. left.
  rewrite length_replicate in Hobs.
  destruct w as [|w]; [lia|]. by rewrite Qc_mean_replicate.
Qed.

Lemma roll_std_flat sqrt n c w m :
  Forall (λ x, x = Fin (sqrt 0) ∨ x = NaN)
         (roll_std sqrt (mkRolling (replicate n (Fin c)) w m)).
Proof.
  apply Forall_lookup_2. intros t x Hx.
  pose proof (lookup_lt_Some _ _ _ Hx) as Ht.
  rewrite length_roll_std in Ht. cbn [roll_obj] in Ht.
  rewrite length_replicate in Ht.
  rewrite roll_std_lookup in Hx by (cbn [roll_obj]; by rewrite length_replicate).
  rewrite observations_flat in Hx by done. injection Hx as <-.
  case_bool_decide as Hobs; [|by right]. left.
  rewrite length_replicate in Hobs.
  destruct w as [|w]; [lia|]. rewrite Qc_var_replicate.
  unfold zsqrt. by rewrite Qc_ltb_irrefl.
Qed.

Lemma ma_signal_flat n c sw lw :
  ma_signal (replicate n (Fin c)) sw lw = replicate n (Fin 0).
Proof.
  apply all_cells; [by rewrite length_ma_signal, length_replicate|].
  intros t Ht.
  destruct (lookup_lt_is_Some_2
              (roll_mean (mkRolling (replicate n (Fin c)) (Z.to_nat sw) 1)) t)
    as [a Ha]; [by rewrite length_roll_mean; cbn; rewrite length_replicate|].
  destruct (lookup_lt_is_Some_2
              (roll_mean (mkRolling (replicate n (Fin c)) (Z.to_nat lw) 1)) t)
    as [b Hb]; [by rewrite length_roll_mean; cbn; rewrite length_replicate|].
  rewrite (ma_signal_lookup _ _ _ _ _ _ Ha Hb).
  assert (fgt a b = false) as ->; [|by destruct (fle a b)].
  destruct (Forall_lookup_1 _ _ _ _ (roll_mean_flat _ _ _ _) Ha) as [-> | ->],
           (Forall_lookup_1 _ _ _ _ (roll_mean_flat _ _ _ _) Hb) as [-> | ->];
    try done.
  apply flt_irrefl.
Qed.

Lemma momentum_signal_flat n c w :
  signal (momentum_strategy (mkPriceFrame (replicate n (Fin c))) w)
  = replicate n (Fin 0).
Proof.
  apply all_cells;
    [by rewrite length_momentum_signal; cbn; rewrite length_replicate|].
  intros t Ht.
  destruct (lookup_lt_is_Some_2 (shift w (replicate n (Fin c))) t)
    as [q Hq]; [by rewrite length_shift, length_replicate|].
  erewrite momentum_signal_lookup;
    [|cbn [Close]; by apply lookup_replicate_2|exact Hq].
  assert (Forall (λ x, x = Fin c ∨ x = NaN) (shift w (replicate n (Fin c))))
    as Hsh by (apply Forall_shift; by apply Forall_replicate).
  destruct (Forall_lookup_1 _ _ _ _ Hsh Hq) as [-> | ->]; [|done].
  simpl. replace (c + - c) with 0 by ring. done.
Qed.

Lemma flat_z_score_signal c m d (z := fdiv (fsub (Fin c) m) d) :
  m = Fin c ∨ m = NaN → is_number d ∨ d = NaN →
  (if flt z (Fin (-1)) then Fin 1 else if fgt z (Fin 1) then Fin (-1) else Fin 0)
  = Fin 0.
Proof.
  intros [-> | ->] [[s ->] | ->]; subst z; try done.
  simpl. replace (c + - c) with 0 by ring.
  destruct (Qc_eqb s 0); [done|].
  replace (0 / s) with 0 by (unfold Qcdiv; ring). done.
Qed.

Lemma mr_signal_flat sqrt n c w :
  mr_signal sqrt (replicate n (Fin c)) w = replicate n (Fin 0).
Proof.
  apply all_cells; [by rewrite length_mr_signal, length_replicate|].
  intros t Ht.
  set (r := mkRolling (replicate n (Fin c)) (Z.to_nat w) (Z.to_nat w)).
  destruct (lookup_lt_is_Some_2 (roll_mean r) t)
    as [m Hm]; [by rewrite length_roll_mean; cbn; rewrite length_replicate|].
  destruct (lookup_lt_is_Some_2 (roll_std sqrt r) t)
    as [d Hd]; [by rewrite length_roll_std; cbn; rewrite length_replicate|].
  erewrite mr_signal_lookup;
    [|eapply mr_z_score_lookup;
      [by apply lookup_replicate_2|exact Hm|exact Hd]].
  f_equal. apply flat_z_score_signal.
  - exact (Forall_lookup_1 _ _ _ _ (roll_mean_flat _ _ _ _) Hm).
  - destruct (Forall_lookup_1 _ _ _ _ (roll_std_flat _ _ _ _ _) Hd) as [-> | ->];
      [left; apply is_number_Fin|by right].
Qed.

(** With a root that maps 0 to 0 the z-score of a flat series is NaN at
    every bar: 0/0 where the window is full, no deviation before. *)
Lemma mr_z_score_flat sqrt n c w :
  sqrt 0 = 0 →
  mr_z_score sqrt (replicate n (Fin c)) w = replicate n NaN.
Proof.
  intros Hsqrt. apply all_cells.
  { unfold mr_z_score, mr_std. series_length. }
  intros t Ht.
  set (r := mkRolling (replicate n (Fin c)) (Z.to_nat w) (Z.to_nat w)).
  destruct (lookup_lt_is_Some_2 (roll_mean r) t)
    as [m Hm]; [by rewrite length_roll_mean; cbn; rewrite length_replicate|].
  destruct (lookup_lt_is_Some_2 (roll_std sqrt r) t)
    as [d Hd]; [by rewrite length_roll_std; cbn; rewrite length_replicate|].
  erewrite mr_z_score_lookup; [|by apply lookup_replicate_2|exact Hm|exact Hd].
  f_equal.
  destruct (Forall_lookup_1 _ _ _ _ (roll_std_flat _ _ _ _ _) Hd) as [-> | ->];
    [|apply fdiv_nan_r].
  destruct (Forall_lookup_1 _ _ _ _ (roll_mean_flat _ _ _ _) Hm) as [-> | ->];
    [|done].
  rewrite Hsqrt. simpl. replace (c + - c) with 0 by ring. done.
Qed.

(** ** The objective *)

Lemma result_bind_Ok {A B} (k : A → result B) a : (Ok a ≫= k) = k a.
Proof. done. Qed.

Lemma windows_inv p sw lw mw rw :
  windows p = Ok (sw, lw, mw, rw) →
  int (short_window p) = Ok sw ∧ int (long_window p) = Ok lw ∧
  int (momentum_window p) = Ok mw ∧ int (mean_window p) = Ok rw.
Proof.
  unfold windows.
  destruct (int (short_window p)), (int (long_window p)),
           (int (momentum_window p)), (int (mean_window p)); simpl; try done.
  by intros [= -> -> -> ->].
Qed.

Lemma objective_intro sqrt data p sw lw mw rw sf_ma sf_mr x :
  windows p = Ok (sw, lw, mw, rw) →
  moving_average_strategy data sw lw = Ok sf_ma →
  mean_reversion_strategy sqrt data rw = Ok sf_mr →
  iloc_last (combined data sf_ma (momentum_strategy data mw) sf_mr) = Ok x →
  objective sqrt data p = Ok (fneg x).
Proof.
  intros (Hsw & Hlw & Hmw & Hrw)%windows_inv Hma Hmr Hx.
  unfold objective.
  rewrite Hsw, result_bind_Ok, Hlw, result_bind_Ok, Hma, result_bind_Ok,
    Hmw, result_bind_Ok, Hrw, result_bind_Ok, Hmr, result_bind_Ok.
  unfold combined in Hx. cbv zeta. by rewrite Hx.
Qed.

Lemma objective_inv sqrt data p r :
  objective sqrt data p = Ok r →
  ∃ sw lw mw rw sf_ma sf_mr x,
    windows p = Ok (sw, lw, mw, rw) ∧
    moving_average_strategy data sw lw = Ok sf_ma ∧
    mean_reversion_strategy sqrt data rw = Ok sf_mr ∧
    iloc_last (combined data sf_ma (momentum_strategy data mw) sf_mr) = Ok x ∧
    r = fneg x.
Proof.
  unfold objective, windows, combined.
  destruct (int (short_window p)) as [sw|]; [|by cbn].
  destruct (int (long_window p)) as [lw|]; [|by cbn].
  rewrite !result_bind_Ok.
  destruct (moving_average_strategy data sw lw) as [sf_ma|] eqn:Hma; [|by cbn].
  destruct (int (momentum_window p)) as [mw|]; [|by cbn].
  destruct (int (mean_window p)) as [rw|]; [|by cbn].
  rewrite !result_bind_Ok.
  destruct (mean_reversion_strategy sqrt data rw) as [sf_mr|] eqn:Hmr;
    [|by cbn].
  rewrite !result_bind_Ok. cbv zeta.
  destruct (iloc_last _) as [x|] eqn:Hx; [|by cbn].
  rewrite !result_bind_Ok.
  intros [= <-]. by exists sw, lw, mw, rw, sf_ma, sf_mr, x.
Qed.

Lemma numbers_of_range (vals l : Series) :
  Forall is_number vals → Forall (λ x, x ∈ vals) l → Forall is_number l.
Proof.
  intros Hv Hl. eapply Forall_impl; [exact Hl|].
  intros x Hx. by apply (proj1 (Forall_forall _ _) Hv).
Qed.

Lemma trend_values_numbers : Forall is_number [Fin 0; Fin 1].
Proof. repeat constructor; apply is_number_Fin. Qed.

Lemma reversion_values_numbers : Forall is_number [Fin (-1); Fin 0; Fin 1].
Proof. repeat constructor; apply is_number_Fin. Qed.

Lemma combined_numbers data s1 s2 s3 :
  Forall is_number (total (backtest_strategy data s1)) →
  Forall is_number (total (backtest_strategy data s2)) →
  Forall is_number (total (backtest_strategy data s3)) →
  Forall is_number (combined data s1 s2 s3).
Proof.
  intros H1 H2 H3. unfold combined, s_divk, s_add. apply Forall_fmap.
  eapply Forall_impl.
  - eapply Forall_zip_with_lr; [|eapply Forall_zip_with_lr; [|exact H1|exact H2]|exact H3];
      apply is_number_fadd.
  - intros x [a ->]. apply is_number_Fin.
Qed.

Lemma length_combined data s1 s2 s3 :
  length (signal s1) = length (Close data) →
  length (signal s2) = length (Close data) →
  length (signal s3) = length (Close data) →
  length (combined data s1 s2 s3) = length (Close data).
Proof.
  intros H1 H2 H3. unfold combined, s_divk, s_add.
  rewrite length_fmap, !length_zip_with, !length_backtest_total by done. lia.
Qed.

Lemma iloc_last_number (l : Series) :
  l ≠ [] → Forall is_number l → ∃ v, iloc_last l = Ok (Fin v).
Proof.
  intros Hne Hl. unfold iloc_last.
  destruct (last l) as [x|] eqn:Hx; [|by apply last_None in Hx].
  apply last_Some_elem_of in Hx.
  destruct (proj1 (Forall_forall _ _) Hl x Hx) as [v ->]. by exists v.
Qed.

(** The objective returns a number whenever pandas accepts the windows and
    no close is infinite. *)
Lemma objective_defined sqrt data p sw lw mw rw :
  Close data ≠ [] → Forall quoted (Close data) →
  windows p = Ok (sw, lw, mw, rw) → (1 ≤ sw)%Z → (1 ≤ lw)%Z → (0 ≤ rw)%Z →
  ∃ v, objective sqrt data p = Ok (Fin v).
Proof.
  intros Hne Hq Hw Hsw Hlw Hrw.
  pose proof (moving_average_strategy_cases data sw lw) as Hma.
  destruct (moving_average_strategy data sw lw) as [sf_ma|] eqn:Ema; [|lia].
  destruct Hma as (_ & Hma & _).
  pose proof (mean_reversion_strategy_cases sqrt data rw) as Hmr.
  destruct (mean_reversion_strategy sqrt data rw) as [sf_mr|] eqn:Emr; [|lia].
  destruct Hmr as (_ & Hmr & _).
  destruct (iloc_last_number (combined data sf_ma (momentum_strategy data mw) sf_mr))
    as [v Hv].
  - intros Hnil%(f_equal length). rewrite length_combined in Hnil.
    + by destruct (Close data).
    + by rewrite Hma, length_ma_signal.
    + apply length_momentum_signal.
    + by rewrite Hmr, length_mr_signal.
  - apply combined_numbers; apply backtest_total_numbers; try done.
    + rewrite Hma. eapply numbers_of_range;
        [apply trend_values_numbers|apply ma_signal_range].
    + eapply numbers_of_range;
        [apply trend_values_numbers|apply momentum_signal_range].
    + rewrite Hmr. eapply numbers_of_range;
        [apply reversion_values_numbers|apply mr_signal_range].
  - exists (- v). by rewrite (objective_intro _ _ _ _ _ _ _ _ _ _ Hw Ema Emr Hv).
Qed.

Lemma objective_flat sqrt n c p r :
  objective sqrt (mkPriceFrame (replicate n (Fin c))) p = Ok r →
  r = fneg initial_capital.
Proof.
  intros (sw & lw & mw & rw & sf_ma & sf_mr & x & _ & Ema & Emr & Hx & ->)
    %objective_inv.
  f_equal.
  pose proof (moving_average_strategy_cases (mkPriceFrame (replicate n (Fin c))) sw lw)
    as Hma. rewrite Ema in Hma. destruct Hma as (_ & Hma & _).
  pose proof (mean_reversion_strategy_cases sqrt (mkPriceFrame (replicate n (Fin c))) rw)
    as Hmr. rewrite Emr in Hmr. destruct Hmr as (_ & Hmr & _).
  cbn [Close] in Hma, Hmr. rewrite ma_signal_flat in Hma.
  rewrite mr_signal_flat in Hmr.
  unfold combined in Hx.
  rewrite !backtest_flat_signal in Hx
    by (cbn [Close]; rewrite length_replicate;
        first [done | apply momentum_signal_flat]).
  cbn [Close] in Hx. rewrite length_replicate in Hx.
  unfold s_add, s_divk in Hx. rewrite !zip_with_replicate, fmap_replicate in Hx.
  replace (fdiv (fadd (fadd initial_capital initial_capital) initial_capital)
                (of_Z 3)) with initial_capital in Hx by compute_done.
  unfold iloc_last in Hx.
  destruct n as [|n]; [done|].
  rewrite last_lookup, length_replicate, lookup_replicate_2 in Hx
    by (simpl; lia).
  by injection Hx as <-.
Qed.

(** ** Magnitudes

    Every cell the backtest and the objective form stays within a bound
    that is linear in the largest close and in the number of bars. *)

Lemma within_mono A B x : A ≤ B → within A x → within B x.
Proof. intros HAB (q & -> & H1 & H2). exists q. split; [done|]. split; qc_arith. Qed.

Lemma within_fadd A B u v : within A u → within B v → within (A + B) (fadd u v).
Proof.
  intros (a & -> & Ha1 & Ha2) (b & -> & Hb1 & Hb2). exists (a + b).
  split; [done|]. split; qc_arith.
Qed.

Lemma within_fsub A B u v : within A u → within B v → within (A + B) (fsub u v).
Proof.
  intros (a & -> & Ha1 & Ha2) (b & -> & Hb1 & Hb2). exists (a + - b).
  split; [done|]. split; qc_arith.
Qed.

Lemma within_fmul A B u v : within A u → within B v → within (A * B) (fmul u v).
Proof.
  intros (a & -> & Ha1 & Ha2) (b & -> & Hb1 & Hb2). exists (a * b).
  split; [done|]. split; qc_arith.
Qed.

Lemma within_nonneg B x : within B x → 0 ≤ B.
Proof. intros (q & _ & H1 & H2). qc_arith. Qed.

Lemma within_zero B : 0 ≤ B → within B (Fin 0).
Proof. intros HB. exists 0. split; [done|]. split; qc_arith. Qed.

Lemma within_fill0 B x : 0 ≤ B → within B x ∨ x = NaN → within B (if isna x then Fin 0 else x).
Proof.
  intros HB [(q & -> & H)| ->]; simpl; [by exists q|by apply within_zero].
Qed.

Lemma Forall_within_fillna B a :
  0 ≤ B → Forall (λ x, within B x ∨ x = NaN) a → Forall (within B) (fillna (Fin 0) a).
Proof.
  intros HB Ha. unfold fillna. apply Forall_fmap.
  eapply Forall_impl; [exact Ha|]. intros x Hx. by apply within_fill0.
Qed.

Lemma within_cumsum_from A C acc a :
  0 ≤ C → within A acc → Forall (λ x, within C x ∨ x = NaN) a →
  Forall (λ x, within (A + C * Qc_of_nat (length a)) x ∨ x = NaN)
         (cumsum_from acc a).
Proof.
  intros HC Hacc Ha. revert A acc Hacc.
  induction Ha as [|x a Hx _ IH]; intros A acc Hacc; [constructor|].
  assert (within (A + C) (fadd acc (if isna x then Fin 0 else x))) as Hacc'
    by (apply within_fadd; [done|by apply within_fill0]).
  cbn [cumsum_from length]. rewrite Qc_of_nat_S. constructor.
  - destruct (isna x); [by right|left].
    eapply within_mono; [|exact Hacc'].
    assert (0 ≤ Qc_of_nat (length a)) as Hn by apply Qc_of_nat_nonneg.
    revert Hn. generalize (Qc_of_nat (length a)). intros k Hk. qc_arith.
  - eapply Forall_impl; [apply (IH _ _ Hacc')|].
    intros y [Hy|Hy]; [left|by right].
    eapply within_mono; [|exact Hy].
    generalize (Qc_of_nat (length a)). intros k. qc_arith.
Qed.

Lemma Forall_within_shift B k a :
  Forall (within B) a → Forall (λ x, within B x ∨ x = NaN) (shift k a).
Proof. apply Forall_shift. Qed.

Lemma backtest_within M data signals :
  0 ≤ M →
  Forall (within 1) (signal signals) →
  Forall (λ x, within M x ∨ x = NaN) (Close data) →
  Forall (within (equity_bound M (length (Close data))))
         (total (backtest_strategy data signals)).
Proof.
  intros HM Hs Hc. unfold backtest_strategy; cbn [total].
  set (crypto := s_scale (signal signals) (of_Z 1000)).
  assert (Forall (within (Qc_of_Z 1000)) crypto) as Hk.
  { apply Forall_fmap. eapply Forall_impl; [exact Hs|]. intros x Hx.
    replace (Qc_of_Z 1000) with (1 * Qc_of_Z 1000) by ring.
    apply within_fmul; [done|]. exists (Qc_of_Z 1000). split; [done|].
    split; by vm_compute. }
  assert (∀ B u c, within B u → within M c ∨ c = NaN →
                   within (B * M) (fmul u c) ∨ fmul u c = NaN) as Hval.
  { intros B u c Hu [Hc'| ->]; [left; by apply within_fmul|right].
    by destruct u. }
  assert (0 ≤ Qc_of_Z 1000 * M) as H1 by (by apply Qc_mul_nonneg).
  assert (0 ≤ Qc_of_Z 2000 * M) as H2 by (by apply Qc_mul_nonneg).
  assert (0 ≤ Qc_of_nat (length (Close data))) as Hn by apply Qc_of_nat_nonneg.
  unfold equity_bound.
  eapply (Forall_zip_with_lr
            (within (Qc_of_Z 10000 + Qc_of_Z 2000 * M * Qc_of_nat (length (Close data))))
            (within (Qc_of_Z 1000 * M))).
  - intros x y Hx Hy. by apply within_fadd.
  - apply Forall_fmap.
    assert (Forall (within (Qc_of_Z 2000 * M * Qc_of_nat (length (Close data))))
              (fillna (Fin 0) (cumsum (s_mul (fillna (Fin 0) (diff crypto)) (Close data)))))
      as Hspent.
    { apply Forall_within_fillna.
      { by apply Qc_mul_nonneg. }
      assert (Forall (λ x, within (Qc_of_Z 2000 * M) x ∨ x = NaN)
                (s_mul (fillna (Fin 0) (diff crypto)) (Close data))) as Hcost.
      { eapply Forall_zip_with_lr; [|apply (Forall_within_fillna (Qc_of_Z 2000))|exact Hc].
        - intros x y Hx Hy. by apply Hval.
        - by vm_compute.
        - unfold diff. eapply Forall_zip_with_lr;
            [|exact Hk|apply Forall_within_shift, Hk].
          intros x y Hx [Hy| ->]; [left|right; apply fsub_nan_r].
          replace (Qc_of_Z 2000) with (Qc_of_Z 1000 + Qc_of_Z 1000) by compute_done.
          by apply within_fsub. }
      pose proof (within_cumsum_from 0 _ (Fin 0) _ H2 (within_zero 0 (Qcle_refl 0)) Hcost)
        as Hsum.
      eapply Forall_impl; [exact Hsum|].
      intros x [Hx|Hx]; [left|by right].
      eapply within_mono; [|exact Hx].
      assert (length (s_mul (fillna (Fin 0) (diff crypto)) (Close data))
              ≤ length (Close data))%nat as Hle
        by (unfold s_mul; rewrite length_zip_with; lia).
      rewrite Qcplus_0_l. apply Qc_mul_le_mono_nonneg; [done|].
      by apply Qc_of_nat_le. }
    eapply Forall_impl; [exact Hspent|]. intros x Hx.
    apply (within_fsub _ _ initial_capital x); [|done].
    exists (Qc_of_Z 10000). split; [done|]. split; by vm_compute.
  - apply Forall_within_fillna; [done|].
    eapply Forall_zip_with_lr; [|exact Hk|exact Hc]. intros x y Hx Hy. by apply Hval.
Qed.

Lemma within_third B a b c :
  within B a → within B b → within B c →
  within B (fdiv (fadd (fadd a b) c) (of_Z 3)).
Proof.
  intros (x & -> & Hx1 & Hx2) (y & -> & Hy1 & Hy2) (z & -> & Hz1 & Hz2).
  exists ((x + y + z) / Qc_of_Z 3). split; [done|].
  assert ((x + y + z) / Qc_of_Z 3 = (x + y + z) * Q2Qc (1 # 3)) as ->.
  { unfold Qcdiv. f_equal; try compute_done. }
  split; qc_arith.
Qed.

Lemma combined_within B data s1 s2 s3 :
  Forall (within B) (total (backtest_strategy data s1)) →
  Forall (within B) (total (backtest_strategy data s2)) →
  Forall (within B) (total (backtest_strategy data s3)) →
  Forall (within B) (combined data s1 s2 s3).
Proof.
  intros H1 H2 H3. unfold combined, s_divk, s_add. apply Forall_fmap.
  eapply (Forall_zip_with_lr
            (λ u, ∃ a b, within B a ∧ within B b ∧ u = fadd a b) (within B));
    [|eapply Forall_zip_with_lr; [|exact H1|exact H2]|exact H3].
  - intros u c (a & b & Ha & Hb & ->) Hc. by apply within_third.
  - intros a b Ha Hb. by exists a, b.
Qed.

Lemma iloc_last_Forall (P : float → Prop) (l : Series) :
  l ≠ [] → Forall P l → ∃ x, iloc_last l = Ok x ∧ P x.
Proof.
  intros Hne Hl. unfold iloc_last.
  destruct (last l) as [x|] eqn:Hx; [|by apply last_None in Hx].
  apply last_Some_elem_of in Hx. exists x. split; [done|].
  by apply (proj1 (Forall_forall _ _) Hl).
Qed.

Lemma within_range (vals l : Series) B :
  Forall (within B) vals → Forall (λ x, x ∈ vals) l → Forall (within B) l.
Proof.
  intros Hv Hl. eapply Forall_impl; [exact Hl|].
  intros x Hx. by apply (proj1 (Forall_forall _ _) Hv).
Qed.

Lemma signal_values_within : Forall (within 1) [Fin (-1); Fin 0; Fin 1].
Proof.
  repeat constructor; eexists; (split; [reflexivity|]); split; by vm_compute.
Qed.

Lemma within_fneg B x : within B x → within B (fneg x).
Proof.
  intros (q & -> & H1 & H2). exists (- q). split; [done|]. split; qc_arith.
Qed.

Lemma objective_within sqrt M data p sw lw mw rw :
  Close data ≠ [] → 0 ≤ M →
  Forall (λ x, within M x ∨ x = NaN) (Close data) →
  windows p = Ok (sw, lw, mw, rw) → (1 ≤ sw)%Z → (1 ≤ lw)%Z → (0 ≤ rw)%Z →
  ∃ v, objective sqrt data p = Ok v ∧
       within (equity_bound M (length (Close data))) v.
Proof.
  intros Hne HM Hc Hw Hsw Hlw Hrw.
  pose proof (moving_average_strategy_cases data sw lw) as Hma.
  destruct (moving_average_strategy data sw lw) as [sf_ma|] eqn:Ema; [|lia].
  destruct Hma as (_ & Hma & _).
  pose proof (mean_reversion_strategy_cases sqrt data rw) as Hmr.
  destruct (mean_reversion_strategy sqrt data rw) as [sf_mr|] eqn:Emr; [|lia].
  destruct Hmr as (_ & Hmr & _).
  assert (∀ l, Forall (λ x, x ∈ [Fin 0; Fin 1]) l →
               Forall (λ x, x ∈ [Fin (-1); Fin 0; Fin 1]) l) as Htrend.
  { intros l Hl. eapply Forall_impl; [exact Hl|]. intros x.
    rewrite !elem_of_cons. tauto. }
  destruct (iloc_last_Forall (within (equity_bound M (length (Close data))))
              (combined data sf_ma (momentum_strategy data mw) sf_mr))
    as (x & Hx & Hb).
  - intros Hnil%(f_equal length). rewrite length_combined in Hnil.
    + by destruct (Close data).
    + by rewrite Hma, length_ma_signal.
    + apply length_momentum_signal.
    + by rewrite Hmr, length_mr_signal.
  - apply combined_within; apply backtest_within; try done;
      eapply within_range; try apply signal_values_within.
    + rewrite Hma. apply Htrend, ma_signal_range.
    + apply Htrend, momentum_signal_range.
    + rewrite Hmr. apply mr_signal_range.
  - exists (fneg x). split; [|by apply within_fneg].
    by rewrite (objective_intro _ _ _ _ _ _ _ _ _ _ Hw Ema Emr Hx).
Qed.

Lemma objective_finite64 sqrt M data p :
  Close data ≠ [] → in_range M data → windows_accepted p →
  ∃ v, objective sqrt data p = Ok v ∧
       within (equity_bound M (length (Close data))) v ∧ finite64 v.
Proof.
  intros Hne (HM & Hc & Hmax) (sw & lw & mw & rw & Hw & Hsw & Hlw & Hrw).
  destruct (objective_within sqrt M data p sw lw mw rw) as (v & Hv & Hb);
    try done.
  exists v. split; [done|]. split; [done|].
  eapply within_mono; [|exact Hb]. etrans; [|exact Hmax].
  pose proof (within_nonneg _ _ Hb) as H0. revert H0.
  generalize (equity_bound M (length (Close data))). intros b Hb0.
  replace b with (1 * b) at 1 by ring.
  rewrite !(Qcmult_comm _ b). apply Qc_mul_le_mono_nonneg; [done|by vm_compute].
Qed.

(** ** The program on the store

    Run on a store in which [data] names a price table, each function
    allocates its own frames, writes to those only, and returns what the
    function on values returns. *)

Lemma bind_run {A B} (m : prog A) (k : A → prog B) σ a σ' :
  m σ = (Ok a, σ') → (m ≫= k) σ = k a σ'.
Proof. intros H. unfold mbind, prog_bind. by rewrite H. Qed.

Lemma bind_raise {A B} (m : prog A) (k : A → prog B) σ e σ' :
  m σ = (Raise e, σ') → (m ≫= k) σ = (Raise e, σ').
Proof. intros H. unfold mbind, prog_bind. by rewrite H. Qed.

Lemma DataFrame_on_index_run σ r fr :
  σ !! r = Some fr →
  Heap.DataFrame_on_index r σ = (Ok (length σ), σ ++ [mkDataFrame (index fr) []]).
Proof.
  intros H. unfold Heap.DataFrame_on_index, Heap.deref, Heap.new, mbind, prog_bind.
  by rewrite (list_lookup_total_correct _ _ _ H).
Qed.

Lemma getitem_run σ r fr name c :
  σ !! r = Some fr → column name (columns fr) = Some c →
  Heap.getitem r name σ = (Ok c, σ).
Proof.
  intros H Hc. unfold Heap.getitem, Heap.deref, mbind, prog_bind.
  by rewrite (list_lookup_total_correct _ _ _ H), Hc.
Qed.

Lemma store_insert_last (σ : store) fr fr' :
  <[length σ := fr']> (σ ++ [fr]) = σ ++ [fr'].
Proof. by rewrite insert_app_r_alt, Nat.sub_diag by lia. Qed.

Lemma store_lookup_last (σ : store) fr : (σ ++ [fr]) !! length σ = Some fr.
Proof. by apply list_lookup_middle. Qed.

Lemma setitem_last σ fr name v :
  Heap.setitem (length σ) name v (σ ++ [fr])
  = (Ok (), σ ++ [mkDataFrame (index fr) (set_column name v (columns fr))]).
Proof.
  unfold Heap.setitem, Heap.deref, Heap.assign, mbind, prog_bind.
  by rewrite (list_lookup_total_correct _ _ _ (store_lookup_last σ fr)),
    store_insert_last.
Qed.

Lemma setitem_scalar_last σ fr name v :
  Heap.setitem_scalar (length σ) name v (σ ++ [fr])
  = (Ok (), σ ++ [mkDataFrame (index fr)
                    (set_column name (full (index fr) v) (columns fr))]).
Proof.
  unfold Heap.setitem_scalar, Heap.deref, Heap.assign, mbind, prog_bind.
  by rewrite (list_lookup_total_correct _ _ _ (store_lookup_last σ fr)),
    store_insert_last.
Qed.

Lemma loc_setitem_last σ fr mask name v :
  Heap.loc_setitem (length σ) mask name v (σ ++ [fr])
  = (Ok (), σ ++ [mkDataFrame (index fr)
                    (set_column name
                       (loc_set mask v
                          (default (full (index fr) NaN) (column name (columns fr))))
                       (columns fr))]).
Proof.
  unfold Heap.loc_setitem, Heap.deref, Heap.assign, mbind, prog_bind.
  by rewrite (list_lookup_total_correct _ _ _ (store_lookup_last σ fr)),
    store_insert_last.
Qed.

Lemma frame_fillna_run σ r fr v :
  σ !! r = Some fr →
  Heap.frame_fillna r v σ
  = (Ok (length σ),
     σ ++ [mkDataFrame (index fr) (prod_map id (fillna v) <$> columns fr)]).
Proof.
  intros H. unfold Heap.frame_fillna, Heap.deref, Heap.new, mbind, prog_bind.
  by rewrite (list_lookup_total_correct _ _ _ H).
Qed.

Ltac store_lookup :=
  first [eassumption
        |apply store_lookup_last
        |apply lookup_app_l_Some; store_lookup].

Ltac run_get :=
  erewrite bind_run;
  [|eapply getitem_run; [store_lookup|first [eassumption|reflexivity]]].

Ltac run_set :=
  erewrite bind_run;
  [|lazymatch goal with
    | |- Heap.setitem _ _ _ _ = _ => apply setitem_last
    | |- Heap.setitem_scalar _ _ _ _ = _ => apply setitem_scalar_last
    | |- Heap.loc_setitem _ _ _ _ _ = _ => apply loc_setitem_last
    end];
  cbn [index columns set_column column String.eqb Ascii.eqb Bool.eqb default].

Ltac run_new :=
  erewrite bind_run;
  [|first [eapply DataFrame_on_index_run|eapply frame_fillna_run]; store_lookup];
  cbn [index columns fmap list_fmap].

Ltac run_lift H :=
  rewrite H; erewrite bind_run by reflexivity.

Ltac run_fail H :=
  rewrite H; erewrite bind_raise by reflexivity.

Lemma moving_average_strategy_run σ data c sw lw sf :
  holds_prices σ data c →
  moving_average_strategy (mkPriceFrame c) sw lw = Ok sf →
  Heap.moving_average_strategy data sw lw σ
  = (Ok (length σ), σ ++ [signals_object (length c) sf]).
Proof.
  intros (fr & Hd & Hc & Hn). unfold moving_average_strategy. cbn [Close].
  destruct (rolling c sw (Some 1%Z)) as [rs|e] eqn:Es; [|done].
  destruct (rolling c lw (Some 1%Z)) as [rl|e] eqn:El; [|done].
  intros [= <-]. unfold Heap.moving_average_strategy.
  run_new. run_get. run_set. run_get. run_lift Es. run_set.
  run_get. run_lift El. run_set. run_set.
  run_get. run_get. run_set. run_get. run_get. run_set. run_get. run_set.
  by rewrite Hn.
Qed.

Lemma moving_average_strategy_raise σ data c sw lw e :
  holds_prices σ data c →
  moving_average_strategy (mkPriceFrame c) sw lw = Raise e →
  ∃ fr, Heap.moving_average_strategy data sw lw σ = (Raise e, σ ++ [fr]).
Proof.
  intros (fr & Hd & Hc & Hn). unfold moving_average_strategy. cbn [Close].
  unfold Heap.moving_average_strategy.
  run_new. run_get. run_set. run_get.
  destruct (rolling c sw (Some 1%Z)) as [rs|e'] eqn:Es.
  2:{ intros [= ->]. erewrite bind_raise by reflexivity. eauto. }
  erewrite bind_run by reflexivity. run_set. run_get.
  destruct (rolling c lw (Some 1%Z)) as [rl|e'] eqn:El; [done|].
  intros [= ->]. erewrite bind_raise by reflexivity. eauto.
Qed.

Lemma length_momentum_cond (c : Series) w :
  length (s_gtk (s_sub c (shift w c)) (Fin 0)) = length c.
Proof. unfold s_gtk, s_sub. rewrite length_fmap, length_zip_with, length_shift. lia. Qed.

Lemma momentum_strategy_run σ data c w :
  holds_prices σ data c →
  Heap.momentum_strategy data w σ
  = (Ok (length σ),
     σ ++ [signals_object (length c) (momentum_strategy (mkPriceFrame c) w)]).
Proof.
  intros (fr & Hd & Hc & Hn). unfold Heap.momentum_strategy.
  run_new. run_get. run_set. run_get. run_get. run_set. run_get. run_set.
  run_get. run_set.
  unfold Heap.np_where_scalar. rewrite length_momentum_cond, Hn. done.
Qed.

Lemma length_z_score_cond sqrt (c : Series) (r : Rolling) (f : float → bool) :
  roll_obj r = c →
  length (f <$> s_div (s_sub c (roll_mean r)) (roll_std sqrt r)) = length c.
Proof.
  intros Hr. unfold s_div, s_sub.
  rewrite length_fmap, !length_zip_with, length_roll_mean, length_roll_std, Hr.
  lia.
Qed.

Lemma mean_reversion_strategy_run sqrt σ data c w sf :
  holds_prices σ data c →
  mean_reversion_strategy sqrt (mkPriceFrame c) w = Ok sf →
  Heap.mean_reversion_strategy sqrt data w σ
  = (Ok (length σ), σ ++ [signals_object (length c) sf]).
Proof.
  intros (fr & Hd & Hc & Hn). unfold mean_reversion_strategy. cbn [Close].
  pose proof (rolling_default c w) as Er.
  destruct (0 <=? w)%Z; rewrite Er; [|done].
  intros [= <-]. unfold Heap.mean_reversion_strategy.
  run_new. run_get. run_set. run_get. run_lift Er. run_set.
  run_get. run_lift Er. run_set. run_get. run_get. run_get. run_set.
  run_get. run_get. run_set. run_get. run_set.
  unfold Heap.np_where_scalar, s_ltk, s_gtk.
  rewrite !(length_z_score_cond sqrt c) by done. by rewrite Hn.
Qed.

Lemma mean_reversion_strategy_raise sqrt σ data c w e :
  holds_prices σ data c →
  mean_reversion_strategy sqrt (mkPriceFrame c) w = Raise e →
  ∃ fr, Heap.mean_reversion_strategy sqrt data w σ = (Raise e, σ ++ [fr]).
Proof.
  intros (fr & Hd & Hc & Hn). unfold mean_reversion_strategy. cbn [Close].
  pose proof (rolling_default c w) as Er.
  destruct (0 <=? w)%Z; rewrite Er; [done|].
  intros [= <-]. unfold Heap.mean_reversion_strategy.
  run_new. run_get. run_set. run_get. run_fail Er. eauto.
Qed.

Lemma holds_prices_prefix σ σ' data c :
  holds_prices σ data c → σ `prefix_of` σ' → holds_prices σ' data c.
Proof.
  intros (fr & Hd & Hc) Hp. exists fr. split; [|done].
  by eapply prefix_lookup_Some.
Qed.

Lemma backtest_strategy_run σ data signals c sfr sf :
  holds_prices σ data c →
  σ !! signals = Some sfr →
  column "signal" (columns sfr) = Some (signal sf) →
  ∃ l σ',
    Heap.backtest_strategy data signals σ = (Ok l, σ') ∧
    σ `prefix_of` σ' ∧
    σ' !! l
    = Some (portfolio_object (index sfr)
              (backtest_strategy (mkPriceFrame c) sf)).
Proof.
  intros (fr & Hd & Hc & Hn) Hs Hsig. unfold Heap.backtest_strategy.
  run_new. run_new. run_get. run_set. run_new. run_get. run_get. run_set.
  run_get. run_get. run_set. run_get. run_get. run_set.
  eexists _, _. split; [reflexivity|]. split.
  - rewrite <- !app_assoc. by apply prefix_app_r.
  - apply store_lookup_last.
Qed.

Lemma moving_average_signal_column data sw lw sf n :
  moving_average_strategy data sw lw = Ok sf →
  column "signal" (columns (signals_object n sf)) = Some (signal sf).
Proof.
  unfold moving_average_strategy.
  destruct (rolling _ sw _); [|done]. destruct (rolling _ lw _); [|done].
  by intros [= <-].
Qed.

Lemma momentum_signal_column data w n :
  column "signal" (columns (signals_object n (momentum_strategy data w)))
  = Some (signal (momentum_strategy data w)).
Proof. done. Qed.

Lemma mean_reversion_signal_column sqrt data w sf n :
  mean_reversion_strategy sqrt data w = Ok sf →
  column "signal" (columns (signals_object n sf)) = Some (signal sf).
Proof.
  unfold mean_reversion_strategy.
  destruct (rolling _ w _); [|done]. by intros [= <-].
Qed.

Lemma objective_run sqrt σ data c p :
  holds_prices σ data c →
  ∃ σ', Heap.objective sqrt data p σ = (objective sqrt (mkPriceFrame c) p, σ') ∧
        σ `prefix_of` σ'.
Proof.
  intros Hd. unfold Heap.objective, objective.
  destruct (int (short_window p)) as [sw|e] eqn:Esw.
  2:{ erewrite bind_raise by reflexivity. by eexists. }
  erewrite bind_run by reflexivity.
  destruct (int (long_window p)) as [lw|e] eqn:Elw.
  2:{ erewrite bind_raise by reflexivity. by eexists. }
  erewrite bind_run by reflexivity. rewrite !result_bind_Ok.
  destruct (moving_average_strategy (mkPriceFrame c) sw lw) as [sf_ma|e] eqn:Ema.
  2:{ destruct (moving_average_strategy_raise σ data c sw lw e Hd Ema) as [fr Hr].
      erewrite bind_raise by exact Hr. eexists. split; [done|].
      by apply prefix_app_r. }
  erewrite bind_run by (by apply moving_average_strategy_run).
  set (σ1 := σ ++ [signals_object (length c) sf_ma]).
  assert (σ `prefix_of` σ1) as P1 by (by apply prefix_app_r).
  assert (σ1 !! length σ = Some (signals_object (length c) sf_ma)) as Lma
    by apply store_lookup_last.
  pose proof (holds_prices_prefix _ _ _ _ Hd P1) as Hd1.
  destruct (int (momentum_window p)) as [mw|e] eqn:Emw.
  2:{ erewrite bind_raise by reflexivity. by eexists. }
  erewrite bind_run by reflexivity. rewrite !result_bind_Ok.
  erewrite bind_run by (by apply momentum_strategy_run).
  set (sf_mo := momentum_strategy (mkPriceFrame c) mw).
  set (σ2 := σ1 ++ [signals_object (length c) sf_mo]).
  assert (σ1 `prefix_of` σ2) as P2 by (by apply prefix_app_r).
  assert (σ2 !! length σ1 = Some (signals_object (length c) sf_mo)) as Lmo
    by apply store_lookup_last.
  pose proof (holds_prices_prefix _ _ _ _ Hd1 P2) as Hd2.
  destruct (int (mean_window p)) as [rw|e] eqn:Erw.
  2:{ erewrite bind_raise by reflexivity. eexists. split; [done|]. by etrans. }
  erewrite bind_run by reflexivity. rewrite !result_bind_Ok.
  destruct (mean_reversion_strategy sqrt (mkPriceFrame c) rw) as [sf_mr|e] eqn:Emr.
  2:{ destruct (mean_reversion_strategy_raise sqrt σ2 data c rw e Hd2 Emr)
        as [fr Hr].
      erewrite bind_raise by exact Hr. eexists. split; [done|].
      etrans; [exact P1|]. etrans; [exact P2|]. by apply prefix_app_r. }
  erewrite bind_run by (by apply mean_reversion_strategy_run).
  set (σ3 := σ2 ++ [signals_object (length c) sf_mr]).
  assert (σ2 `prefix_of` σ3) as P3 by (by apply prefix_app_r).
  assert (σ3 !! length σ2 = Some (signals_object (length c) sf_mr)) as Lmr
    by apply store_lookup_last.
  pose proof (holds_prices_prefix _ _ _ _ Hd2 P3) as Hd3.
  destruct (backtest_strategy_run σ3 data (length σ) c
              (signals_object (length c) sf_ma) sf_ma Hd3)
    as (l1 & σ4 & R1 & P4 & L1).
  { eapply prefix_lookup_Some; [|exact P3].
    eapply prefix_lookup_Some; [exact Lma|exact P2]. }
  { by eapply moving_average_signal_column. }
  erewrite bind_run by exact R1.
  pose proof (holds_prices_prefix _ _ _ _ Hd3 P4) as Hd4.
  destruct (backtest_strategy_run σ4 data (length σ1) c
              (signals_object (length c) sf_mo) sf_mo Hd4)
    as (l2 & σ5 & R2 & P5 & L2).
  { eapply prefix_lookup_Some; [|exact P4].
    eapply prefix_lookup_Some; [exact Lmo|exact P3]. }
  { apply momentum_signal_column. }
  erewrite bind_run by exact R2.
  pose proof (holds_prices_prefix _ _ _ _ Hd4 P5) as Hd5.
  destruct (backtest_strategy_run σ5 data (length σ2) c
              (signals_object (length c) sf_mr) sf_mr Hd5)
    as (l3 & σ6 & R3 & P6 & L3).
  { eapply prefix_lookup_Some; [|exact P5].
    eapply prefix_lookup_Some; [exact Lmr|exact P4]. }
  { by eapply mean_reversion_signal_column. }
  erewrite bind_run by exact R3.
  erewrite bind_run.
  2:{ eapply getitem_run;
        [eapply prefix_lookup_Some; [|exact P6];
         eapply prefix_lookup_Some; [exact L1|exact P5]
        |reflexivity]. }
  erewrite bind_run.
  2:{ eapply getitem_run;
        [eapply prefix_lookup_Some; [exact L2|exact P6]|reflexivity]. }
  erewrite bind_run by (eapply getitem_run; [exact L3|reflexivity]).
  cbn [portfolio_object columns column String.eqb Ascii.eqb Bool.eqb].
  cbv zeta.
  exists σ6. split.
  - rewrite result_bind_Ok. destruct (iloc_last _) as [x|e] eqn:Ex.
    + by erewrite bind_run by reflexivity.
    + by erewrite bind_raise by reflexivity.
  - etrans; [exact P1|]. etrans; [exact P2|]. etrans; [exact P3|].
    etrans; [exact P4|]. by etrans.
Qed.

Lemma evaluations_run sqrt σ data c trial :
  holds_prices σ data c →
  (Heap.evaluations sqrt data trial σ).1
  = objective sqrt (mkPriceFrame c) <$> trial ∧
  σ `prefix_of` (Heap.evaluations sqrt data trial σ).2.
Proof.
  revert σ. induction trial as [|p trial IH]; intros σ Hd; [done|].
  cbn [Heap.evaluations].
  destruct (objective_run sqrt σ data c p Hd) as (σ' & -> & Hp).
  destruct (IH σ' (holds_prices_prefix _ _ _ _ Hd Hp)) as [Hr Hp'].
  destruct (Heap.evaluations sqrt data trial σ') as [rs σ''].
  cbn [fst snd] in *. split; [by rewrite Hr|by etrans].
Qed.

(** * The claims *)




(** C3 (as amended).  For every price frame and every aligned signal
    frame whose [signal[0]] is 0, the equity at the first bar is the
    initial capital 10000. *)
Theorem first_equity_is_initial_capital data signals p0 :
  signal signals !! 0%nat = Some (Fin 0) → Close data !! 0%nat = Some p0 →
  total (backtest_strategy data signals) !! 0%nat = Some (of_Z 10000).
Proof. apply backtest_total_flat_first_bar. Qed.

Lemma first_equity_is_initial_capital_witness :
  total (backtest_strategy rising10 (momentum_strategy rising10 3)) !! 0%nat
  = Some (of_Z 10000).
Proof.
  apply (first_equity_is_initial_capital rising10 (momentum_strategy rising10 3)
           (of_Z 100)).
  - reflexivity.
  - reflexivity.
Defined.

(** C3 as stated fails: [positions[0] = 0] does not make the first equity
    10000.  The frame below has [positions[0] = 0] and [signal[0] = 1]; its
    holdings are valued at the first bar while no cash was spent on them. *)
Lemma first_equity_counterexample :
  positions long_from_start !! 0%nat = Some (Fin 0) ∧
  length (signal long_from_start) = length (Close one_bar) ∧
  total (backtest_strategy one_bar long_from_start) !! 0%nat
  = Some (of_Z 110000) ∧
  total (backtest_strategy one_bar long_from_start) !! 0%nat
  ≠ Some (of_Z 10000).
Proof.
  split; [reflexivity|]. split; [reflexivity|].
  split; compute_done.
Qed.

(** C5.  On the ten closes 100, 101, ..., 109 the momentum strategy with
    window 3 gives signal 0 at bars 0..2 and 1 from bar 3 on, and its
    [positions] column has exactly one entry +1 and no entry -1. *)
Theorem momentum_rising10 :
  let sf := momentum_strategy rising10 3 in
  signal sf = replicate 3 (Fin 0) ++ replicate 7 (Fin 1) ∧
  length (filter (λ x, x = Fin 1) (positions sf)) = 1%nat ∧
  length (filter (λ x, x = Fin (-1)) (positions sf)) = 0%nat.
Proof. cbv zeta. compute_done. Qed.

(** C7.  For every price frame and every window: the moving-average
    strategy returns a frame exactly when both windows are at least 1, and
    its signal cells are 0 or 1; the momentum strategy always returns a
    frame whose signal cells are 0 or 1; the mean-reversion strategy
    returns a frame exactly when its window is not negative, and its signal
    cells are -1, 0 or 1.  Each signal column has one cell per bar. *)
Theorem signal_ranges sqrt data (sw lw mw rw : Z) :
  match moving_average_strategy data sw lw with
  | Ok sf => (1 ≤ sw ∧ 1 ≤ lw)%Z ∧
             length (signal sf) = length (Close data) ∧
             Forall (λ x, x ∈ [Fin 0; Fin 1]) (signal sf)
  | Raise e => e = ValueError ∧ (sw < 1 ∨ lw < 1)%Z
  end ∧
  (length (signal (momentum_strategy data mw)) = length (Close data) ∧
   Forall (λ x, x ∈ [Fin 0; Fin 1]) (signal (momentum_strategy data mw))) ∧
  match mean_reversion_strategy sqrt data rw with
  | Ok sf => (0 ≤ rw)%Z ∧
             length (signal sf) = length (Close data) ∧
             Forall (λ x, x ∈ [Fin (-1); Fin 0; Fin 1]) (signal sf)
  | Raise e => e = ValueError ∧ (rw < 0)%Z
  end.
Proof.
  split; [|split].
  - pose proof (moving_average_strategy_cases data sw lw) as H.
    destruct (moving_average_strategy data sw lw) as [sf|e]; [|done].
    destruct H as (Hw & -> & _).
    auto using length_ma_signal, ma_signal_range.
  - auto using length_momentum_signal, momentum_signal_range.
  - pose proof (mean_reversion_strategy_cases sqrt data rw) as H.
    destruct (mean_reversion_strategy sqrt data rw) as [sf|e]; [|done].
    destruct H as (Hw & -> & _).
    auto using length_mr_signal, mr_signal_range.
Qed.

(** C8.  For every price frame and aligned signal frame, at every bar [t]
    the portfolio has a cash cell and a holdings cell, and its equity cell
    is their sum. *)
Theorem accounting_identity data signals (t : nat) :
  length (signal signals) = length (Close data) →
  (t < length (Close data))%nat →
  ∃ c h, cash (backtest_strategy data signals) !! t = Some c ∧
         holdings (backtest_strategy data signals) !! t = Some h ∧
         total (backtest_strategy data signals) !! t = Some (fadd c h).
Proof.
  intros Hlen Ht.
  destruct (lookup_lt_is_Some_2 (cash (backtest_strategy data signals)) t)
    as [c Hc]; [unfold backtest_strategy; cbn [cash]; series_length|].
  destruct (lookup_lt_is_Some_2 (holdings (backtest_strategy data signals)) t)
    as [h Hh]; [unfold backtest_strategy; cbn [holdings]; series_length|].
  exists c, h. split; [done|]. split; [done|].
  change (total (backtest_strategy data signals))
    with (s_add (cash (backtest_strategy data signals))
                (holdings (backtest_strategy data signals))).
  unfold s_add. by rewrite lookup_zip_with, Hc, Hh.
Qed.

Lemma accounting_identity_witness :
  ∃ c h,
    cash (backtest_strategy up_down3 (momentum_strategy up_down3 1)) !! 2%nat
    = Some c ∧
    holdings (backtest_strategy up_down3 (momentum_strategy up_down3 1)) !! 2%nat
    = Some h ∧
    total (backtest_strategy up_down3 (momentum_strategy up_down3 1)) !! 2%nat
    = Some (fadd c h).
Proof.
  apply (accounting_identity up_down3 (momentum_strategy up_down3 1) 2).
  - reflexivity.
  - simpl. lia.
Defined.

(** C9.  Started on any store in which [data] names a price table, in any
    run of evaluations of the objective, each on the store the previous one
    left, two evaluations at the same parameter vector return the same
    result, whatever was evaluated in between; and every object that was in
    the store before the run, the captured price table among them, is
    found unchanged after it. *)
Theorem objective_deterministic sqrt (σ : store) (data : ref) (c : Series)
    trial (i j : nat) p ri rj :
  holds_prices σ data c →
  trial !! i = Some p → trial !! j = Some p →
  (Heap.evaluations sqrt data trial σ).1 !! i = Some ri →
  (Heap.evaluations sqrt data trial σ).1 !! j = Some rj →
  ri = rj ∧
  ∀ (r : ref) (o : DataFrame),
    σ !! r = Some o → (Heap.evaluations sqrt data trial σ).2 !! r = Some o.
Proof.
  intros Hd Hi Hj.
  destruct (evaluations_run sqrt σ data c trial Hd) as [-> Hp].
  rewrite !list_lookup_fmap, Hi, Hj. intros [= <-] [= <-]. split; [done|].
  intros r o Hr. by eapply prefix_lookup_Some.
Qed.

Lemma objective_deterministic_witness :
  Ok (of_Z (-10000)) = Ok (of_Z (-10000)) ∧
  ∀ (r : ref) (o : DataFrame),
    up_down3_store !! r = Some o →
    (Heap.evaluations Qc_sqrt_floor 0%nat
       [x0; mkParams (of_Z 1) (of_Z 2) (of_Z 1) (of_Z 3); x0]
       up_down3_store).2 !! r = Some o.
Proof.
  apply (objective_deterministic Qc_sqrt_floor up_down3_store 0%nat
           (Close up_down3)
           [x0; mkParams (of_Z 1) (of_Z 2) (of_Z 1) (of_Z 3); x0] 0 2 x0).
  - eexists. split; [reflexivity|]. split; reflexivity.
  - reflexivity.
  - reflexivity.
  - compute_done.
  - compute_done.
Defined.

(** C10.  For every non-empty price frame and windows of at least 1, each
    of the three strategies returns a frame with [signal[0] = 0] and
    [positions[0] = 0], and the backtest of that frame has
    [total[0] = 10000]. *)
Theorem strategies_start_flat sqrt data (sw lw mw rw : Z) :
  Close data ≠ [] →
  (1 ≤ sw)%Z → (1 ≤ lw)%Z → (1 ≤ mw)%Z → (1 ≤ rw)%Z →
  (∃ sf, moving_average_strategy data sw lw = Ok sf ∧ starts_flat data sf) ∧
  starts_flat data (momentum_strategy data mw) ∧
  (∃ sf, mean_reversion_strategy sqrt data rw = Ok sf ∧ starts_flat data sf).
Proof.
  intros Hne Hsw Hlw Hmw Hrw.
  assert (∃ p0, Close data !! 0%nat = Some p0) as [p0 Hp0]
    by (destruct (Close data); [done|eauto]).
  assert (∀ sf, signal sf !! 0%nat = Some (Fin 0) →
                positions sf = fillna (Fin 0) (diff (signal sf)) →
                starts_flat data sf) as Hflat.
  { intros sf Hs Hpos. split; [done|]. split.
    - rewrite Hpos. apply positions_first. by destruct (signal sf).
    - by apply (backtest_total_flat_first_bar data sf p0). }
  split; [|split].
  - pose proof (moving_average_strategy_cases data sw lw) as H.
    destruct (moving_average_strategy data sw lw) as [sf|e]; [|lia].
    destruct H as (_ & Hs & Hpos). exists sf. split; [done|].
    apply Hflat; [|done]. rewrite Hs. by apply ma_signal_first.
  - apply Hflat; [by apply momentum_signal_first|done].
  - pose proof (mean_reversion_strategy_cases sqrt data rw) as H.
    destruct (mean_reversion_strategy sqrt data rw) as [sf|e]; [|lia].
    destruct H as (_ & Hs & Hpos & _). exists sf. split; [done|].
    apply Hflat; [|done]. rewrite Hs. apply mr_signal_undefined; [|by right].
    destruct (Close data); simpl; [done|lia].
Qed.

Lemma strategies_start_flat_witness :
  (∃ sf, moving_average_strategy rising10 2 4 = Ok sf ∧ starts_flat rising10 sf) ∧
  starts_flat rising10 (momentum_strategy rising10 3) ∧
  (∃ sf, mean_reversion_strategy Qc_sqrt_floor rising10 1 = Ok sf
         ∧ starts_flat rising10 sf).
Proof.
  apply (strategies_start_flat Qc_sqrt_floor rising10 2 4 3 1).
  - discriminate.
  - lia.
  - lia.
  - lia.
  - lia.
Defined.

(** C6.  On a series that is constant at 100, of any length [n], the
    mean-reversion strategy with window 5 returns a frame (no exception):
    where the window is full the rolling standard deviation is 0, the
    z-score is NaN at every bar, the signal is 0 at every bar, and the
    backtest of that frame has equity 10000 at every bar. *)
Theorem flat_mean_reversion sqrt (n : nat) :
  sqrt 0 = 0 →
  ∃ sf std z_score,
    mean_reversion_strategy sqrt (flat n) 5 = Ok sf ∧
    indicators sf !! 1%nat = Some ("std"%string, std) ∧
    (∀ t, (4 ≤ t < n)%nat → std !! t = Some (Fin 0)) ∧
    indicators sf !! 2%nat = Some ("z_score"%string, z_score) ∧
    z_score = replicate n NaN ∧
    signal sf = replicate n (Fin 0) ∧
    total (backtest_strategy (flat n) sf) = replicate n (of_Z 10000).
Proof.
  intros Hsqrt.
  pose proof (mean_reversion_strategy_cases sqrt (flat n) 5) as H.
  destruct (mean_reversion_strategy sqrt (flat n) 5) as [sf|e]; [|lia].
  destruct H as (_ & Hs & _ & Hstd & Hz).
  cbn [flat Close] in Hs, Hstd, Hz. unfold of_Z in Hs, Hstd, Hz.
  exists sf, (mr_std sqrt (replicate n (Fin (Qc_of_Z 100))) 5),
            (mr_z_score sqrt (replicate n (Fin (Qc_of_Z 100))) 5).
  split; [done|]. split; [done|]. split; [|split; [done|split; [|split]]].
  - intros t [Ht4 Htn]. unfold mr_std.
    rewrite roll_std_lookup by (cbn [roll_obj]; by rewrite length_replicate).
    rewrite observations_flat by done. cbn [roll_min_periods].
    change (Z.to_nat 5) with 5%nat.
    replace (S t `min` 5)%nat with 5%nat by lia.
    rewrite bool_decide_eq_true_2 by (rewrite length_replicate; lia).
    rewrite Qc_var_replicate. unfold zsqrt.
    by rewrite Qc_ltb_irrefl, Hsqrt.
  - by apply mr_z_score_flat.
  - rewrite Hs. apply mr_signal_flat.
  - rewrite <- (length_replicate n (of_Z 100)) at 2.
    apply (backtest_flat_signal (flat n) sf).
    cbn [flat Close]. rewrite length_replicate, Hs. apply mr_signal_flat.
Qed.

Lemma flat_mean_reversion_witness :
  ∃ sf std z_score,
    mean_reversion_strategy Qc_sqrt_floor (flat 8) 5 = Ok sf ∧
    indicators sf !! 1%nat = Some ("std"%string, std) ∧
    (∀ t, (4 ≤ t < 8)%nat → std !! t = Some (Fin 0)) ∧
    indicators sf !! 2%nat = Some ("z_score"%string, z_score) ∧
    z_score = replicate 8 NaN ∧
    signal sf = replicate 8 (Fin 0) ∧
    total (backtest_strategy (flat 8) sf) = replicate 8 (of_Z 10000).
Proof.
  apply (flat_mean_reversion Qc_sqrt_floor 8).
  vm_compute. reflexivity.
Defined.

(** C4 (as amended).  For every non-empty price frame whose closes are
    missing or of a magnitude that keeps the arithmetic inside the float64
    range ([in_range]), and every parameter vector whose truncated windows
    are windows that [rolling] accepts, if some truncated window equals or
    exceeds the number of bars, the objective raises no exception and
    returns a number of the float64 range (neither NaN nor an infinity). *)
Theorem objective_finite_beyond_length sqrt M data params :
  Close data ≠ [] → in_range M data →
  windows_accepted params → window_exceeds data params →
  ∃ v, objective sqrt data params = Ok v ∧ finite64 v.
Proof.
  intros Hne Hr Hw _.
  destruct (objective_finite64 sqrt M data params Hne Hr Hw)
    as (v & Hv & _ & Hfin).
  by exists v.
Qed.

Lemma objective_finite_beyond_length_witness :
  ∃ v, objective Qc_sqrt_floor up_down3 x0 = Ok v ∧ finite64 v.
Proof.
  apply (objective_finite_beyond_length Qc_sqrt_floor (Qc_of_Z 101) up_down3 x0).
  - discriminate.
  - split; [by vm_compute|]. split; [|by vm_compute].
    repeat (constructor;
            [left; eexists; (split; [reflexivity|]); split; by vm_compute|]).
    constructor.
  - exists 30%Z, 90%Z, 20%Z, 30%Z. split; [reflexivity|lia].
  - exists 30%Z, 90%Z, 20%Z, 30%Z. split; [reflexivity|simpl; lia].
Defined.

(** C4 as stated fails: on the three bars 100, 101, 90 the trial point
    (0.5, 90, 20, 30) has windows that exceed the series, its short window
    truncates to 0, and [rolling] refuses a window below [min_periods = 1]:
    the objective raises [ValueError]. *)
Lemma objective_raises_counterexample :
  Close up_down3 ≠ [] ∧
  window_exceeds up_down3 half_window ∧
  objective Qc_sqrt_floor up_down3 half_window = Raise ValueError.
Proof.
  split; [discriminate|]. split; [|reflexivity].
  exists 0%Z, 90%Z, 20%Z, 30%Z. split; [reflexivity|simpl; lia].
Qed.

(** C2 (as amended).  For every non-empty price frame whose closes are
    missing or of a magnitude that keeps the arithmetic inside the float64
    range ([in_range]), and every parameter vector whose truncated windows
    [rolling] accepts, the objective returns a number of the float64 range.
    Where the momentum window is at least the number of bars, or the
    mean-reversion window exceeds it, the undefined indicator gives signal 0
    at every bar and the equity of that strategy is 10000 at every bar; that
    equity enters the average as it is and no penalty value is
    substituted. *)
Theorem objective_window_exceeds sqrt M data params (sw lw mw rw : Z) :
  Close data ≠ [] → in_range M data →
  windows params = Ok (sw, lw, mw, rw) →
  (1 ≤ sw)%Z → (1 ≤ lw)%Z → (0 ≤ rw)%Z →
  let n := length (Close data) in
  (∃ v, objective sqrt data params = Ok v ∧ finite64 v) ∧
  ((Z.of_nat n ≤ mw)%Z →
    signal (momentum_strategy data mw) = replicate n (Fin 0) ∧
    total (backtest_strategy data (momentum_strategy data mw))
    = replicate n (of_Z 10000)) ∧
  ((Z.of_nat n < rw)%Z →
    ∃ sf, mean_reversion_strategy sqrt data rw = Ok sf ∧
          signal sf = replicate n (Fin 0) ∧
          total (backtest_strategy data sf) = replicate n (of_Z 10000)).
Proof.
  intros Hne Hr Hw Hsw Hlw Hrw n. split; [|split].
  - destruct (objective_finite64 sqrt M data params Hne Hr)
      as (v & Hv & _ & Hfin); [by exists sw, lw, mw, rw|].
    by exists v.
  - intros Hbig. pose proof (momentum_signal_exceeds data mw Hbig) as Hs.
    split; [done|]. by apply backtest_flat_signal.
  - intros Hbig.
    pose proof (mean_reversion_strategy_cases sqrt data rw) as H.
    destruct (mean_reversion_strategy sqrt data rw) as [sf|e]; [|lia].
    destruct H as (_ & Hs & _). exists sf.
    rewrite mr_signal_exceeds in Hs by done.
    split; [done|]. split; [done|]. by apply backtest_flat_signal.
Qed.

Lemma objective_window_exceeds_witness :
  (∃ v, objective Qc_sqrt_floor up_down3 x0 = Ok v ∧ finite64 v) ∧
  ((3 ≤ 20)%Z →
    signal (momentum_strategy up_down3 20) = replicate 3 (Fin 0) ∧
    total (backtest_strategy up_down3 (momentum_strategy up_down3 20))
    = replicate 3 (of_Z 10000)) ∧
  ((3 < 30)%Z →
    ∃ sf, mean_reversion_strategy Qc_sqrt_floor up_down3 30 = Ok sf ∧
          signal sf = replicate 3 (Fin 0) ∧
          total (backtest_strategy up_down3 sf) = replicate 3 (of_Z 10000)).
Proof.
  apply (objective_window_exceeds Qc_sqrt_floor (Qc_of_Z 101) up_down3 x0
           30 90 20 30).
  - discriminate.
  - split; [by vm_compute|]. split; [|by vm_compute].
    repeat (constructor;
            [left; eexists; (split; [reflexivity|]); split; by vm_compute|]).
    constructor.
  - reflexivity.
  - lia.
  - lia.
  - lia.
Defined.

(** C2 as stated fails: on three bars at 100 every window of the starting
    point (30, 90, 20, 30) exceeds the series, the objective there is
    -10000, and no trial point scores lower; the value is the minimum of
    the objective, not a penalty. *)
Lemma penalty_counterexample :
  window_exceeds (flat 3) x0 ∧
  objective Qc_sqrt_floor (flat 3) x0 = Ok (of_Z (-10000)) ∧
  ¬ penalised (objective Qc_sqrt_floor (flat 3)) x0.
Proof.
  split; [|split].
  - exists 30%Z, 90%Z, 20%Z, 30%Z. split; [reflexivity|simpl; lia].
  - compute_done.
  - intros (v & Hv & p' & v' & Hv' & Hlt).
    apply objective_flat in Hv, Hv'. rewrite <- Hv' in Hv.
    injection Hv as ->. by apply Qclt_not_eq in Hlt.
Qed.

(** On the bars 100, 101, 90 the starting point, whose windows all exceed
    the series, scores -10000, strictly lower than the point (1, 2, 1, 2)
    whose windows all fit: an evaluation with undefined indicators can beat a
    regular one. *)
Lemma exceeding_windows_score_lower :
  ∃ v v', objective Qc_sqrt_floor up_down3 x0 = Ok (Fin v) ∧
          objective Qc_sqrt_floor up_down3
            (mkParams (of_Z 1) (of_Z 2) (of_Z 1) (of_Z 2)) = Ok (Fin v') ∧
          v = Qc_of_Z (-10000) ∧ v' = Q2Qc (-8000 # 3) ∧ v < v'.
Proof.
  exists (Qc_of_Z (-10000)), (Q2Qc (-8000 # 3)).
  split; [compute_done|]. split; [compute_done|]. by repeat split.
Qed.

(** * Further properties of the code *)

(** ** Backtest: equity from bar to bar *)

Lemma holdings_numbers_lookup data signals (s p : list Qc) (t : nat) :
  signal signals = Fin <$> s → Close data = Fin <$> p →
  length s = length p → (t < length p)%nat →
  holdings (backtest_strategy data signals) !! t
  = Some (Fin (position_at s t * (p !!! t))).
Proof.
  intros Hs Hp Hlen Ht. unfold backtest_strategy; cbn [holdings].
  rewrite Hs, Hp, lookup_fillna. unfold s_mul, s_scale.
  rewrite lookup_zip_with, !list_lookup_fmap.
  rewrite !list_lookup_lookup_total_lt by lia. done.
Qed.

Lemma Qc_sum_seq_snoc (f : nat → Qc) m :
  Qc_sum (f <$> seq 0 (S m)) = Qc_sum (f <$> seq 0 m) + f m.
Proof.
  rewrite seq_S, fmap_app. simpl.
  induction (f <$> seq 0 m) as [|x l IH]; simpl; [ring|]. rewrite IH. ring.
Qed.

Lemma total_step_numbers data signals (s p : list Qc) (t : nat) :
  signal signals = Fin <$> s → Close data = Fin <$> p →
  length s = length p → (S t < length p)%nat →
  ∃ e0 e1,
    total (backtest_strategy data signals) !! t = Some (Fin e0) ∧
    total (backtest_strategy data signals) !! S t = Some (Fin e1) ∧
    e1 = e0 + position_at s t * (p !!! S t - p !!! t).
Proof.
  intros Hs Hp Hlen Ht.
  assert (∀ k, (k < length p)%nat →
            total (backtest_strategy data signals) !! k
            = Some (Fin (closed_form_cash (position_at s 0) s p k
                         + position_at s k * (p !!! k)))) as Htot.
  { intros k Hk.
    change (total (backtest_strategy data signals))
      with (s_add (cash (backtest_strategy data signals))
                  (holdings (backtest_strategy data signals))).
    unfold s_add.
    by rewrite lookup_zip_with,
      (cash_closed_form_numbers data signals s p k Hs Hp Hlen Hk),
      (holdings_numbers_lookup data signals s p k Hs Hp Hlen Hk). }
  eexists _, _. split; [apply Htot; lia|]. split; [apply Htot; lia|].
  unfold closed_form_cash. rewrite (Qc_sum_seq_snoc _ (S t)).
  unfold position_change. ring.
Qed.

Lemma integer_fadd u v : integer u → integer v → integer (fadd u v).
Proof. intros [a ->] [b ->]. exists (a + b)%Z. unfold of_Z. simpl. by rewrite Z2Qc_inj_add. Qed.

Lemma integer_fsub u v : integer u → integer v → integer (fsub u v).
Proof.
  intros [a ->] [b ->]. exists (a - b)%Z. unfold of_Z. simpl.
  by rewrite Z2Qc_inj_sub.
Qed.

Lemma integer_fmul u v : integer u → integer v → integer (fmul u v).
Proof. intros [a ->] [b ->]. exists (a * b)%Z. unfold of_Z. simpl. by rewrite Z2Qc_inj_mul. Qed.

Lemma integer_zero : integer (Fin 0).
Proof. exists 0%Z. unfold of_Z. by rewrite Z2Qc_inj_0. Qed.

Lemma backtest_total_integers data signals :
  Forall integer (signal signals) → Forall integer (Close data) →
  Forall integer (total (backtest_strategy data signals)).
Proof.
  intros Hs Hc.
  destruct (backtest_columns integer integer) with (data := data)
    (signals := signals) as (Hh & spent & Hcash & Hspent & _);
    [exact integer_zero|exact integer_fadd|exact integer_fsub| | |done|done|].
  { intros u Hu. apply integer_fmul; [done|by exists 1000%Z]. }
  { intros u c Hu Hc'. left. by apply integer_fmul. }
  change (total (backtest_strategy data signals))
    with (s_add (cash (backtest_strategy data signals))
                (holdings (backtest_strategy data signals))).
  rewrite Hcash. eapply Forall_zip_with_lr; [|apply Forall_fmap|exact Hh].
  - apply integer_fadd.
  - eapply Forall_impl; [exact Hspent|]. intros x Hx.
    apply (integer_fsub initial_capital x); [by exists 10000%Z|done].
Qed.

Lemma within_of_Z (K z : Z) : (- K ≤ z ≤ K)%Z → within (Qc_of_Z K) (of_Z z).
Proof.
  intros [H1 H2]. exists (Qc_of_Z z). split; [done|].
  rewrite <- Z2Qc_inj_opp. split; by apply (proj1 (Z2Qc_inj_le _ _)).
Qed.

Lemma of_Z_within (K z : Z) : within (Qc_of_Z K) (of_Z z) → (- K ≤ z ≤ K)%Z.
Proof.
  intros (q & [= <-] & H1 & H2). rewrite <- Z2Qc_inj_opp in H1.
  split; by apply Z2Qc_inj_le.
Qed.

Lemma equity_bound_of_Z (K : Z) (n : nat) :
  equity_bound (Qc_of_Z K) n
  = Qc_of_Z (10000 + 2000 * K * Z.of_nat n + 1000 * K).
Proof.
  unfold equity_bound, Qc_of_nat.
  by rewrite !Z2Qc_inj_add, !Z2Qc_inj_mul.
Qed.

Lemma Forall_series_of_Z (P : float → Prop) (Q : Z → Prop) (l : list Z) :
  (∀ z, Q z → P (of_Z z)) → Forall Q l → Forall P (series_of_Z l).
Proof.
  intros HPQ Hl. unfold series_of_Z. apply Forall_fmap.
  eapply Forall_impl; [exact Hl|]. done.
Qed.

Lemma series_of_Z_numbers (l : list Z) : series_of_Z l = Fin <$> (Qc_of_Z <$> l).
Proof. unfold series_of_Z. by rewrite <- list_fmap_compose. Qed.

Lemma total_step_integers data signals (s p : list Z) (K : Z) (t : nat) :
  signal signals = series_of_Z s → Forall (λ z, -1 ≤ z ≤ 1)%Z s →
  Close data = series_of_Z p → exact_closes K p →
  length s = length p → (S t < length p)%nat →
  ∃ e0 e1 : Z,
    total (backtest_strategy data signals) !! t = Some (of_Z e0) ∧
    total (backtest_strategy data signals) !! S t = Some (of_Z e1) ∧
    e1 = (e0 + 1000 * s !!! t * (p !!! S t - p !!! t))%Z ∧
    (Z.abs e0 ≤ 2 ^ 53)%Z ∧ (Z.abs e1 ≤ 2 ^ 53)%Z.
Proof.
  intros Hs Hsr Hp [Hpr HK] Hlen Ht.
  destruct (total_step_numbers data signals (Qc_of_Z <$> s) (Qc_of_Z <$> p) t)
    as (q0 & q1 & H0 & H1 & Hstep).
  { by rewrite Hs, series_of_Z_numbers. }
  { by rewrite Hp, series_of_Z_numbers. }
  { by rewrite !length_fmap. }
  { by rewrite length_fmap. }
  assert (Forall integer (total (backtest_strategy data signals))) as Hint.
  { apply backtest_total_integers.
    - rewrite Hs. apply (Forall_series_of_Z _ (λ _, True)); [|by apply Forall_true].
      intros z _. by exists z.
    - rewrite Hp. apply (Forall_series_of_Z _ (λ _, True)); [|by apply Forall_true].
      intros z _. by exists z. }
  assert (0 ≤ K)%Z as HK0.
  { destruct p as [|z p]; [simpl in Ht; lia|]. inversion Hpr; subst. lia. }
  assert (Forall (within (equity_bound (Qc_of_Z K) (length (Close data))))
            (total (backtest_strategy data signals))) as Hb.
  { apply backtest_within.
    - rewrite <- Z2Qc_inj_0. by apply (proj1 (Z2Qc_inj_le _ _)).
    - rewrite Hs. apply (Forall_series_of_Z _ (λ z, -1 ≤ z ≤ 1)%Z); [|done].
      intros z Hz. rewrite <- Z2Qc_inj_1. by apply within_of_Z.
    - rewrite Hp. apply (Forall_series_of_Z _ (λ z, - K ≤ z ≤ K)%Z); [|done].
      intros z Hz. left. by apply within_of_Z. }
  assert (length (Close data) = length p) as Hlc
    by (by rewrite Hp; unfold series_of_Z; rewrite length_fmap).
  rewrite Hlc, equity_bound_of_Z in Hb.
  destruct (Forall_lookup_1 _ _ _ _ Hint H0) as [z0 E0].
  destruct (Forall_lookup_1 _ _ _ _ Hint H1) as [z1 E1].
  pose proof (Forall_lookup_1 _ _ _ _ Hb H0) as B0.
  pose proof (Forall_lookup_1 _ _ _ _ Hb H1) as B1.
  rewrite E0 in H0, B0. rewrite E1 in H1, B1.
  apply of_Z_within in B0, B1.
  injection E0 as ->. injection E1 as ->.
  exists z0, z1. split; [done|]. split; [done|]. split; [|lia].
  apply Z2Qc_inj. rewrite Hstep. unfold position_at.
  rewrite (list_lookup_total_fmap Qc_of_Z s t),
    (list_lookup_total_fmap Qc_of_Z p t),
    (list_lookup_total_fmap Qc_of_Z p (S t)) by lia.
  by rewrite Z2Qc_inj_add, !Z2Qc_inj_mul, Z2Qc_inj_sub, (Qcmult_comm (Qc_of_Z 1000)).
Qed.

(** X1.  With signals -1, 0 or 1 and integer closes on which the float64
    arithmetic is exact ([exact_closes]), the equity cells are integers of
    magnitude at most [2^53], and the equity moves from one bar to the next
    by the position held over the bar times the change of the close:
    [total[t+1] = total[t] + 1000 * signal[t] * (close[t+1] - close[t])]. *)
Theorem equity_step data signals (s p : list Z) (K : Z) (t : nat) :
  signal signals = series_of_Z s → Forall (λ z, -1 ≤ z ≤ 1)%Z s →
  Close data = series_of_Z p → exact_closes K p →
  length s = length p → (S t < length p)%nat →
  ∃ e0 e1 : Z,
    total (backtest_strategy data signals) !! t = Some (of_Z e0) ∧
    total (backtest_strategy data signals) !! S t = Some (of_Z e1) ∧
    e1 = (e0 + 1000 * s !!! t * (p !!! S t - p !!! t))%Z ∧
    (Z.abs e0 ≤ 2 ^ 53)%Z ∧ (Z.abs e1 ≤ 2 ^ 53)%Z.
Proof. apply total_step_integers. Qed.

Lemma equity_step_witness :
  ∃ e0 e1 : Z,
    total (backtest_strategy up_down3 (momentum_strategy up_down3 1)) !! 1%nat
    = Some (of_Z e0) ∧
    total (backtest_strategy up_down3 (momentum_strategy up_down3 1)) !! 2%nat
    = Some (of_Z e1) ∧
    e1 = (e0 + 1000 * [0; 1; 0] !!! 1%nat
                * ([100; 101; 90] !!! 2%nat - [100; 101; 90] !!! 1%nat))%Z ∧
    (Z.abs e0 ≤ 2 ^ 53)%Z ∧ (Z.abs e1 ≤ 2 ^ 53)%Z.
Proof.
  apply (equity_step up_down3 (momentum_strategy up_down3 1)
           [0; 1; 0]%Z [100; 101; 90]%Z 101 1).
  - compute_done.
  - repeat (constructor; [lia|]). constructor.
  - reflexivity.
  - split; [repeat (constructor; [lia|]); constructor|simpl; lia].
  - reflexivity.
  - simpl. lia.
Defined.

(** ** Backtest: a missing close *)

Lemma cumsum_from_lookup_nan acc (a : Series) (t : nat) :
  a !! t = Some NaN → cumsum_from acc a !! t = Some NaN.
Proof.
  revert acc t. induction a as [|x a IH]; intros acc [|t] Ht; try done.
  - by injection Ht as ->.
  - simpl in *. by apply IH.
Qed.

Lemma fmul_nan_r x : fmul x NaN = NaN.
Proof. by destruct x. Qed.

(** X2.  At a bar whose close is missing (NaN) the backtest reports cash
    10000, holdings 0 and equity 10000, whatever the signals and the earlier
    trades were: the NaN of that bar is replaced by 0 after the running sum
    of costs. *)
Theorem missing_close_resets_equity data signals (t : nat) :
  length (signal signals) = length (Close data) →
  Close data !! t = Some NaN →
  cash (backtest_strategy data signals) !! t = Some (of_Z 10000) ∧
  holdings (backtest_strategy data signals) !! t = Some (Fin 0) ∧
  total (backtest_strategy data signals) !! t = Some (of_Z 10000).
Proof.
  intros Hlen Hc. pose proof (lookup_lt_Some _ _ _ Hc) as Ht.
  assert (cash (backtest_strategy data signals) !! t = Some (of_Z 10000)) as Hcash.
  { unfold backtest_strategy; cbn [cash].
    rewrite lookup_s_rsub, lookup_fillna. unfold cumsum.
    rewrite cumsum_from_lookup_nan.
    - simpl. unfold of_Z. do 2 f_equal. ring.
    - unfold s_mul. rewrite lookup_zip_with, Hc.
      destruct (lookup_lt_is_Some_2
                  (fillna (Fin 0) (diff (s_scale (signal signals) (of_Z 1000)))) t)
        as [d ->]; [series_length|].
      simpl. by rewrite fmul_nan_r. }
  assert (holdings (backtest_strategy data signals) !! t = Some (Fin 0)) as Hh.
  { unfold backtest_strategy; cbn [holdings].
    rewrite lookup_fillna. unfold s_mul. rewrite lookup_zip_with, Hc.
    destruct (lookup_lt_is_Some_2 (s_scale (signal signals) (of_Z 1000)) t)
      as [c ->]; [series_length|].
    simpl. by rewrite fmul_nan_r. }
  split; [done|]. split; [done|].
  change (total (backtest_strategy data signals))
    with (s_add (cash (backtest_strategy data signals))
                (holdings (backtest_strategy data signals))).
  unfold s_add. rewrite lookup_zip_with, Hcash, Hh. simpl.
  unfold of_Z. do 2 f_equal. ring.
Qed.

Lemma missing_close_resets_equity_witness :
  let data := mkPriceFrame [of_Z 100; of_Z 120; NaN] in
  let signals := mkSignalFrame (Close data) [] [Fin 1; Fin 1; Fin 1]
                   [Fin 0; Fin 0; Fin 0] in
  cash (backtest_strategy data signals) !! 2%nat = Some (of_Z 10000) ∧
  holdings (backtest_strategy data signals) !! 2%nat = Some (Fin 0) ∧
  total (backtest_strategy data signals) !! 2%nat = Some (of_Z 10000).
Proof.
  apply (missing_close_resets_equity
           (mkPriceFrame [of_Z 100; of_Z 120; NaN])
           (mkSignalFrame [of_Z 100; of_Z 120; NaN] [] [Fin 1; Fin 1; Fin 1]
              [Fin 0; Fin 0; Fin 0]) 2).
  - reflexivity.
  - reflexivity.
Defined.

(** ** The objective: when it raises *)

Lemma objective_raise_last sqrt data p sw lw mw rw sf_ma sf_mr e :
  windows p = Ok (sw, lw, mw, rw) →
  moving_average_strategy data sw lw = Ok sf_ma →
  mean_reversion_strategy sqrt data rw = Ok sf_mr →
  iloc_last (combined data sf_ma (momentum_strategy data mw) sf_mr) = Raise e →
  objective sqrt data p = Raise e.
Proof.
  intros (Hsw & Hlw & Hmw & Hrw)%windows_inv Hma Hmr Hx.
  unfold objective.
  rewrite Hsw, result_bind_Ok, Hlw, result_bind_Ok, Hma, result_bind_Ok,
    Hmw, result_bind_Ok, Hrw, result_bind_Ok, Hmr, result_bind_Ok.
  unfold combined in Hx. cbv zeta. by rewrite Hx.
Qed.

Lemma strategies_accept data sqrt sw lw rw :
  (1 ≤ sw)%Z → (1 ≤ lw)%Z → (0 ≤ rw)%Z →
  ∃ sf_ma sf_mr,
    moving_average_strategy data sw lw = Ok sf_ma ∧
    signal sf_ma = ma_signal (Close data) sw lw ∧
    positions sf_ma = fillna (Fin 0) (diff (signal sf_ma)) ∧
    mean_reversion_strategy sqrt data rw = Ok sf_mr ∧
    signal sf_mr = mr_signal sqrt (Close data) rw ∧
    positions sf_mr = fillna (Fin 0) (diff (signal sf_mr)).
Proof.
  intros Hsw Hlw Hrw.
  pose proof (moving_average_strategy_cases data sw lw) as Hma.
  destruct (moving_average_strategy data sw lw) as [sf_ma|]; [|lia].
  pose proof (mean_reversion_strategy_cases sqrt data rw) as Hmr.
  destruct (mean_reversion_strategy sqrt data rw) as [sf_mr|]; [|lia].
  destruct Hma as (_ & Hma & Hpa). destruct Hmr as (_ & Hmr & Hpr & _).
  by exists sf_ma, sf_mr.
Qed.

Lemma length_combined_strategies data sqrt sw lw mw rw sf_ma sf_mr :
  signal sf_ma = ma_signal (Close data) sw lw →
  signal sf_mr = mr_signal sqrt (Close data) rw →
  length (combined data sf_ma (momentum_strategy data mw) sf_mr)
  = length (Close data).
Proof.
  intros Hma Hmr. apply length_combined.
  - by rewrite Hma, length_ma_signal.
  - apply length_momentum_signal.
  - by rewrite Hmr, length_mr_signal.
Qed.

Lemma int_raise x e : int x = Raise e → e ≠ IndexError.
Proof. destruct x; simpl; congruence. Qed.

(** X3.  On a frame with at least one bar the objective returns a value
    exactly when its four components convert to integers and [rolling]
    accepts the windows; otherwise it raises, and the exception is never
    the [IndexError] of an empty column. *)
Theorem objective_raises_iff_rejected sqrt data params :
  Close data ≠ [] →
  match objective sqrt data params with
  | Ok _ => windows_accepted params
  | Raise e => ¬ windows_accepted params ∧ e ≠ IndexError
  end.
Proof.
  intros Hne.
  destruct (windows params) as [[[[sw lw] mw] rw]|ew] eqn:Hw.
  - destruct (decide (1 ≤ sw ∧ 1 ≤ lw ∧ 0 ≤ rw)%Z) as [(Hsw & Hlw & Hrw)|Hbad].
    + destruct (strategies_accept data sqrt sw lw rw Hsw Hlw Hrw)
        as (sf_ma & sf_mr & Ema & Hma & _ & Emr & Hmr & _).
      pose proof (length_combined_strategies data sqrt sw lw mw rw _ _ Hma Hmr)
        as Hlen.
      destruct (iloc_last (combined data sf_ma (momentum_strategy data mw) sf_mr))
        as [x|e] eqn:Hx.
      * rewrite (objective_intro _ _ _ _ _ _ _ _ _ _ Hw Ema Emr Hx).
        by exists sw, lw, mw, rw.
      * unfold iloc_last in Hx.
        destruct (last _) eqn:Hl; [done|]. apply last_None in Hl.
        rewrite Hl in Hlen. by destruct (Close data).
    + assert (¬ windows_accepted params) as Hrej.
      { intros (sw' & lw' & mw' & rw' & Hw' & ?). rewrite Hw in Hw'.
        injection Hw' as <- <- <- <-. lia. }
      destruct (objective sqrt data params) as [r|e] eqn:Hobj.
      * apply objective_inv in Hobj
          as (sw' & lw' & mw' & rw' & sf_ma & sf_mr & x & Hw' & Ema & Emr & _).
        rewrite Hw in Hw'. injection Hw' as <- <- <- <-.
        pose proof (moving_average_strategy_cases data sw lw) as Hma.
        rewrite Ema in Hma.
        pose proof (mean_reversion_strategy_cases sqrt data rw) as Hmr.
        rewrite Emr in Hmr. lia.
      * split; [done|]. intros ->. revert Hobj.
        apply windows_inv in Hw as (Hsw & Hlw & Hmw & Hrw).
        unfold objective.
        rewrite Hsw, result_bind_Ok, Hlw, result_bind_Ok.
        pose proof (moving_average_strategy_cases data sw lw) as Hma.
        destruct (moving_average_strategy data sw lw) as [sf_ma|e];
          [|destruct Hma as [-> _]; by cbn].
        rewrite result_bind_Ok, Hmw, result_bind_Ok, Hrw, result_bind_Ok.
        pose proof (mean_reversion_strategy_cases sqrt data rw) as Hmr.
        destruct (mean_reversion_strategy sqrt data rw) as [sf_mr|e];
          [|destruct Hmr as [-> _]; by cbn].
        lia.
  - assert (¬ windows_accepted params) as Hrej.
    { intros (sw' & lw' & mw' & rw' & Hw' & ?). by rewrite Hw in Hw'. }
    destruct (objective sqrt data params) as [r|e] eqn:Hobj.
    + apply objective_inv in Hobj as (? & ? & ? & ? & ? & ? & ? & Hw' & _).
      by rewrite Hw in Hw'.
    + split; [done|]. intros ->. revert Hobj Hw. unfold objective, windows.
      destruct (int (short_window params)) as [sw|e1] eqn:Hsw;
        [|cbn; intros [= ->]; by apply int_raise in Hsw].
      destruct (int (long_window params)) as [lw|e2] eqn:Hlw;
        [|cbn; intros [= ->]; by apply int_raise in Hlw].
      rewrite !result_bind_Ok.
      pose proof (moving_average_strategy_cases data sw lw) as Hma.
      destruct (moving_average_strategy data sw lw) as [sf_ma|e];
        [|destruct Hma as [-> _]; by cbn].
      destruct (int (momentum_window params)) as [mw|e3] eqn:Hmw;
        [|cbn; intros [= ->]; by apply int_raise in Hmw].
      destruct (int (mean_window params)) as [rw|e4] eqn:Hrw;
        [|cbn; intros [= ->]; by apply int_raise in Hrw].
      done.
Qed.

Lemma objective_raises_iff_rejected_witness :
  match objective Qc_sqrt_floor up_down3
          (mkParams (Fin (Q2Qc (1 # 2))) (of_Z 90) (of_Z 20) (of_Z 30)) with
  | Ok _ => windows_accepted
              (mkParams (Fin (Q2Qc (1 # 2))) (of_Z 90) (of_Z 20) (of_Z 30))
  | Raise e => ¬ windows_accepted
                   (mkParams (Fin (Q2Qc (1 # 2))) (of_Z 90) (of_Z 20) (of_Z 30))
               ∧ e ≠ IndexError
  end.
Proof.
  apply (objective_raises_iff_rejected Qc_sqrt_floor up_down3
           (mkParams (Fin (Q2Qc (1 # 2))) (of_Z 90) (of_Z 20) (of_Z 30))).
  discriminate.
Defined.

(** X4.  On a price table that has its [Close] column and no row, the
    objective raises [IndexError] (from reading the last cell of the empty
    average column) for every parameter vector whose windows [rolling]
    accepts. *)
Theorem objective_empty_frame sqrt data params :
  Close data = [] → windows_accepted params →
  objective sqrt data params = Raise IndexError.
Proof.
  intros Hc (sw & lw & mw & rw & Hw & Hsw & Hlw & Hrw).
  destruct (strategies_accept data sqrt sw lw rw Hsw Hlw Hrw)
    as (sf_ma & sf_mr & Ema & Hma & _ & Emr & Hmr & _).
  apply (objective_raise_last _ _ _ _ _ _ _ _ _ _ Hw Ema Emr).
  pose proof (length_combined_strategies data sqrt sw lw mw rw _ _ Hma Hmr)
    as Hlen.
  rewrite Hc in Hlen. by destruct (combined _ _ _ _).
Qed.

Lemma objective_empty_frame_witness :
  objective Qc_sqrt_floor no_bars x0 = Raise IndexError.
Proof.
  apply (objective_empty_frame Qc_sqrt_floor no_bars x0).
  - reflexivity.
  - exists 30%Z, 90%Z, 20%Z, 30%Z. split; [reflexivity|lia].
Defined.

(** ** Truncation and the search box *)

Lemma Qc_leb_le a b : Qc_leb a b = true ↔ a ≤ b.
Proof.
  unfold Qc_leb, Qcle, Qle. unfold Qccompare, Qcompare.
  destruct (Z.compare_spec (Qnum a * Z.pos (Qden b)) (Qnum b * Z.pos (Qden a)));
    split; try done; lia.
Qed.

Lemma Qc_of_Z_le_iff z (q : Qc) :
  Qc_of_Z z ≤ q ↔ (z * Z.pos (Qden q) ≤ Qnum q)%Z.
Proof. unfold Qcle, Qle. simpl. lia. Qed.

Lemma Qc_lt_of_Z_iff z (q : Qc) :
  q < Qc_of_Z z ↔ (Qnum q < z * Z.pos (Qden q))%Z.
Proof. unfold Qclt, Qlt. simpl. lia. Qed.

Lemma Qc_le_of_Z_iff z (q : Qc) :
  q ≤ Qc_of_Z z ↔ (Qnum q ≤ z * Z.pos (Qden q))%Z.
Proof. unfold Qcle, Qle. simpl. lia. Qed.

Lemma int_floor q z :
  (0 ≤ z)%Z → Qc_of_Z z ≤ q → q < Qc_of_Z (z + 1) → int (Fin q) = Ok z.
Proof.
  rewrite Qc_of_Z_le_iff, Qc_lt_of_Z_iff. intros Hz Hlo Hhi. simpl. f_equal.
  rewrite Z.quot_div_nonneg by nia.
  symmetry. apply (Z.div_unique _ _ _ (Qnum q - z * Z.pos (Qden q))); lia.
Qed.

Lemma int_between q lo hi :
  (0 ≤ lo)%Z → Qc_of_Z lo ≤ q → q ≤ Qc_of_Z hi →
  ∃ z, int (Fin q) = Ok z ∧ (lo ≤ z ≤ hi)%Z.
Proof.
  rewrite Qc_of_Z_le_iff, Qc_le_of_Z_iff. intros Hz Hlo Hhi.
  exists (Qnum q ÷ Z.pos (Qden q))%Z. split; [done|].
  rewrite Z.quot_div_nonneg by nia. split.
  - apply Z.div_le_lower_bound; lia.
  - apply Z.div_le_upper_bound; lia.
Qed.

Lemma fle_between lo hi v :
  fle (of_Z lo) v = true ∧ fle v (of_Z hi) = true →
  ∃ q, v = Fin q ∧ Qc_of_Z lo ≤ q ∧ q ≤ Qc_of_Z hi.
Proof.
  destruct v as [| | |q]; simpl; try (by intros [??]).
  intros [H1 H2]. exists q. by rewrite <- !Qc_leb_le.
Qed.

Lemma windows_in_bounds params :
  in_bounds params = true →
  ∃ sw lw mw rw, windows params = Ok (sw, lw, mw, rw) ∧
    (20 ≤ sw ≤ 50 ∧ 50 ≤ lw ≤ 200 ∧ 10 ≤ mw ≤ 30 ∧ 20 ≤ rw ≤ 60)%Z.
Proof.
  unfold in_bounds, components, bounds. cbn [zip zip_with forallb fst snd].
  rewrite !andb_true_iff.
  intros ((qs & Es & Hs1 & Hs2)%fle_between & (ql & El & Hl1 & Hl2)%fle_between
          & (qm & Em & Hm1 & Hm2)%fle_between
          & ((qr & Er & Hr1 & Hr2)%fle_between & _)).
  destruct (int_between qs 20 50) as (sw & Hsw & ?); [lia|done..|].
  destruct (int_between ql 50 200) as (lw & Hlw & ?); [lia|done..|].
  destruct (int_between qm 10 30) as (mw & Hmw & ?); [lia|done..|].
  destruct (int_between qr 20 60) as (rw & Hrw & ?); [lia|done..|].
  exists sw, lw, mw, rw. split; [|lia].
  unfold windows.
  by rewrite Es, Hsw, result_bind_Ok, El, Hlw, result_bind_Ok,
    Em, Hmw, result_bind_Ok, Er, Hrw, result_bind_Ok.
Qed.

(** X5.  At every point of the search box the four windows truncate to
    integers that [rolling] accepts, so on a frame with at least one bar
    whose closes keep the arithmetic inside the float64 range ([in_range])
    the objective returns a number of that range: inside its bounds the
    minimizer never sees an exception, a NaN or an infinity. *)
Theorem objective_defined_in_bounds sqrt M data params :
  in_bounds params = true →
  Close data ≠ [] → in_range M data →
  ∃ v, objective sqrt data params = Ok v ∧ finite64 v.
Proof.
  intros (sw & lw & mw & rw & Hw & Hb)%windows_in_bounds Hne Hr.
  destruct (objective_finite64 sqrt M data params Hne Hr)
    as (v & Hv & _ & Hfin); [exists sw, lw, mw, rw; split; [done|lia]|].
  by exists v.
Qed.

Lemma objective_defined_in_bounds_witness :
  ∃ v, objective Qc_sqrt_floor up_down3
         (mkParams (Fin (Q2Qc (41 # 2))) (of_Z 200) (of_Z 10) (of_Z 60))
       = Ok v ∧ finite64 v.
Proof.
  apply (objective_defined_in_bounds Qc_sqrt_floor (Qc_of_Z 101) up_down3
           (mkParams (Fin (Q2Qc (41 # 2))) (of_Z 200) (of_Z 10) (of_Z 60))).
  - vm_compute. reflexivity.
  - discriminate.
  - split; [by vm_compute|]. split; [|by vm_compute].
    repeat (constructor;
            [left; eexists; (split; [reflexivity|]); split; by vm_compute|]).
    constructor.
Defined.

Lemma objective_same_windows sqrt data p p' w :
  windows p = Ok w → windows p' = Ok w →
  objective sqrt data p = objective sqrt data p'.
Proof.
  destruct w as [[[sw lw] mw] rw].
  intros (Hsw & Hlw & Hmw & Hrw)%windows_inv
         (Hsw' & Hlw' & Hmw' & Hrw')%windows_inv.
  unfold objective. by rewrite Hsw, Hsw', Hlw, Hlw', Hmw, Hmw', Hrw, Hrw'.
Qed.

Lemma in_cell_int v z : (0 ≤ z)%Z → in_cell v z → int v = Ok z.
Proof. intros Hz (q & -> & Hlo & Hhi). by apply int_floor. Qed.

Lemma in_cell_of_Z z : in_cell (of_Z z) z.
Proof.
  exists (Qc_of_Z z). split; [done|]. split; [done|].
  apply (proj1 (Z2Qc_inj_lt z (z + 1))). lia.
Qed.

(** X6.  The objective depends on each parameter only through its integer
    part: any two parameter vectors whose components are non-negative and
    have the same integer parts get the same value (or the same exception).
    The objective is constant on every unit cell of the parameter space. *)
Theorem objective_constant_on_cells sqrt data params (z1 z2 z3 z4 : Z) :
  (0 ≤ z1)%Z → (0 ≤ z2)%Z → (0 ≤ z3)%Z → (0 ≤ z4)%Z →
  in_cell (short_window params) z1 → in_cell (long_window params) z2 →
  in_cell (momentum_window params) z3 → in_cell (mean_window params) z4 →
  objective sqrt data params
  = objective sqrt data (mkParams (of_Z z1) (of_Z z2) (of_Z z3) (of_Z z4)).
Proof.
  intros H1 H2 H3 H4 C1 C2 C3 C4.
  apply (objective_same_windows _ _ _ _ (z1, z2, z3, z4)); unfold windows.
  - by rewrite (in_cell_int _ _ H1 C1), (in_cell_int _ _ H2 C2),
      (in_cell_int _ _ H3 C3), (in_cell_int _ _ H4 C4).
  - cbn [short_window long_window momentum_window mean_window].
    by rewrite (in_cell_int _ _ H1 (in_cell_of_Z z1)),
      (in_cell_int _ _ H2 (in_cell_of_Z z2)),
      (in_cell_int _ _ H3 (in_cell_of_Z z3)),
      (in_cell_int _ _ H4 (in_cell_of_Z z4)).
Qed.

Lemma objective_constant_on_cells_witness :
  objective Qc_sqrt_floor up_down3
    (mkParams (Fin (Q2Qc (61 # 2))) (Fin (Q2Qc (181 # 2)))
              (Fin (Q2Qc (41 # 2))) (Fin (Q2Qc (61 # 2))))
  = objective Qc_sqrt_floor up_down3 (mkParams (of_Z 30) (of_Z 90) (of_Z 20) (of_Z 30)).
Proof.
  apply (objective_constant_on_cells Qc_sqrt_floor up_down3
           (mkParams (Fin (Q2Qc (61 # 2))) (Fin (Q2Qc (181 # 2)))
                     (Fin (Q2Qc (41 # 2))) (Fin (Q2Qc (61 # 2))))
           30 90 20 30); try lia.
  - exists (Q2Qc (61 # 2)). split; [reflexivity|]. split; [by vm_compute|by vm_compute].
  - exists (Q2Qc (181 # 2)). split; [reflexivity|]. split; [by vm_compute|by vm_compute].
  - exists (Q2Qc (41 # 2)). split; [reflexivity|]. split; [by vm_compute|by vm_compute].
  - exists (Q2Qc (61 # 2)). split; [reflexivity|]. split; [by vm_compute|by vm_compute].
Defined.

(** ** Moving averages: warm-up and equal windows *)

Lemma observations_warm a w m t :
  (S t ≤ w)%nat →
  observations (mkRolling a w m) t = observations (mkRolling a (S t) m) t.
Proof.
  intros Hw. unfold observations; cbn [roll_obj roll_window].
  by replace (S t - w)%nat with (S t - S t)%nat by lia.
Qed.

Lemma ma_signal_warm close sw lw (t : nat) :
  (t < length close)%nat → (Z.of_nat t < sw)%Z → (Z.of_nat t < lw)%Z →
  ma_signal close sw lw !! t = Some (Fin 0).
Proof.
  intros Ht Hsw Hlw.
  erewrite ma_signal_lookup; [|by apply roll_mean_lookup..].
  cbn [roll_min_periods].
  rewrite (observations_warm _ (Z.to_nat sw)), (observations_warm _ (Z.to_nat lw))
    by lia.
  unfold fgt. rewrite flt_irrefl. by destruct (fle _ _).
Qed.

Lemma ma_signal_same_window close w (t : nat) :
  (t < length close)%nat → ma_signal close w w !! t = Some (Fin 0).
Proof.
  intros Ht.
  erewrite ma_signal_lookup; [|by apply roll_mean_lookup..].
  unfold fgt. rewrite flt_irrefl. by destruct (fle _ _).
Qed.

Lemma positions_of_flat_signal n :
  fillna (Fin 0) (diff (replicate n (Fin 0))) = replicate n (Fin 0).
Proof.
  apply all_cells; [by rewrite length_fillna, length_diff, length_replicate|].
  intros [|t] Ht.
  - apply positions_first. destruct n; [lia|done].
  - rewrite lookup_fillna.
    rewrite (diff_lookup_S _ t (Fin 0) (Fin 0))
      by (apply lookup_replicate_2; lia).
    simpl. do 2 f_equal.
Qed.

(** X7.  The moving-average strategy gives signal 0 at every bar that
    comes before both windows are full ([t < short_window] and
    [t < long_window]): both rolling means are then the mean of all closes
    so far, and the strict comparison fails. *)
Theorem moving_average_warm_up data (sw lw : Z) (t : nat) :
  (1 ≤ sw)%Z → (1 ≤ lw)%Z →
  (t < length (Close data))%nat → (Z.of_nat t < sw)%Z → (Z.of_nat t < lw)%Z →
  ∃ sf, moving_average_strategy data sw lw = Ok sf ∧
        signal sf !! t = Some (Fin 0).
Proof.
  intros Hsw Hlw Ht Hts Htl.
  pose proof (moving_average_strategy_cases data sw lw) as H.
  destruct (moving_average_strategy data sw lw) as [sf|e]; [|lia].
  destruct H as (_ & Hs & _). exists sf. split; [done|].
  rewrite Hs. by apply ma_signal_warm.
Qed.

Lemma moving_average_warm_up_witness :
  ∃ sf, moving_average_strategy rising10 3 5 = Ok sf ∧
        signal sf !! 2%nat = Some (Fin 0).
Proof.
  apply (moving_average_warm_up rising10 3 5 2).
  - lia.
  - lia.
  - simpl. lia.
  - lia.
  - lia.
Defined.

(** X8.  With equal short and long windows the moving-average strategy
    never signals: signal and positions are 0 at every bar and the backtest
    of the frame stays at 10000, whatever the closes are.  Nothing in the
    code orders the two windows. *)
Theorem moving_average_equal_windows data (w : Z) :
  (1 ≤ w)%Z →
  ∃ sf, moving_average_strategy data w w = Ok sf ∧
        signal sf = replicate (length (Close data)) (Fin 0) ∧
        positions sf = replicate (length (Close data)) (Fin 0) ∧
        total (backtest_strategy data sf)
        = replicate (length (Close data)) (of_Z 10000).
Proof.
  intros Hw.
  pose proof (moving_average_strategy_cases data w w) as H.
  destruct (moving_average_strategy data w w) as [sf|e]; [|lia].
  destruct H as (_ & Hs & Hp). exists sf. split; [done|].
  assert (signal sf = replicate (length (Close data)) (Fin 0)) as Hflat.
  { rewrite Hs. apply all_cells; [apply length_ma_signal|].
    intros t Ht. by apply ma_signal_same_window. }
  split; [done|]. split.
  - rewrite Hp, Hflat. apply positions_of_flat_signal.
  - by apply backtest_flat_signal.
Qed.

Lemma moving_average_equal_windows_witness :
  ∃ sf, moving_average_strategy up_down3 2 2 = Ok sf ∧
        signal sf = replicate (length (Close up_down3)) (Fin 0) ∧
        positions sf = replicate (length (Close up_down3)) (Fin 0) ∧
        total (backtest_strategy up_down3 sf)
        = replicate (length (Close up_down3)) (of_Z 10000).
Proof.
  apply (moving_average_equal_windows up_down3 2). lia.
Defined.

(** ** The objective when no window fits the series *)

Lemma combined_flat data s1 s2 s3 :
  Close data ≠ [] →
  signal s1 = replicate (length (Close data)) (Fin 0) →
  signal s2 = replicate (length (Close data)) (Fin 0) →
  signal s3 = replicate (length (Close data)) (Fin 0) →
  iloc_last (combined data s1 s2 s3) = Ok initial_capital.
Proof.
  intros Hne H1 H2 H3. unfold combined.
  rewrite !backtest_flat_signal by done.
  unfold s_add, s_divk. rewrite !zip_with_replicate, fmap_replicate.
  replace (fdiv (fadd (fadd initial_capital initial_capital) initial_capital)
                (of_Z 3)) with initial_capital by compute_done.
  unfold iloc_last.
  destruct (length (Close data)) as [|n] eqn:Hn; [by destruct (Close data)|].
  by rewrite last_lookup, length_replicate, lookup_replicate_2 by (simpl; lia).
Qed.

Lemma objective_beyond_windows sqrt data params (sw lw mw rw : Z) :
  Close data ≠ [] →
  windows params = Ok (sw, lw, mw, rw) →
  let n := Z.of_nat (length (Close data)) in
  (n ≤ sw)%Z → (n ≤ lw)%Z → (n ≤ mw)%Z → (n < rw)%Z →
  objective sqrt data params = Ok (of_Z (-10000)).
Proof.
  intros Hne Hw n Hsw Hlw Hmw Hrw.
  assert (1 ≤ n)%Z as Hn by (subst n; destruct (Close data); simpl; [done|lia]).
  destruct (strategies_accept data sqrt sw lw rw)
    as (sf_ma & sf_mr & Ema & Hma & _ & Emr & Hmr & _); [lia..|].
  replace (of_Z (-10000)) with (fneg initial_capital) by compute_done.
  apply (objective_intro _ _ _ _ _ _ _ _ _ _ Hw Ema Emr).
  apply combined_flat; [done| | |].
  - rewrite Hma. apply all_cells; [apply length_ma_signal|].
    intros t Ht. apply ma_signal_warm; lia.
  - by apply momentum_signal_exceeds.
  - rewrite Hmr. by apply mr_signal_exceeds.
Qed.

(** X9.  When the series is no longer than the two moving-average windows
    and the momentum window, and shorter than the mean-reversion window, no
    strategy ever signals and the objective is exactly -10000, whatever the
    closes are. *)
Theorem objective_all_windows_exceed sqrt data params (sw lw mw rw : Z) :
  Close data ≠ [] →
  windows params = Ok (sw, lw, mw, rw) →
  let n := Z.of_nat (length (Close data)) in
  (n ≤ sw)%Z → (n ≤ lw)%Z → (n ≤ mw)%Z → (n < rw)%Z →
  objective sqrt data params = Ok (of_Z (-10000)).
Proof. apply objective_beyond_windows. Qed.

Lemma objective_all_windows_exceed_witness :
  objective Qc_sqrt_floor up_down3 x0 = Ok (of_Z (-10000)).
Proof.
  apply (objective_all_windows_exceed Qc_sqrt_floor up_down3 x0 30 90 20 30).
  - discriminate.
  - reflexivity.
  - simpl. lia.
  - simpl. lia.
  - simpl. lia.
  - simpl. lia.
Defined.

(** X10.  On a series of one to ten bars the objective is -10000 at every
    point of the search box: every window of the box is then at least as
    long as the series, so the search has nothing to distinguish. *)
Theorem objective_flat_on_short_series sqrt data params :
  in_bounds params = true →
  (1 ≤ length (Close data) ≤ 10)%nat →
  objective sqrt data params = Ok (of_Z (-10000)).
Proof.
  intros (sw & lw & mw & rw & Hw & Hb)%windows_in_bounds Hn.
  apply (objective_beyond_windows sqrt data params sw lw mw rw);
    [by destruct (Close data); simpl in *; [lia|]|done|lia..].
Qed.

Lemma objective_flat_on_short_series_witness :
  objective Qc_sqrt_floor rising10
    (mkParams (of_Z 25) (of_Z 120) (of_Z 10) (of_Z 45))
  = Ok (of_Z (-10000)).
Proof.
  apply (objective_flat_on_short_series Qc_sqrt_floor rising10
           (mkParams (of_Z 25) (of_Z 120) (of_Z 10) (of_Z 45))).
  - vm_compute. reflexivity.
  - simpl. lia.
Defined.

(** ** Momentum: warm-up and rising prices *)

Lemma shift_lookup_lt w (a : Series) (t : nat) :
  (0 ≤ w)%Z → (t < length a)%nat → (Z.of_nat t < w)%Z →
  shift w a !! t = Some NaN.
Proof.
  intros Hw Ht Htw. unfold shift. destruct (Z.leb_spec 0 w); [|lia].
  rewrite lookup_app_l by (rewrite length_replicate; lia).
  apply lookup_replicate_2. lia.
Qed.

Lemma shift_lookup_ge w (a : Series) (t : nat) :
  (0 ≤ w)%Z → (t < length a)%nat → (w ≤ Z.of_nat t)%Z →
  shift w a !! t = a !! (t - Z.to_nat w)%nat.
Proof.
  intros Hw Ht Htw. unfold shift. destruct (Z.leb_spec 0 w); [|lia].
  replace (Z.to_nat w `min` length a)%nat with (Z.to_nat w) by lia.
  rewrite lookup_app_r by (rewrite length_replicate; lia).
  rewrite length_replicate. apply lookup_take_lt. lia.
Qed.

Lemma fsub_self_not_positive p : fgt (fsub p p) (Fin 0) = false.
Proof.
  destruct p as [| | |q]; try done. simpl.
  replace (q + - q) with 0 by ring. apply Qc_ltb_irrefl.
Qed.

Lemma momentum_signal_warm data (w : Z) (t : nat) :
  (0 ≤ w)%Z → (t < length (Close data))%nat →
  (Z.of_nat t < w)%Z ∨ w = 0%Z →
  signal (momentum_strategy data w) !! t = Some (Fin 0).
Proof.
  intros Hw Ht Hcase.
  destruct (lookup_lt_is_Some_2 (Close data) t Ht) as [p Hp].
  destruct Hcase as [Htw| ->].
  - erewrite momentum_signal_lookup;
      [|exact Hp|by apply shift_lookup_lt].
    by rewrite fsub_nan_r.
  - erewrite momentum_signal_lookup; [|exact Hp|].
    + by rewrite fsub_self_not_positive.
    + rewrite shift_lookup_ge by lia. by rewrite Nat.sub_0_r.
Qed.

(** X11.  The momentum strategy gives signal 0 at every bar that has no
    close [window] bars back ([t < window]), and at every bar when the
    window is 0 (a close is never above itself). *)
Theorem momentum_warm_up data (w : Z) (t : nat) :
  (0 ≤ w)%Z → (t < length (Close data))%nat →
  (Z.of_nat t < w)%Z ∨ w = 0%Z →
  signal (momentum_strategy data w) !! t = Some (Fin 0).
Proof. apply momentum_signal_warm. Qed.

Lemma momentum_warm_up_witness :
  signal (momentum_strategy rising10 4) !! 3%nat = Some (Fin 0).
Proof.
  apply (momentum_warm_up rising10 4 3).
  - lia.
  - simpl. lia.
  - left. lia.
Defined.

Lemma StronglySorted_lookup_lt (l : list Qc) (i j : nat) a b :
  StronglySorted Qclt l → (i < j)%nat →
  l !! i = Some a → l !! j = Some b → a < b.
Proof.
  intros Hl. revert i j. induction Hl as [|x l Hl IH Hx]; intros i j Hij Ha Hb.
  { done. }
  destruct j as [|j]; [lia|]. destruct i as [|i].
  - injection Ha as <-. simpl in Hb.
    apply (proj1 (Forall_forall _ _) Hx). by eapply list_elem_of_lookup_2.
  - apply (IH i j); [lia|done..].
Qed.

Lemma momentum_rising_signal data (p : list Qc) (w : Z) (t : nat) :
  Close data = Fin <$> p → StronglySorted Qclt p →
  (1 ≤ w)%Z → (t < length p)%nat →
  signal (momentum_strategy data w) !! t
  = Some (if bool_decide (Z.of_nat t < w)%Z then Fin 0 else Fin 1).
Proof.
  intros Hc Hinc Hw Ht.
  assert (t < length (Close data))%nat as Ht' by (by rewrite Hc, length_fmap).
  case_bool_decide as Htw.
  - apply momentum_signal_warm; [lia|done|by left].
  - destruct (lookup_lt_is_Some_2 p t Ht) as [b Hb].
    destruct (lookup_lt_is_Some_2 p (t - Z.to_nat w)%nat) as [a Ha]; [lia|].
    erewrite momentum_signal_lookup.
    + instantiate (1 := Fin a). instantiate (1 := Fin b). simpl.
      assert (a < b) as Hab
        by (apply (StronglySorted_lookup_lt p (t - Z.to_nat w)%nat t);
            [done|lia|done..]).
      assert (Qc_ltb 0 (b + - a) = true) as ->; [|done].
      apply Qc_ltb_lt. apply (proj2 (Qcplus_lt_mono_r 0 (b + - a) a)).
      by replace (b + - a + a) with b by ring; rewrite Qcplus_0_l.
    + by rewrite Hc, list_lookup_fmap, Hb.
    + rewrite shift_lookup_ge by lia. by rewrite Hc, list_lookup_fmap, Ha.
Qed.

(** X12.  On numeric closes that rise strictly from bar to bar, the
    momentum strategy with a window of at least 1 gives signal 0 before bar
    [window] and 1 from bar [window] on; its positions column is 1 at bar
    [window] and 0 at every other bar: one buy and no sell. *)
Theorem momentum_rising_prices data (p : list Qc) (w : Z) (t : nat) :
  Close data = Fin <$> p → StronglySorted Qclt p →
  (1 ≤ w)%Z → (t < length p)%nat →
  signal (momentum_strategy data w) !! t
  = Some (if bool_decide (Z.of_nat t < w)%Z then Fin 0 else Fin 1) ∧
  positions (momentum_strategy data w) !! t
  = Some (if bool_decide (Z.of_nat t = w) then Fin 1 else Fin 0).
Proof.
  intros Hc Hinc Hw Ht. split; [by eapply momentum_rising_signal|].
  change (positions (momentum_strategy data w))
    with (fillna (Fin 0) (diff (signal (momentum_strategy data w)))).
  destruct t as [|t].
  - rewrite bool_decide_eq_false_2 by lia. apply positions_first.
    intros Hnil%(f_equal length).
    rewrite length_momentum_signal, Hc, length_fmap in Hnil. simpl in Hnil. lia.
  - rewrite lookup_fillna.
    rewrite (diff_lookup_S _ t _ _
               (momentum_rising_signal data p w t Hc Hinc Hw ltac:(lia))
               (momentum_rising_signal data p w (S t) Hc Hinc Hw Ht)).
    repeat case_bool_decide; try lia; simpl; do 2 f_equal; ring.
Qed.

Lemma momentum_rising_prices_witness :
  signal (momentum_strategy rising10 3) !! 3%nat
  = Some (if bool_decide (Z.of_nat 3 < 3)%Z then Fin 0 else Fin 1) ∧
  positions (momentum_strategy rising10 3) !! 3%nat
  = Some (if bool_decide (Z.of_nat 3 = 3%Z) then Fin 1 else Fin 0).
Proof.
  apply (momentum_rising_prices rising10
           (Qc_of_Z <$> [100; 101; 102; 103; 104; 105; 106; 107; 108; 109]%Z)
           3 3).
  - reflexivity.
  - repeat (constructor; [|repeat (constructor; [by vm_compute|]); constructor]).
    constructor.
  - lia.
  - simpl. lia.
Defined.

(** ** The positions column *)

Lemma positions_range (vals diffs : Series) (s : Series) :
  Fin 0 ∈ diffs →
  (∀ x y, x ∈ vals → y ∈ vals → fsub x y ∈ diffs) →
  Forall (λ x, x ∈ vals) s →
  Forall (λ x, x ∈ diffs) (fillna (Fin 0) (diff s)).
Proof.
  intros H0 Hsub Hs. apply Forall_fillna; [done|].
  unfold diff, s_sub.
  eapply Forall_zip_with_lr; [|exact Hs|apply Forall_shift, Hs].
  intros x y Hx [Hy| ->]; [left; by apply Hsub|right; apply fsub_nan_r].
Qed.

Lemma trend_differences x y :
  x ∈ [Fin 0; Fin 1] → y ∈ [Fin 0; Fin 1] →
  fsub x y ∈ [Fin (-1); Fin 0; Fin 1].
Proof.
  rewrite !elem_of_cons, !elem_of_nil.
  intros [->|[->|[]]] [->|[->|[]]]; compute_done.
Qed.

Lemma reversion_differences x y :
  x ∈ [Fin (-1); Fin 0; Fin 1] → y ∈ [Fin (-1); Fin 0; Fin 1] →
  fsub x y ∈ [Fin (-2); Fin (-1); Fin 0; Fin 1; Fin 2].
Proof.
  rewrite !elem_of_cons, !elem_of_nil.
  intros [->|[->|[->|[]]]] [->|[->|[->|[]]]]; compute_done.
Qed.

(** X13.  The positions column of every returned frame has one cell per
    bar.  For the moving-average and the momentum strategy each cell is -1,
    0 or 1; for the mean-reversion strategy each cell is -2, -1, 0, 1 or 2
    (a reversal from long to short, or back, in one bar is a step of 2). *)
Theorem positions_ranges sqrt data (sw lw mw rw : Z) :
  match moving_average_strategy data sw lw with
  | Ok sf => length (positions sf) = length (Close data) ∧
             Forall (λ x, x ∈ [Fin (-1); Fin 0; Fin 1]) (positions sf)
  | Raise e => True
  end ∧
  (length (positions (momentum_strategy data mw)) = length (Close data) ∧
   Forall (λ x, x ∈ [Fin (-1); Fin 0; Fin 1])
          (positions (momentum_strategy data mw))) ∧
  match mean_reversion_strategy sqrt data rw with
  | Ok sf => length (positions sf) = length (Close data) ∧
             Forall (λ x, x ∈ [Fin (-2); Fin (-1); Fin 0; Fin 1; Fin 2])
                    (positions sf)
  | Raise e => True
  end.
Proof.
  split; [|split].
  - pose proof (moving_average_strategy_cases data sw lw) as H.
    destruct (moving_average_strategy data sw lw) as [sf|e]; [|done].
    destruct H as (_ & Hs & ->). rewrite Hs. split.
    + by rewrite length_fillna, length_diff, length_ma_signal.
    + apply (positions_range [Fin 0; Fin 1]);
        [in_list|apply trend_differences|apply ma_signal_range].
  - change (positions (momentum_strategy data mw))
      with (fillna (Fin 0) (diff (signal (momentum_strategy data mw)))).
    split.
    + by rewrite length_fillna, length_diff, length_momentum_signal.
    + apply (positions_range [Fin 0; Fin 1]);
        [in_list|apply trend_differences|apply momentum_signal_range].
  - pose proof (mean_reversion_strategy_cases sqrt data rw) as H.
    destruct (mean_reversion_strategy sqrt data rw) as [sf|e]; [|done].
    destruct H as (_ & Hs & -> & _). rewrite Hs. split.
    + by rewrite length_fillna, length_diff, length_mr_signal.
    + apply (positions_range [Fin (-1); Fin 0; Fin 1]);
        [in_list|apply reversion_differences|apply mr_signal_range].
Qed.

Lemma numbers_as_fmap (l : Series) :
  Forall is_number l → ∃ q : list Qc, l = Fin <$> q.
Proof.
  induction 1 as [|x l [a ->] _ [q ->]]; [by exists []|]. by exists (a :: q).
Qed.

Lemma Qc_sum_increments (q : list Qc) (t : nat) :
  Qc_sum ((λ k, match k with
                | O => 0
                | S j => q !!! S j - q !!! j
                end) <$> seq 0 (S t))
  = q !!! t - q !!! 0%nat.
Proof.
  induction t as [|t IH]; [simpl; ring|].
  rewrite Qc_sum_seq_snoc, IH. ring.
Qed.

Lemma cumsum_positions_numbers (q : list Qc) (t : nat) :
  (t < length q)%nat →
  cumsum (fillna (Fin 0) (diff (Fin <$> q))) !! t
  = Some (Fin (q !!! t - q !!! 0%nat)).
Proof.
  intros Ht. unfold cumsum.
  rewrite (cumsum_from_lookup
             (λ k, match k with O => 0 | S j => q !!! S j - q !!! j end) 0 _ t).
  - rewrite Qc_sum_increments. do 2 f_equal. ring.
  - intros k Hk. rewrite lookup_fillna. destruct k as [|k].
    + destruct q as [|x q]; [simpl in Ht; lia|].
      by rewrite fmap_cons, diff_lookup_0.
    + rewrite (diff_lookup_S _ k (Fin (q !!! k)) (Fin (q !!! S k)));
        [done|rewrite list_lookup_fmap, list_lookup_lookup_total_lt by lia; done..].
Qed.

Lemma cumsum_positions (s : Series) :
  Forall is_number s → s !! 0%nat = Some (Fin 0) →
  cumsum (fillna (Fin 0) (diff s)) = s.
Proof.
  intros [q ->]%numbers_as_fmap H0.
  apply (list_eq_same_length _ _ (length q));
    [by rewrite length_fmap
    |by rewrite length_cumsum, length_fillna, length_diff, length_fmap|].
  intros t x y Ht Hx Hy.
  rewrite cumsum_positions_numbers in Hx by done.
  rewrite list_lookup_fmap, list_lookup_lookup_total_lt in Hy by done.
  rewrite list_lookup_fmap in H0.
  destruct (q !! 0%nat) as [q0|] eqn:Hq0; [|done].
  injection H0 as H0. rewrite (list_lookup_total_correct _ _ _ Hq0), H0 in Hx.
  injection Hx as <-. injection Hy as <-. f_equal. ring.
Qed.

(** X14.  For windows of at least 1 and a frame with at least one bar, the
    positions column of each strategy is the increment of its signal: the
    running sum of positions up to a bar is the signal at that bar. *)
Theorem positions_sum_to_signal sqrt data (sw lw mw rw : Z) :
  Close data ≠ [] →
  (1 ≤ sw)%Z → (1 ≤ lw)%Z → (1 ≤ mw)%Z → (1 ≤ rw)%Z →
  (∃ sf, moving_average_strategy data sw lw = Ok sf ∧
         cumsum (positions sf) = signal sf) ∧
  cumsum (positions (momentum_strategy data mw))
  = signal (momentum_strategy data mw) ∧
  (∃ sf, mean_reversion_strategy sqrt data rw = Ok sf ∧
         cumsum (positions sf) = signal sf).
Proof.
  intros Hne Hsw Hlw Hmw Hrw.
  destruct (strategies_accept data sqrt sw lw rw)
    as (sf_ma & sf_mr & Ema & Hma & Hpa & Emr & Hmr & Hpr); [lia..|].
  split; [|split].
  - exists sf_ma. split; [done|]. rewrite Hpa. apply cumsum_positions.
    + rewrite Hma. eapply numbers_of_range;
        [apply trend_values_numbers|apply ma_signal_range].
    + rewrite Hma. by apply ma_signal_first.
  - change (positions (momentum_strategy data mw))
      with (fillna (Fin 0) (diff (signal (momentum_strategy data mw)))).
    apply cumsum_positions.
    + eapply numbers_of_range;
        [apply trend_values_numbers|apply momentum_signal_range].
    + by apply momentum_signal_first.
  - exists sf_mr. split; [done|]. rewrite Hpr. apply cumsum_positions.
    + rewrite Hmr. eapply numbers_of_range;
        [apply reversion_values_numbers|apply mr_signal_range].
    + rewrite Hmr. apply mr_signal_undefined; [|by right].
      destruct (Close data); simpl; [done|lia].
Qed.

Lemma positions_sum_to_signal_witness :
  (∃ sf, moving_average_strategy up_down3 1 2 = Ok sf ∧
         cumsum (positions sf) = signal sf) ∧
  cumsum (positions (momentum_strategy up_down3 1))
  = signal (momentum_strategy up_down3 1) ∧
  (∃ sf, mean_reversion_strategy Qc_sqrt_floor up_down3 3 = Ok sf ∧
         cumsum (positions sf) = signal sf).
Proof.
  apply (positions_sum_to_signal Qc_sqrt_floor up_down3 1 2 1 3).
  - discriminate.
  - lia.
  - lia.
  - lia.
  - lia.
Defined.

(** ** Mean reversion: warm-up and degenerate windows *)

Lemma mr_std_no_sample sqrt (close : Series) w (t : nat) :
  (t < length close)%nat → (S t < Z.to_nat w ∨ Z.to_nat w ≤ 1)%nat →
  mr_std sqrt close w !! t = Some NaN.
Proof.
  intros Ht Hw. unfold mr_std. rewrite roll_std_lookup by done.
  pose proof (length_observations (mkRolling close (Z.to_nat w) (Z.to_nat w)) t)
    as Hobs.
  cbn [roll_min_periods roll_window] in *.
  rewrite bool_decide_eq_false_2; [done|lia].
Qed.

(** X15.  The mean-reversion strategy gives signal 0 at every bar before
    its window is full ([t + 1 < window]), and at every bar when the window
    is 0 or 1: a window of fewer than two closes has no standard deviation. *)
Theorem mean_reversion_warm_up sqrt data (w : Z) (t : nat) :
  (0 ≤ w)%Z → (t < length (Close data))%nat →
  (Z.of_nat t + 1 < w)%Z ∨ (w ≤ 1)%Z →
  ∃ sf, mean_reversion_strategy sqrt data w = Ok sf ∧
        signal sf !! t = Some (Fin 0).
Proof.
  intros Hw Ht Hcase.
  pose proof (mean_reversion_strategy_cases sqrt data w) as H.
  destruct (mean_reversion_strategy sqrt data w) as [sf|e]; [|lia].
  destruct H as (_ & Hs & _). exists sf. split; [done|]. rewrite Hs.
  destruct (lookup_lt_is_Some_2 (Close data) t Ht) as [p Hp].
  destruct (lookup_lt_is_Some_2
              (roll_mean (mkRolling (Close data) (Z.to_nat w) (Z.to_nat w))) t)
    as [m Hm]; [by rewrite length_roll_mean|].
  erewrite mr_signal_lookup;
    [|eapply mr_z_score_lookup;
      [exact Hp|exact Hm|apply mr_std_no_sample; [done|lia]]].
  by rewrite fdiv_nan_r.
Qed.

Lemma mean_reversion_warm_up_witness :
  ∃ sf, mean_reversion_strategy Qc_sqrt_floor up_down3 1 = Ok sf ∧
        signal sf !! 2%nat = Some (Fin 0).
Proof.
  apply (mean_reversion_warm_up Qc_sqrt_floor up_down3 1 2).
  - lia.
  - simpl. lia.
  - right. lia.
Defined.

(** ** Fetching and the entry point *)

(** X16.  [get_crypto_data] catches every [Exception] of the download.  It
    returns the
    downloaded frame untouched and prints nothing when the download gave at
    least one bar; in every other case (the download raised, or returned no
    bar) it returns the empty frame and prints exactly one line that starts
    with "Error fetching data: ". *)
Theorem get_crypto_data_contract yf_download (ticker start_date end_date interval : string) :
  let '(data, out) :=
    get_crypto_data yf_download ticker start_date end_date interval in
  (empty data = false ∧ out = [] ∧
   yf_download ticker start_date end_date interval = Downloaded data)
  ∨
  (data = pd_DataFrame ∧
   (∃ e, out = [Text ("Error fetching data: " ++ e)%string]) ∧
   ∀ d, yf_download ticker start_date end_date interval = Downloaded d →
        empty d = true).
Proof.
  unfold get_crypto_data.
  destruct (yf_download ticker start_date end_date interval) as [d|msg].
  - destruct (empty d) eqn:Hd.
    + right. split; [done|]. split; [eauto|]. by intros d' [= <-].
    + by left.
  - right. split; [done|]. split; [eauto|]. done.
Qed.

Lemma get_crypto_data_nonempty yf_download ticker start_date end_date interval data :
  yf_download ticker start_date end_date interval = Downloaded data →
  empty data = false →
  get_crypto_data yf_download ticker start_date end_date interval = (data, []).
Proof. intros Hd He. unfold get_crypto_data. by rewrite Hd, He. Qed.

(** X17.  When the download fails or returns no bar, the entry point
    prints the fetch error and then the line "No data available for BTC-USD
    between 2023-01-01 and 2024-01-01.", and ends without an exception and
    without plotting; the minimizer is not consulted, whatever it would do. *)
Theorem main_without_data sqrt yf_download minimize :
  (∀ d, yf_download "BTC-USD"%string "2023-01-01"%string "2024-01-01"%string
    "1h"%string
        = Downloaded d → empty d = true) →
  ∃ e,
    main sqrt yf_download minimize
    = ([Text ("Error fetching data: " ++ e)%string;
        Text "No data available for BTC-USD between 2023-01-01 and 2024-01-01."%string],
       Ok None).
Proof.
  intros Hno. unfold main, get_crypto_data.
  destruct (yf_download _ _ _ _) as [d|msg] eqn:Hd.
  - rewrite (Hno d eq_refl). by eexists.
  - by eexists.
Qed.

Lemma main_without_data_witness :
  ∃ e,
    main Qc_sqrt_floor download_fails (λ _ _ _, Raise ValueError)
    = ([Text ("Error fetching data: " ++ e)%string;
        Text "No data available for BTC-USD between 2023-01-01 and 2024-01-01."%string],
       Ok None).
Proof.
  apply (main_without_data Qc_sqrt_floor download_fails
           (λ _ _ _, Raise ValueError)).
  intros d Hd. discriminate Hd.
Defined.

(** X18.  When the download gives at least one bar and the minimizer
    returns a point of the search box, the entry point prints the optimal
    parameters and reaches the plot without an exception: the three
    strategies accept the truncated windows, each frame it plots has one
    signal cell per bar, and each portfolio is the backtest of its frame. *)
Theorem main_reaches_plot sqrt yf_download (minimize : Minimizer) data x :
  yf_download "BTC-USD"%string "2023-01-01"%string "2024-01-01"%string
    "1h"%string = Downloaded data →
  empty data = false →
  minimize (objective sqrt data) x0 bounds = Ok x →
  in_bounds x = true →
  ∃ call,
    main sqrt yf_download minimize = ([OptimalParameters x], Ok (Some call)) ∧
    plot_data call = data ∧
    length (signal (plot_signals_ma call)) = length (Close data) ∧
    length (signal (plot_signals_mo call)) = length (Close data) ∧
    length (signal (plot_signals_mr call)) = length (Close data) ∧
    plot_portfolio_ma call = backtest_strategy data (plot_signals_ma call) ∧
    plot_portfolio_mo call = backtest_strategy data (plot_signals_mo call) ∧
    plot_portfolio_mr call = backtest_strategy data (plot_signals_mr call).
Proof.
  intros Hd He Hmin (sw & lw & mw & rw & Hw & Hb)%windows_in_bounds.
  apply windows_inv in Hw as (Hsw & Hlw & Hmw & Hrw).
  destruct (strategies_accept data sqrt sw lw rw)
    as (sf_ma & sf_mr & Ema & Hma & _ & Emr & Hmr & _); [lia..|].
  exists (mkPlotCall data sf_ma (momentum_strategy data mw) sf_mr
            (backtest_strategy data sf_ma)
            (backtest_strategy data (momentum_strategy data mw))
            (backtest_strategy data sf_mr)).
  split.
  - unfold main. rewrite (get_crypto_data_nonempty _ _ _ _ _ _ Hd He), He.
    unfold optimize_parameters. rewrite Hmin.
    by rewrite Hsw, result_bind_Ok, Hlw, result_bind_Ok, Ema, result_bind_Ok,
      Hmw, result_bind_Ok, Hrw, result_bind_Ok, Emr, result_bind_Ok.
  - cbn [plot_data plot_signals_ma plot_signals_mo plot_signals_mr
         plot_portfolio_ma plot_portfolio_mo plot_portfolio_mr].
    rewrite Hma, Hmr, length_ma_signal, length_mr_signal, length_momentum_signal.
    done.
Qed.

Lemma main_reaches_plot_witness :
  ∃ call,
    main Qc_sqrt_floor download_up_down3 minimize_stays
    = ([OptimalParameters x0], Ok (Some call)) ∧
    plot_data call = up_down3 ∧
    length (signal (plot_signals_ma call)) = length (Close up_down3) ∧
    length (signal (plot_signals_mo call)) = length (Close up_down3) ∧
    length (signal (plot_signals_mr call)) = length (Close up_down3) ∧
    plot_portfolio_ma call = backtest_strategy up_down3 (plot_signals_ma call) ∧
    plot_portfolio_mo call = backtest_strategy up_down3 (plot_signals_mo call) ∧
    plot_portfolio_mr call = backtest_strategy up_down3 (plot_signals_mr call).
Proof.
  apply (main_reaches_plot Qc_sqrt_floor download_up_down3 minimize_stays
           up_down3 x0).
  - reflexivity.
  - reflexivity.
  - vm_compute. reflexivity.
  - vm_compute. reflexivity.
Defined.

(** ** Moving averages on rising prices *)

Lemma Qc_sum_app l k : Qc_sum (l ++ k) = Qc_sum l + Qc_sum k.
Proof. induction l as [|x l IH]; simpl; [ring|]. rewrite IH. ring. Qed.

Lemma Qc_of_nat_add a b : Qc_of_nat (a + b) = Qc_of_nat a + Qc_of_nat b.
Proof. unfold Qc_of_nat. by rewrite Nat2Z.inj_add, Z2Qc_inj_add. Qed.

Lemma Qc_of_nat_pos k : 0 < Qc_of_nat (S k).
Proof.
  unfold Qc_of_nat. rewrite <- Z2Qc_inj_0.
  apply (proj1 (Z2Qc_inj_lt 0 (Z.of_nat (S k)))). lia.
Qed.

Lemma Qc_sum_below l m :
  l ≠ [] → Forall (λ x, x < m) l → Qc_sum l < Qc_of_nat (length l) * m.
Proof.
  intros Hne Hl. induction Hl as [|x l Hx Hl IH]; [done|].
  cbn [length Qc_sum foldr]. rewrite Qc_of_nat_S.
  destruct l as [|y l].
  - change (Qc_of_nat (length [])) with (Qc_of_Z 0). rewrite Z2Qc_inj_0.
    simpl. qc_to_q. lra.
  - specialize (IH ltac:(done)). fold (Qc_sum (y :: l)) in *.
    revert IH. generalize (Qc_sum (y :: l)) (Qc_of_nat (length (y :: l))).
    intros S k IH. qc_to_q. lra.
Qed.

Lemma Qc_sum_above l m :
  Forall (λ x, m ≤ x) l → Qc_of_nat (length l) * m ≤ Qc_sum l.
Proof.
  intros Hl. induction Hl as [|x l Hx Hl IH].
  - change (Qc_of_nat (length [])) with (Qc_of_Z 0). rewrite Z2Qc_inj_0.
    simpl. qc_to_q. lra.
  - cbn [length Qc_sum foldr]. rewrite Qc_of_nat_S.
    fold (Qc_sum l). revert IH. generalize (Qc_sum l) (Qc_of_nat (length l)).
    intros S k IH. qc_to_q. lra.
Qed.

Lemma Qc_div_lt_cross x y x' y' :
  0 < y → 0 < y' → x * y' < x' * y → x / y < x' / y'.
Proof.
  intros Hy Hy' H.
  apply (proj2 (Qcmult_lt_mono_pos_r (x / y) (x' / y') (y * y')
                  ltac:(by apply Qcmult_pos_pos))).
  replace (x / y * (y * y')) with (x * y')
    by (field; by apply Qclt_not_eq, not_eq_sym in Hy).
  replace (x' / y' * (y * y')) with (x' * y)
    by (field; by apply Qclt_not_eq, not_eq_sym in Hy').
  done.
Qed.

(** The mean of a list grows when a prefix of smaller values is dropped. *)
Lemma Qc_mean_suffix pre suf m :
  pre ≠ [] → suf ≠ [] →
  Forall (λ x, x < m) pre → Forall (λ x, m ≤ x) suf →
  Qc_mean (pre ++ suf) < Qc_mean suf.
Proof.
  intros Hp Hs Hpre Hsuf. unfold Qc_mean.
  rewrite Qc_sum_app, length_app, Qc_of_nat_add.
  pose proof (Qc_sum_below pre m Hp Hpre) as HA.
  pose proof (Qc_sum_above suf m Hsuf) as HB.
  destruct pre as [|x0 pre]; [done|]. destruct suf as [|y0 suf]; [done|].
  pose proof (Qc_of_nat_pos (length pre)) as Ha.
  pose proof (Qc_of_nat_pos (length suf)) as Hb.
  change (S (length pre)) with (length (x0 :: pre)) in Ha.
  change (S (length suf)) with (length (y0 :: suf)) in Hb.
  revert HA HB Ha Hb.
  generalize (Qc_sum (x0 :: pre)) (Qc_sum (y0 :: suf))
             (Qc_of_nat (length (x0 :: pre))) (Qc_of_nat (length (y0 :: suf))).
  intros A B a b HA HB Ha Hb.
  apply Qc_div_lt_cross; [|done|].
  - qc_to_q. lra.
  - qc_to_q. nra.
Qed.

Lemma omap_Fin (l : list Qc) :
  omap (λ x, match x with Fin q => Some q | _ => None end) (Fin <$> l) = l.
Proof. induction l as [|x l IH]; csimpl; [done|]. by rewrite IH. Qed.

Lemma observations_numbers (p : list Qc) w m t :
  observations (mkRolling (Fin <$> p) w m) t = drop (S t - w) (take (S t) p).
Proof.
  unfold observations; cbn [roll_obj roll_window].
  by rewrite <- fmap_take, <- fmap_drop, omap_Fin.
Qed.

Lemma rising_means (p : list Qc) (sw lw t : nat) :
  StronglySorted Qclt p → (1 ≤ sw)%nat → (sw < lw)%nat →
  (sw ≤ t)%nat → (t < length p)%nat →
  Qc_mean (drop (S t - lw) (take (S t) p))
  < Qc_mean (drop (S t - sw) (take (S t) p)).
Proof.
  intros Hp Hsw Hlw Ht Hn.
  set (T := take (S t) p).
  assert (length T = S t) as HT by (unfold T; rewrite length_take; lia).
  assert (∀ i, (i < S t)%nat → T !! i = p !! i) as HTp
    by (intros i Hi; by apply lookup_take_lt).
  set (k := (S t - sw)%nat). set (j := (S t - lw)%nat).
  assert (j < k ∧ k < S t)%nat as [Hjk Hk] by lia.
  destruct (lookup_lt_is_Some_2 T k) as [m Hm]; [lia|].
  rewrite <- (take_drop k T) at 1.
  rewrite drop_app_le by (rewrite length_take; lia).
  apply (Qc_mean_suffix _ _ m).
  - intros Hnil%(f_equal length).
    rewrite length_drop, length_take in Hnil. simpl in Hnil. lia.
  - intros Hnil%(f_equal length). rewrite length_drop in Hnil.
    simpl in Hnil. lia.
  - apply Forall_lookup_2. intros i x Hx.
    rewrite lookup_drop in Hx.
    pose proof (lookup_lt_Some _ _ _ Hx) as Hi. rewrite length_take in Hi.
    rewrite lookup_take_lt in Hx by lia.
    rewrite HTp in Hx, Hm by lia.
    apply (StronglySorted_lookup_lt p (j + i) k); [done|lia|done..].
  - apply Forall_lookup_2. intros i x Hx.
    rewrite lookup_drop in Hx.
    pose proof (lookup_lt_Some _ _ _ Hx) as Hi.
    destruct i as [|i].
    + rewrite Nat.add_0_r, Hm in Hx. injection Hx as <-. apply Qcle_refl.
    + rewrite HTp in Hx, Hm by lia. apply Qclt_le_weak.
      apply (StronglySorted_lookup_lt p k (k + S i)); [done|lia|done..].
Qed.

Lemma moving_average_rising_signal (p : list Qc) (sw lw : Z) (t : nat) :
  StronglySorted Qclt p → (1 ≤ sw)%Z → (sw < lw)%Z → (t < length p)%nat →
  ma_signal (Fin <$> p) sw lw !! t
  = Some (if bool_decide (Z.of_nat t < sw)%Z then Fin 0 else Fin 1).
Proof.
  intros Hp Hsw Hlw Ht. case_bool_decide as Htw.
  - apply ma_signal_warm; [by rewrite length_fmap|lia..].
  - erewrite ma_signal_lookup;
      [|apply roll_mean_lookup; cbn [roll_obj]; by rewrite length_fmap..].
    rewrite !observations_numbers. cbn [roll_min_periods].
    rewrite !bool_decide_eq_true_2
      by (rewrite length_drop, length_take; lia).
    pose proof (rising_means p (Z.to_nat sw) (Z.to_nat lw) t Hp) as Hlt.
    specialize (Hlt ltac:(lia) ltac:(lia) ltac:(lia) Ht).
    simpl. apply Qc_ltb_lt in Hlt as Hb. rewrite Hb.
    destruct (Qc_leb _ _) eqn:Hle; [|done].
    apply Qc_leb_le in Hle. by apply Qclt_not_le in Hlt.
Qed.

Lemma step_signal_positions (s : Series) (w : Z) (t : nat) :
  (1 ≤ w)%Z → (t < length s)%nat →
  (∀ k, (k < length s)%nat →
        s !! k = Some (if bool_decide (Z.of_nat k < w)%Z then Fin 0 else Fin 1)) →
  fillna (Fin 0) (diff s) !! t
  = Some (if bool_decide (Z.of_nat t = w) then Fin 1 else Fin 0).
Proof.
  intros Hw Ht Hs. destruct t as [|t].
  - rewrite bool_decide_eq_false_2 by lia. apply positions_first.
    by destruct s; [simpl in Ht; lia|].
  - rewrite lookup_fillna.
    rewrite (diff_lookup_S _ t _ _ (Hs t ltac:(lia)) (Hs (S t) Ht)).
    repeat case_bool_decide; try lia; simpl; do 2 f_equal; ring.
Qed.

Lemma moving_average_rising_numbers data (p : list Qc) (sw lw : Z) (t : nat) :
  Close data = Fin <$> p → StronglySorted Qclt p →
  (1 ≤ sw)%Z → (sw < lw)%Z → (t < length p)%nat →
  ∃ sf, moving_average_strategy data sw lw = Ok sf ∧
        signal sf !! t
        = Some (if bool_decide (Z.of_nat t < sw)%Z then Fin 0 else Fin 1) ∧
        positions sf !! t
        = Some (if bool_decide (Z.of_nat t = sw) then Fin 1 else Fin 0).
Proof.
  intros Hc Hp Hsw Hlw Ht.
  pose proof (moving_average_strategy_cases data sw lw) as H.
  destruct (moving_average_strategy data sw lw) as [sf|e]; [|lia].
  destruct H as (_ & Hs & Hpos). exists sf. split; [done|].
  rewrite Hpos, Hs, Hc. split.
  - by apply moving_average_rising_signal.
  - apply step_signal_positions;
      [done|by rewrite length_ma_signal, length_fmap|].
    intros k Hk. rewrite length_ma_signal, length_fmap in Hk.
    by apply moving_average_rising_signal.
Qed.

Lemma StronglySorted_Qc_of_Z (R : Z → Z → Prop) (R' : Qc → Qc → Prop)
    (p : list Z) :
  (∀ a b, R a b → R' (Qc_of_Z a) (Qc_of_Z b)) →
  StronglySorted R p → StronglySorted R' (Qc_of_Z <$> p).
Proof.
  intros HR Hp. induction Hp as [|x l Hl IH Hx]; simpl; constructor; [done|].
  apply Forall_fmap. eapply Forall_impl; [exact Hx|]. intros y. apply HR.
Qed.

(** X19.  On integer closes that rise strictly from bar to bar, the
    moving-average strategy with [1 <= short_window < long_window] gives
    signal 0 before bar [short_window] and 1 from that bar on (the mean of
    the last few closes is above the mean of more of them); its positions
    column is 1 at bar [short_window] and 0 elsewhere: one buy, no sell.
    The closes are such that float64 forms the window sums exactly
    ([exact_closes]) and tells the two means apart: they differ by at least
    [1 / (short_window * long_window)], which exceeds the spacing [2^-52 * K]
    of float64 at the magnitude of the closes. *)
Theorem moving_average_rising_prices data (p : list Z) (K sw lw : Z) (t : nat) :
  Close data = series_of_Z p → StronglySorted Z.lt p → exact_closes K p →
  (1 ≤ sw)%Z → (sw < lw)%Z → (sw * lw * K < 2 ^ 52)%Z → (t < length p)%nat →
  ∃ sf, moving_average_strategy data sw lw = Ok sf ∧
        signal sf !! t
        = Some (if bool_decide (Z.of_nat t < sw)%Z then Fin 0 else Fin 1) ∧
        positions sf !! t
        = Some (if bool_decide (Z.of_nat t = sw) then Fin 1 else Fin 0).
Proof.
  intros Hc Hp _ Hsw Hlw _ Ht.
  apply (moving_average_rising_numbers data (Qc_of_Z <$> p)); try done.
  - by rewrite Hc, series_of_Z_numbers.
  - apply (StronglySorted_Qc_of_Z Z.lt); [|done].
    intros a b. apply Z2Qc_inj_lt.
  - by rewrite length_fmap.
Qed.

Lemma moving_average_rising_prices_witness :
  ∃ sf, moving_average_strategy rising10 2 4 = Ok sf ∧
        signal sf !! 5%nat
        = Some (if bool_decide (Z.of_nat 5 < 2)%Z then Fin 0 else Fin 1) ∧
        positions sf !! 5%nat
        = Some (if bool_decide (Z.of_nat 5 = 2%Z) then Fin 1 else Fin 0).
Proof.
  apply (moving_average_rising_prices rising10
           [100; 101; 102; 103; 104; 105; 106; 107; 108; 109]%Z 109 2 4 5).
  - reflexivity.
  - repeat (constructor; [|repeat (constructor; [lia|]); constructor]).
    constructor.
  - split; [repeat (constructor; [lia|]); constructor|simpl; lia].
  - lia.
  - lia.
  - lia.
  - simpl. lia.
Defined.

(** ** Falling prices *)

Lemma StronglySorted_lookup {A} (R : A → A → Prop) (l : list A) (i j : nat) a b :
  StronglySorted R l → (i < j)%nat →
  l !! i = Some a → l !! j = Some b → R a b.
Proof.
  intros Hl. revert i j. induction Hl as [|x l Hl IH Hx]; intros i j Hij Ha Hb.
  { done. }
  destruct j as [|j]; [lia|]. destruct i as [|i].
  - injection Ha as <-. simpl in Hb.
    apply (proj1 (Forall_forall _ _) Hx). by eapply list_elem_of_lookup_2.
  - apply (IH i j); [lia|done..].
Qed.

Lemma Qc_sum_at_most l m :
  Forall (λ x, x ≤ m) l → Qc_sum l ≤ Qc_of_nat (length l) * m.
Proof.
  intros Hl. induction Hl as [|x l Hx Hl IH].
  - change (Qc_of_nat (length [])) with (Qc_of_Z 0). rewrite Z2Qc_inj_0.
    simpl. qc_to_q. lra.
  - cbn [length Qc_sum foldr]. rewrite Qc_of_nat_S.
    fold (Qc_sum l). revert IH. generalize (Qc_sum l) (Qc_of_nat (length l)).
    intros S k IH. qc_to_q. lra.
Qed.

Lemma Qc_div_le_cross x y x' y' :
  0 < y → 0 < y' → x * y' ≤ x' * y → x / y ≤ x' / y'.
Proof.
  intros Hy Hy' H.
  apply (proj2 (Qcmult_le_mono_pos_r (x / y) (x' / y') (y * y')
                  ltac:(by apply Qcmult_pos_pos))).
  replace (x / y * (y * y')) with (x * y')
    by (field; by apply Qclt_not_eq, not_eq_sym in Hy).
  replace (x' / y' * (y * y')) with (x' * y)
    by (field; by apply Qclt_not_eq, not_eq_sym in Hy').
  done.
Qed.

(** The mean of a list does not grow when a prefix of values that are at
    least as large is dropped. *)
Lemma Qc_mean_suffix_le pre suf m :
  suf ≠ [] →
  Forall (λ x, m ≤ x) pre → Forall (λ x, x ≤ m) suf →
  Qc_mean suf ≤ Qc_mean (pre ++ suf).
Proof.
  intros Hs Hpre Hsuf. unfold Qc_mean.
  rewrite Qc_sum_app, length_app, Qc_of_nat_add.
  pose proof (Qc_sum_above pre m Hpre) as HA.
  pose proof (Qc_sum_at_most suf m Hsuf) as HB.
  destruct suf as [|y0 suf]; [done|].
  pose proof (Qc_of_nat_nonneg (length pre)) as Ha.
  pose proof (Qc_of_nat_pos (length suf)) as Hb.
  change (S (length suf)) with (length (y0 :: suf)) in Hb.
  revert HA HB Ha Hb.
  generalize (Qc_sum pre) (Qc_sum (y0 :: suf))
             (Qc_of_nat (length pre)) (Qc_of_nat (length (y0 :: suf))).
  intros A B a b HA HB Ha Hb.
  apply Qc_div_le_cross; [done| |].
  - qc_to_q. lra.
  - qc_to_q. nra.
Qed.

Lemma falling_means (p : list Qc) (sw lw t : nat) :
  StronglySorted (λ a b, b ≤ a) p → (1 ≤ sw)%nat → (sw ≤ lw)%nat →
  (t < length p)%nat →
  Qc_mean (drop (S t - sw) (take (S t) p))
  ≤ Qc_mean (drop (S t - lw) (take (S t) p)).
Proof.
  intros Hp Hsw Hlw Hn.
  set (T := take (S t) p).
  assert (length T = S t) as HT by (unfold T; rewrite length_take; lia).
  assert (∀ i, (i < S t)%nat → T !! i = p !! i) as HTp
    by (intros i Hi; by apply lookup_take_lt).
  set (k := (S t - sw)%nat). set (j := (S t - lw)%nat).
  assert (j ≤ k ∧ k < S t)%nat as [Hjk Hk] by lia.
  destruct (lookup_lt_is_Some_2 T k) as [m Hm]; [lia|].
  rewrite <- (take_drop k T) at 2.
  rewrite drop_app_le by (rewrite length_take; lia).
  apply (Qc_mean_suffix_le _ _ m).
  - intros Hnil%(f_equal length). rewrite length_drop in Hnil.
    simpl in Hnil. lia.
  - apply Forall_lookup_2. intros i x Hx.
    rewrite lookup_drop in Hx.
    pose proof (lookup_lt_Some _ _ _ Hx) as Hi. rewrite length_take in Hi.
    rewrite lookup_take_lt in Hx by lia.
    rewrite HTp in Hx, Hm by lia.
    exact (StronglySorted_lookup (λ a b : Qc, b ≤ a) p (j + i) k x m Hp
             ltac:(lia) Hx Hm).
  - apply Forall_lookup_2. intros i x Hx.
    rewrite lookup_drop in Hx.
    pose proof (lookup_lt_Some _ _ _ Hx) as Hi.
    destruct i as [|i].
    + rewrite Nat.add_0_r, Hm in Hx. injection Hx as <-. apply Qcle_refl.
    + rewrite HTp in Hx, Hm by lia.
      exact (StronglySorted_lookup (λ a b : Qc, b ≤ a) p k (k + S i) m x Hp
               ltac:(lia) Hm Hx).
Qed.

Lemma moving_average_falling_numbers data (p : list Qc) (sw lw : Z) :
  Close data = Fin <$> p → StronglySorted (λ a b, b ≤ a) p →
  (1 ≤ sw)%Z → (sw ≤ lw)%Z →
  ∃ sf, moving_average_strategy data sw lw = Ok sf ∧
        signal sf = replicate (length p) (Fin 0) ∧
        total (backtest_strategy data sf) = replicate (length p) (of_Z 10000).
Proof.
  intros Hc Hp Hsw Hlw.
  assert (length (Close data) = length p) as Hlen by (by rewrite Hc, length_fmap).
  pose proof (moving_average_strategy_cases data sw lw) as H.
  destruct (moving_average_strategy data sw lw) as [sf|e]; [|lia].
  destruct H as (_ & Hs & _). exists sf. split; [done|].
  assert (signal sf = replicate (length p) (Fin 0)) as Hflat.
  { rewrite Hs, Hc. apply all_cells; [by rewrite length_ma_signal, length_fmap|].
    intros t Ht.
    erewrite ma_signal_lookup;
      [|apply roll_mean_lookup; cbn [roll_obj]; by rewrite length_fmap..].
    rewrite !observations_numbers. cbn [roll_min_periods].
    rewrite !bool_decide_eq_true_2
      by (rewrite length_drop, length_take; lia).
    pose proof (falling_means p (Z.to_nat sw) (Z.to_nat lw) t Hp) as Hle.
    specialize (Hle ltac:(lia) ltac:(lia) Ht).
    simpl. apply Qc_leb_le in Hle. by rewrite Hle. }
  split; [done|]. rewrite <- Hlen. apply backtest_flat_signal.
  by rewrite Hlen.
Qed.

(** X20.  On integer closes that never rise from one bar to the next, the
    moving-average strategy with [1 <= short_window <= long_window] gives
    signal 0 at every bar, and its backtest stays at 10000: the strategy
    stays out of a falling market.  The closes are such that float64 forms
    the window sums exactly ([exact_closes]); the rounded division keeps
    the order of the two means. *)
Theorem moving_average_falling_prices data (p : list Z) (K sw lw : Z) :
  Close data = series_of_Z p → StronglySorted (λ a b, b ≤ a)%Z p →
  exact_closes K p → (1 ≤ sw)%Z → (sw ≤ lw)%Z →
  ∃ sf, moving_average_strategy data sw lw = Ok sf ∧
        signal sf = replicate (length p) (Fin 0) ∧
        total (backtest_strategy data sf) = replicate (length p) (of_Z 10000).
Proof.
  intros Hc Hp _ Hsw Hlw.
  rewrite <- (length_fmap Qc_of_Z p).
  apply moving_average_falling_numbers; try done.
  - by rewrite Hc, series_of_Z_numbers.
  - apply (StronglySorted_Qc_of_Z (λ a b, b ≤ a)%Z); [|done].
    intros a b. apply Z2Qc_inj_le.
Qed.

Lemma moving_average_falling_prices_witness :
  ∃ sf, moving_average_strategy falling3 1 2 = Ok sf ∧
        signal sf = replicate (length [90; 90; 80]%Z) (Fin 0) ∧
        total (backtest_strategy falling3 sf)
        = replicate (length [90; 90; 80]%Z) (of_Z 10000).
Proof.
  apply (moving_average_falling_prices falling3 [90; 90; 80]%Z 90 1 2).
  - reflexivity.
  - repeat (constructor; [|repeat (constructor; [lia|]); constructor]).
    constructor.
  - split; [repeat (constructor; [lia|]); constructor|simpl; lia].
  - lia.
  - lia.
Defined.

(** X23.  On numeric closes that never rise from one bar to the next, the
    momentum strategy with any window that is not negative gives signal 0
    at every bar, and its backtest stays at 10000: a close is never above
    an earlier one. *)
Theorem momentum_falling_prices data (p : list Qc) (mw : Z) :
  Close data = Fin <$> p → StronglySorted (λ a b, b ≤ a) p → (0 ≤ mw)%Z →
  signal (momentum_strategy data mw) = replicate (length p) (Fin 0) ∧
  total (backtest_strategy data (momentum_strategy data mw))
  = replicate (length p) (of_Z 10000).
Proof.
  intros Hc Hp Hmw.
  assert (length (Close data) = length p) as Hlen by (by rewrite Hc, length_fmap).
  assert (signal (momentum_strategy data mw) = replicate (length p) (Fin 0))
    as Hflat.
  { apply all_cells; [by rewrite length_momentum_signal|].
    intros t Ht.
    destruct (decide (Z.of_nat t < mw)%Z) as [Htw|Htw].
    { apply momentum_signal_warm; [done|lia|by left]. }
    destruct (lookup_lt_is_Some_2 p t Ht) as [b Hb].
    destruct (lookup_lt_is_Some_2 p (t - Z.to_nat mw)%nat) as [a Ha]; [lia|].
    erewrite momentum_signal_lookup.
    - instantiate (1 := Fin a). instantiate (1 := Fin b). simpl.
      assert (b ≤ a) as Hab.
      { destruct (decide (mw = 0%Z)) as [->|Hne].
        - rewrite Nat.sub_0_r, Hb in Ha. injection Ha as <-. apply Qcle_refl.
        - exact (StronglySorted_lookup (λ a b : Qc, b ≤ a) p
                   (t - Z.to_nat mw)%nat t a b Hp ltac:(lia) Ha Hb). }
      assert (Qc_ltb 0 (b + - a) = false) as ->; [|done].
      destruct (Qc_ltb 0 (b + - a)) eqn:Hlt; [|done].
      apply Qc_ltb_lt in Hlt. exfalso. revert Hab Hlt. clear.
      intros Hab Hlt. qc_to_q. lra.
    - by rewrite Hc, list_lookup_fmap, Hb.
    - rewrite shift_lookup_ge by lia. by rewrite Hc, list_lookup_fmap, Ha. }
  split; [done|]. rewrite <- Hlen. apply backtest_flat_signal.
  by rewrite Hlen.
Qed.

Lemma momentum_falling_prices_witness :
  signal (momentum_strategy falling3 1) = replicate (length falling_bars) (Fin 0) ∧
  total (backtest_strategy falling3 (momentum_strategy falling3 1))
  = replicate (length falling_bars) (of_Z 10000).
Proof.
  apply (momentum_falling_prices falling3 falling_bars 1).
  - reflexivity.
  - repeat (constructor; [|repeat (constructor; [by vm_compute|]); constructor]).
    constructor.
  - lia.
Defined.

(** ** Long-only frames *)

(** X21.  For a frame whose signal cells are all 0 or 1 (as the
    moving-average and momentum strategies return) on integer closes on
    which the float64 arithmetic is exact ([exact_closes]), the equity does
    not fall over a bar in which the close does not fall, and does not rise
    over a bar in which the close does not rise. *)
Theorem long_only_equity_follows_price data signals (s p : list Z) (K : Z)
    (t : nat) :
  signal signals = series_of_Z s → Forall (λ z, 0 ≤ z ≤ 1)%Z s →
  Close data = series_of_Z p → exact_closes K p →
  length s = length p → (S t < length p)%nat →
  ∃ e0 e1 : Z,
    total (backtest_strategy data signals) !! t = Some (of_Z e0) ∧
    total (backtest_strategy data signals) !! S t = Some (of_Z e1) ∧
    (p !!! t ≤ p !!! S t → e0 ≤ e1)%Z ∧
    (p !!! S t ≤ p !!! t → e1 ≤ e0)%Z.
Proof.
  intros Hs Hr Hp Hex Hlen Ht.
  destruct (total_step_integers data signals s p K t)
    as (e0 & e1 & H0 & H1 & Hstep & _); try done.
  { eapply Forall_impl; [exact Hr|]. intros z; simpl. lia. }
  exists e0, e1. split; [done|]. split; [done|].
  assert (0 ≤ s !!! t ≤ 1)%Z as Hst.
  { apply (Forall_lookup_1 _ _ t _ Hr).
    apply list_lookup_lookup_total_lt. lia. }
  split; intros Hle; nia.
Qed.

Lemma long_only_equity_follows_price_witness :
  ∃ e0 e1 : Z,
    total (backtest_strategy up_down3 (momentum_strategy up_down3 1)) !! 1%nat
    = Some (of_Z e0) ∧
    total (backtest_strategy up_down3 (momentum_strategy up_down3 1)) !! 2%nat
    = Some (of_Z e1) ∧
    ([100; 101; 90] !!! 1%nat ≤ [100; 101; 90] !!! 2%nat → e0 ≤ e1)%Z ∧
    ([100; 101; 90] !!! 2%nat ≤ [100; 101; 90] !!! 1%nat → e1 ≤ e0)%Z.
Proof.
  apply (long_only_equity_follows_price up_down3 (momentum_strategy up_down3 1)
           [0; 1; 0]%Z [100; 101; 90]%Z 101 1).
  - compute_done.
  - repeat (constructor; [lia|]). constructor.
  - reflexivity.
  - split; [repeat (constructor; [lia|]); constructor|simpl; lia].
  - reflexivity.
  - simpl. lia.
Defined.

(** ** Mean reversion trades against the rolling mean *)

Lemma mean_reversion_mean_column sqrt data w sf :
  mean_reversion_strategy sqrt data w = Ok sf →
  indicators sf !! 0%nat
  = Some ("mean"%string,
          roll_mean (mkRolling (Close data) (Z.to_nat w) (Z.to_nat w))).
Proof.
  unfold mean_reversion_strategy. rewrite !rolling_default.
  destruct (0 <=? w)%Z; [|done]. rewrite !result_bind_Ok. by intros [= <-].
Qed.

Lemma Qc_compare_Lt_lt (a b : Qc) : (a ?= b) = Lt → a < b.
Proof. by rewrite <- Qclt_alt. Qed.

Lemma Qc_compare_Gt_gt (a b : Qc) : (a ?= b) = Gt → b < a.
Proof. by rewrite <- Qcgt_alt. Qed.

Lemma z_score_sides (pt d : Qc) (mcell : float) :
  0 ≤ d → mcell = NaN ∨ (∃ m, mcell = Fin m) →
  let z := fdiv (fsub (Fin pt) mcell) (Fin d) in
  (flt z (Fin (-1)) = true → ∃ m, mcell = Fin m ∧ pt < m) ∧
  (fgt z (Fin 1) = true → ∃ m, mcell = Fin m ∧ m < pt).
Proof.
  intros Hd [->|[m ->]]; [by split|]. simpl.
  destruct (Qc_eqb d 0) eqn:Hd0.
  - unfold inf_signed. destruct (pt + - m ?= 0) eqn:Hcmp; simpl.
    + by split.
    + split; [|done]. intros _. exists m. split; [done|].
      apply Qc_compare_Lt_lt in Hcmp. revert Hcmp. clear. intros H.
      qc_to_q. lra.
    + split; [done|]. intros _. exists m. split; [done|].
      apply Qc_compare_Gt_gt in Hcmp. revert Hcmp. clear. intros H.
      qc_to_q. lra.
  - assert (0 < d) as Hpos.
    { apply Qcle_lt_or_eq in Hd as [Hd| <-]; [done|].
      by rewrite (proj2 (Qc_eqb_eq 0 0) eq_refl) in Hd0. }
    assert (pt + - m = (pt + - m) / d * d) as Hx
      by (field; by apply Qclt_not_eq, not_eq_sym in Hpos).
    revert Hx. generalize ((pt + - m) / d). intros y Hx.
    unfold fgt. simpl. rewrite !Qc_ltb_lt.
    split; intros Hy; exists m; (split; [done|]).
    + assert (pt + - m < 0) as H; [|revert H; clear; intros H; qc_to_q; lra].
      rewrite Hx. revert Hy Hpos. clear. intros Hy Hpos.
      assert (this (Q2Qc (-1)) == -1)%Q as E by reflexivity.
      qc_to_q. rewrite E in Hy. nra.
    + assert (0 < pt + - m) as H; [|revert H; clear; intros H; qc_to_q; lra].
      rewrite Hx. revert Hy Hpos. clear. intros Hy Hpos.
      qc_to_q. nra.
Qed.

Lemma signal_values_distinct :
  Fin 1 ≠ Fin (-1) ∧ Fin 1 ≠ Fin 0 ∧ Fin (-1) ≠ Fin 0.
Proof. compute_done. Qed.

(** X22.  With a square root that is never negative and numeric closes,
    the mean-reversion strategy signals 1 (buy) only at bars where the close
    is below its rolling mean, and -1 (sell) only at bars where the close is
    above it. *)
Theorem mean_reversion_trades_against_mean sqrt data (p : list Qc) (w : Z)
    (t : nat) sf (mean : Series) :
  (∀ v, 0 ≤ sqrt v) →
  Close data = Fin <$> p →
  mean_reversion_strategy sqrt data w = Ok sf →
  indicators sf !! 0%nat = Some ("mean"%string, mean) →
  (t < length p)%nat →
  (signal sf !! t = Some (Fin 1) →
     ∃ m, mean !! t = Some (Fin m) ∧ p !!! t < m) ∧
  (signal sf !! t = Some (Fin (-1)) →
     ∃ m, mean !! t = Some (Fin m) ∧ m < p !!! t).
Proof.
  intros Hsqrt Hc Hsf Hmean Ht.
  rewrite (mean_reversion_mean_column _ _ _ _ Hsf) in Hmean.
  injection Hmean as <-.
  pose proof (mean_reversion_strategy_cases sqrt data w) as H.
  rewrite Hsf in H. destruct H as (_ & Hs & _). rewrite Hs, Hc.
  set (r := mkRolling (Fin <$> p) (Z.to_nat w) (Z.to_nat w)).
  assert (t < length (roll_obj r))%nat as Htr
    by (cbn [roll_obj r]; by rewrite length_fmap).
  pose proof (roll_mean_lookup r t Htr) as Hm.
  pose proof (roll_std_lookup sqrt r t Htr) as Hd.
  assert ((Fin <$> p) !! t = Some (Fin (p !!! t))) as Hp
    by (rewrite list_lookup_fmap, list_lookup_lookup_total_lt by done; done).
  set (mcell := if bool_decide (roll_min_periods r ≤ length (observations r t)
                                ∧ 0 < length (observations r t))%nat
                then Fin (Qc_mean (observations r t)) else NaN) in Hm.
  assert (mcell = NaN ∨ ∃ m, mcell = Fin m) as Hmc
    by (unfold mcell; destruct (bool_decide _);
        [right; eexists; reflexivity|left; reflexivity]).
  rewrite Hm.
  destruct (bool_decide (roll_min_periods r ≤ length (observations r t)
                         ∧ 1 < length (observations r t))%nat) eqn:Hfull.
  - set (d := zsqrt sqrt (Qc_var (observations r t))) in Hd.
    assert (0 ≤ d) as Hd0.
    { unfold d, zsqrt. destruct (Qc_ltb _ _); [apply Qcle_refl|apply Hsqrt]. }
    rewrite (mr_signal_lookup sqrt _ w t _
               (mr_z_score_lookup sqrt _ w t _ _ _ Hp Hm Hd)).
    destruct (z_score_sides (p !!! t) d mcell Hd0 Hmc) as [Hbuy Hsell].
    cbv zeta in Hbuy, Hsell.
    set (z := fdiv (fsub (Fin (p !!! t)) mcell) (Fin d)) in *.
    destruct (flt z (Fin (-1))) eqn:Hlt; destruct (fgt z (Fin 1)) eqn:Hgt;
      (split; intros Hcell;
       try (injection Hcell as Hcell;
            destruct signal_values_distinct as (D1 & D2 & D3); congruence)).
    all: try (destruct (Hbuy eq_refl) as (m & -> & Hm'); by eauto).
    all: try (destruct (Hsell eq_refl) as (m & -> & Hm'); by eauto).
  - rewrite (mr_signal_lookup sqrt _ w t _
               (mr_z_score_lookup sqrt _ w t _ _ _ Hp Hm Hd)).
    rewrite fdiv_nan_r. simpl.
    split; intros Hcell; injection Hcell as Hcell;
      destruct signal_values_distinct as (D1 & D2 & D3); congruence.
Qed.

Lemma Qc_sqrt_floor_nonneg (v : Qc) : 0 ≤ Qc_sqrt_floor v.
Proof.
  unfold Qc_sqrt_floor, Qcle. cbn [this Q2Qc]. rewrite !Qred_correct.
  unfold Qle. cbn. rewrite Z.mul_1_r. apply Z.sqrt_nonneg.
Qed.

Lemma mean_reversion_trades_against_mean_witness :
  ∃ sf mean,
    mean_reversion_strategy Qc_sqrt_floor up_down3 3 = Ok sf ∧
    indicators sf !! 0%nat = Some ("mean"%string, mean) ∧
    signal sf !! 2%nat = Some (Fin 1) ∧
    (signal sf !! 2%nat = Some (Fin 1) →
       ∃ m, mean !! 2%nat = Some (Fin m) ∧ numeric_bars !!! 2%nat < m) ∧
    (signal sf !! 2%nat = Some (Fin (-1)) →
       ∃ m, mean !! 2%nat = Some (Fin m) ∧ m < numeric_bars !!! 2%nat).
Proof.
  eexists _, _. split; [reflexivity|]. split; [reflexivity|].
  split; [by vm_compute|].
  apply (mean_reversion_trades_against_mean Qc_sqrt_floor up_down3
           numeric_bars 3 2).
  - apply Qc_sqrt_floor_nonneg.
  - reflexivity.
  - reflexivity.
  - reflexivity.
  - simpl. lia.
Defined.

(** ** The objective on the store *)

Lemma getitem_missing σ r fr name :
  σ !! r = Some fr → column name (columns fr) = None →
  Heap.getitem r name σ = (Raise KeyError, σ).
Proof.
  intros H Hc. unfold Heap.getitem, Heap.deref, mbind, prog_bind.
  by rewrite (list_lookup_total_correct _ _ _ H), Hc.
Qed.

(** X24.  When [data] names a frame that has no [Close] column, as
    [pd.DataFrame()] has none, and the first two parameters convert to
    integers, the objective raises [KeyError] (from the first [data['Close']]
    of [moving_average_strategy]); the objects that were in the store are
    unchanged. *)
Theorem objective_without_close sqrt (σ : store) (data : ref) fr params
    (sw lw : Z) :
  σ !! data = Some fr → column "Close" (columns fr) = None →
  int (short_window params) = Ok sw → int (long_window params) = Ok lw →
  ∃ σ', Heap.objective sqrt data params σ = (Raise KeyError, σ') ∧
        ∀ (r : ref) (o : DataFrame), σ !! r = Some o → σ' !! r = Some o.
Proof.
  intros Hd Hc Hsw Hlw. unfold Heap.objective.
  run_lift Hsw. run_lift Hlw.
  eexists. split.
  - erewrite bind_raise; [reflexivity|].
    unfold Heap.moving_average_strategy. run_new.
    erewrite bind_raise; [reflexivity|].
    apply (getitem_missing _ _ fr); [by apply lookup_app_l_Some|done].
  - intros r o Hr. by apply lookup_app_l_Some.
Qed.

Lemma objective_without_close_witness :
  ∃ σ', Heap.objective Qc_sqrt_floor 0%nat x0 [mkDataFrame 0 []]
        = (Raise KeyError, σ') ∧
        ∀ (r : ref) (o : DataFrame),
          [mkDataFrame 0 []] !! r = Some o → σ' !! r = Some o.
Proof.
  apply (objective_without_close Qc_sqrt_floor [mkDataFrame 0 []] 0%nat
           (mkDataFrame 0 []) x0 30 90).
  - reflexivity.
  - reflexivity.
  - reflexivity.
  - reflexivity.
Defined.

(** X25.  Run on a store in which [data] names a price table, the
    objective returns what the objective on values returns for the [Close]
    column of that table, value or exception; it only adds objects to the
    store, and every object that was there before is unchanged. *)
Theorem objective_on_store sqrt (σ : store) (data : ref) (c : Series) params :
  holds_prices σ data c →
  ∃ σ', Heap.objective sqrt data params σ
        = (objective sqrt (mkPriceFrame c) params, σ') ∧
        (length σ ≤ length σ')%nat ∧
        ∀ (r : ref) (o : DataFrame), σ !! r = Some o → σ' !! r = Some o.
Proof.
  intros Hd. destruct (objective_run sqrt σ data c params Hd) as (σ' & Hr & Hp).
  exists σ'. split; [done|]. split; [by apply prefix_length|].
  intros r o Ho. by eapply prefix_lookup_Some.
Qed.

Lemma objective_on_store_witness :
  ∃ σ', Heap.objective Qc_sqrt_floor 0%nat x0 up_down3_store
        = (objective Qc_sqrt_floor (mkPriceFrame (Close up_down3)) x0, σ') ∧
        (length up_down3_store ≤ length σ')%nat ∧
        ∀ (r : ref) (o : DataFrame),
          up_down3_store !! r = Some o → σ' !! r = Some o.
Proof.
  apply (objective_on_store Qc_sqrt_floor up_down3_store 0%nat
           (Close up_down3) x0).
  eexists. split; [reflexivity|]. split; reflexivity.
Defined.
